(** * Nova runtime runner: a shallow embedding and its checked properties

    The development follows [packages/runtime-node/runner.js] in its latest
    revision (the one with budgets, property checking and the optimisation
    advisor) together with [packages/runtime-node/index.js] (the [Runtime]
    class).  Every JavaScript function of the runner has a Rocq function of
    the same name; the built-ins it calls ([String.prototype.split], [trim],
    regular expressions, [Number], ...) are modelled in the first part.

    Conventions.
    - A JavaScript string is the list of its UTF-16 code units ([jstring]);
      [u "..."] reads a literal (UTF-8 in this file) into code units.
    - Numbers that the runner only ever uses as integers (latencies in
      milliseconds, thresholds, page sizes, seeded field values) live in [Z],
      which agrees with IEEE doubles on the safe-integer range.  The one
      fractional computation, [(percentile / 100) * length], is carried out
      in binary64 through [SpecFloat].
    - [throw] is an [Err] result; [console.warn]/[console.info] and outbound
      calls are returned as a trace. *)

From Stdlib Require Import String Ascii.
From Stdlib Require Import List ZArith NArith QArith Bool Lia.
From Stdlib Require Import Permutation Sorted.
From Stdlib Require Floats.SpecFloat.
Import ListNotations.

Set Implicit Arguments.
Unset Strict Implicit.

Close Scope Q_scope.
Open Scope list_scope.

(* ================================================================== *)
(** * JavaScript strings *)

Module JsString.

Definition jschar := N.
Definition jstring := list jschar.

(** Reading a UTF-8 literal into UTF-16 code units. *)
Fixpoint bytes_of_string (s : string) : list N :=
  match s with
  | EmptyString => []
  | String a r => N_of_ascii a :: bytes_of_string r
  end.

Fixpoint utf8_decode (bs : list N) : jstring :=
  match bs with
  | [] => []
  | b :: r =>
    if (b <? 128)%N then b :: utf8_decode r
    else if (b <? 224)%N then
      match r with
      | b2 :: r2 => ((b - 192) * 64 + (b2 - 128))%N :: utf8_decode r2
      | [] => [65533%N]
      end
    else if (b <? 240)%N then
      match r with
      | b2 :: b3 :: r3 =>
        ((b - 224) * 4096 + (b2 - 128) * 64 + (b3 - 128))%N :: utf8_decode r3
      | _ => [65533%N]
      end
    else
      match r with
      | b2 :: b3 :: b4 :: r4 =>
        let cp := ((b - 240) * 262144 + (b2 - 128) * 4096
                   + (b3 - 128) * 64 + (b4 - 128))%N in
        let v := (cp - 65536)%N in
        (55296 + v / 1024)%N :: (56320 + v mod 1024)%N :: utf8_decode r4
      | _ => [65533%N]
      end
  end.

Definition u (s : string) : jstring := utf8_decode (bytes_of_string s).

(** Literals that contain double quotes are written with a backquote in
    their place: [uq "kv.scan(`j:`)"] is the text [kv.scan("j:")]. *)
Definition uq (s : string) : jstring :=
  map (fun c => if (c =? 96)%N then 34%N else c) (u s).

Fixpoint jstr_eqb (a b : jstring) : bool :=
  match a, b with
  | [], [] => true
  | x :: a', y :: b' => (x =? y)%N && jstr_eqb a' b'
  | _, _ => false
  end.

(** [s.startsWith(p)] *)
Fixpoint startsWith (s p : jstring) {struct p} : bool :=
  match p with
  | [] => true
  | y :: p' =>
    match s with
    | x :: s' => (x =? y)%N && startsWith s' p'
    | [] => false
    end
  end.

(** [s.endsWith(p)] *)
Definition endsWith (s p : jstring) : bool := startsWith (rev s) (rev p).

(** First occurrence of [pat] in [s]: the text before it and the text after
    it. *)
Fixpoint find_sub (pat s : jstring) : option (jstring * jstring) :=
  if startsWith s pat then Some ([], skipn (length pat) s)
  else
    match s with
    | [] => None
    | c :: s' =>
      match find_sub pat s' with
      | Some (a, b) => Some (c :: a, b)
      | None => None
      end
    end.

(** [s.includes(pat)] *)
Definition includes (s pat : jstring) : bool :=
  match find_sub pat s with Some _ => true | None => false end.

(** [s.split(sep)] for a non-empty separator. *)
Fixpoint split_fuel (n : nat) (s sep : jstring) : list jstring :=
  match n with
  | O => [s]
  | S n' =>
    match find_sub sep s with
    | None => [s]
    | Some (a, b) => a :: split_fuel n' b sep
    end
  end.

Definition split (s sep : jstring) : list jstring :=
  split_fuel (length s) s sep.

(** [s.replace(pat, repl)] with a string pattern: the first occurrence
    only. *)
Definition replace (s pat repl : jstring) : jstring :=
  match find_sub pat s with
  | None => s
  | Some (a, b) => a ++ repl ++ b
  end.

(** White space and line terminators of ECMAScript ([trim] and [\s]). *)
Definition is_line_terminator (c : jschar) : bool :=
  ((c =? 10) || (c =? 13) || (c =? 8232) || (c =? 8233))%N.

Definition is_space (c : jschar) : bool :=
  ((c =? 9) || (c =? 10) || (c =? 11) || (c =? 12) || (c =? 13) || (c =? 32)
   || (c =? 160) || (c =? 5760) || ((8192 <=? c) && (c <=? 8202))
   || (c =? 8232) || (c =? 8233) || (c =? 8239) || (c =? 8287)
   || (c =? 12288) || (c =? 65279))%N.

Fixpoint trimStart (s : jstring) : jstring :=
  match s with
  | c :: s' => if is_space c then trimStart s' else s
  | [] => []
  end.

Definition trimEnd (s : jstring) : jstring := rev (trimStart (rev s)).

(** [s.trim()] *)
Definition trim (s : jstring) : jstring := trimEnd (trimStart s).

(** [tok.slice(1, -1)] *)
Definition slice_1_m1 (s : jstring) : jstring := removelast (tl s).

(** [s.toLowerCase()].  The letters A-Z are mapped; the Unicode case tables
    beyond ASCII are not modelled and such code units are left as they
    are. *)
Definition lower_char (c : jschar) : jschar :=
  if ((65 <=? c) && (c <=? 90))%N then (c + 32)%N else c.

Definition toLowerCase (s : jstring) : jstring := map lower_char s.

Definition is_digit (c : jschar) : bool := ((48 <=? c) && (c <=? 57))%N.

Definition digit_val (c : jschar) : Z := (Z.of_N c - 48)%Z.

(** [parseInt(ds, 10)] and [Number(ds)] on a run of decimal digits. *)
Definition parseDigits (ds : jstring) : Z :=
  fold_left (fun acc c => 10 * acc + digit_val c)%Z ds 0%Z.

(** Decimal rendering of an integer: [String(n)] and template
    interpolation. *)
Fixpoint pos_digits_fuel (n : nat) (p : Z) (acc : jstring) : jstring :=
  match n with
  | O => acc
  | S n' =>
    let acc' := (48 + Z.to_N (p mod 10))%N :: acc in
    if (p / 10 =? 0)%Z then acc' else pos_digits_fuel n' (p / 10)%Z acc'
  end.

Definition Z_toString (z : Z) : jstring :=
  match z with
  | Z0 => u "0"
  | Zpos p => pos_digits_fuel (Pos.to_nat (Pos.size p)) z []
  | Zneg p => 45%N :: pos_digits_fuel (Pos.to_nat (Pos.size p)) (Zpos p) []
  end.

End JsString.
Import JsString.


(* ================================================================== *)
(** * Regular expressions

    A backtracking matcher in continuation-passing style, for the fragment
    of ECMAScript regular expressions that the runner uses: literals,
    character classes, sequence, ordered alternation, greedy [*], [+] and
    [?], capture groups (numbered and named), [^] and [$] (no [m] flag). *)

Module Regex.

Inductive gname :=
| Idx (n : nat)
| Name (s : jstring).

Definition gname_eqb (a b : gname) : bool :=
  match a, b with
  | Idx i, Idx j => Nat.eqb i j
  | Name s, Name t => jstr_eqb s t
  | _, _ => false
  end.

(** Character classes: [.], [\d], [\s], [[A-Z]], [[a-zA-Z0-9_.]], [[abc]]
    and [[^abc]]. *)
Inductive cls :=
| dot
| digit
| space
| upper
| cap_char
| one_of (l : jstring)
| none_of (l : jstring).

Definition is_upper (c : jschar) : bool := ((65 <=? c) && (c <=? 90))%N.
Definition is_lower (c : jschar) : bool := ((97 <=? c) && (c <=? 122))%N.
Definition mem (l : jstring) (c : jschar) : bool := existsb (N.eqb c) l.

Definition cls_mem (k : cls) (c : jschar) : bool :=
  match k with
  | dot => negb (is_line_terminator c)
  | digit => is_digit c
  | space => is_space c
  | upper => is_upper c
  | cap_char => is_lower c || is_upper c || is_digit c || mem (u "_.") c
  | one_of l => mem l c
  | none_of l => negb (mem l c)
  end.

Inductive re :=
| Eps
| Chr (p : cls)
| Lit (l : jstring)
| LitCI (l : jstring)
| Seq (a b : re)
| Alt (a b : re)
| Star (a : re)
| Grp (g : gname) (a : re)
| Eol.

Definition caps := list (gname * jstring).
Definition kont := jstring -> caps -> option caps.

(** Canonicalisation of the [i] flag (non-unicode mode) on the ASCII letters
    that the runner's patterns contain. *)
Definition upper_char (c : jschar) : jschar :=
  if ((97 <=? c) && (c <=? 122))%N then (c - 32)%N else c.

Fixpoint startsWithCI (s p : jstring) {struct p} : bool :=
  match p with
  | [] => true
  | y :: p' =>
    match s with
    | x :: s' => (upper_char x =? upper_char y)%N && startsWithCI s' p'
    | [] => false
    end
  end.

(** Greedy repetition: one more turn of [ma] first, which must consume
    something, and the continuation when that fails. *)
Fixpoint star_loop (ma : jstring -> caps -> kont -> option caps) (k : kont)
         (n : nat) (s : jstring) (c : caps) {struct n} : option caps :=
  match n with
  | O => k s c
  | S n' =>
    match ma s c (fun s' c' =>
                    if (length s' <? length s)%nat
                    then star_loop ma k n' s' c' else None) with
    | Some r => Some r
    | None => k s c
    end
  end.

Fixpoint backtrack (r : re) (s : jstring) (c : caps) (k : kont) {struct r}
  : option caps :=
  match r with
  | Eps => k s c
  | Chr p =>
    match s with
    | x :: s' => if cls_mem p x then k s' c else None
    | [] => None
    end
  | Lit l => if startsWith s l then k (skipn (length l) s) c else None
  | LitCI l => if startsWithCI s l then k (skipn (length l) s) c else None
  | Seq a b => backtrack a s c (fun s' c' => backtrack b s' c' k)
  | Alt a b =>
    match backtrack a s c k with
    | Some r => Some r
    | None => backtrack b s c k
    end
  | Star a => star_loop (backtrack a) k (length s) s c
  | Grp g a =>
    backtrack a s c (fun s' c' =>
               k s' ((g, firstn (length s - length s') s) :: c'))
  | Eol => match s with [] => k s c | _ :: _ => None end
  end.

Definition Plus (a : re) : re := Seq a (Star a).
Definition Opt (a : re) : re := Alt a Eps.

Definition match_here (r : re) (s : jstring) : option caps :=
  backtrack r s [] (fun _ c => Some c).

(** The leftmost match, as [RegExp.prototype.exec] finds it. *)
Fixpoint search (r : re) (s : jstring) : option caps :=
  match match_here r s with
  | Some c => Some c
  | None =>
    match s with
    | [] => None
    | _ :: s' => search r s'
    end
  end.

Record regexp := RegExp { anchored : bool; body : re }.

(** [s.match(rx)] for a pattern without the [g] flag. *)
Definition match_ (s : jstring) (rx : regexp) : option caps :=
  if anchored rx then match_here (body rx) s else search (body rx) s.

Fixpoint cap_lookup (c : caps) (g : gname) : option jstring :=
  match c with
  | [] => None
  | (g', t) :: c' => if gname_eqb g' g then Some t else cap_lookup c' g
  end.

(** [m[i]] — every group of the runner's patterns takes part in every
    match, so the text is always there. *)
Definition group (c : caps) (i : nat) : jstring :=
  match cap_lookup c (Idx i) with Some t => t | None => [] end.

(** [m.groups]: the named groups in pattern order; [None] is the
    [undefined] of a pattern without named groups. *)
Fixpoint named (c : caps) : list (jstring * jstring) :=
  match c with
  | [] => []
  | (Name n, t) :: c' => named c' ++ [(n, t)]
  | (Idx _, _) :: c' => named c'
  end.

Definition groups (c : caps) : option (list (jstring * jstring)) :=
  match named c with
  | [] => None
  | g => Some g
  end.

End Regex.
Import Regex.

(** The patterns of [runner.js], in source order. *)
Module Patterns.

(** [/^([A-Z]+)\s+(.+)\s+->\s*(.+)$/] *)
Definition re_path_part : regexp :=
  RegExp true
    (Seq (Grp (Idx 1) (Plus (Chr upper)))
    (Seq (Plus (Chr space))
    (Seq (Grp (Idx 2) (Plus (Chr dot)))
    (Seq (Plus (Chr space))
    (Seq (Lit (u "->"))
    (Seq (Star (Chr space))
    (Seq (Grp (Idx 3) (Plus (Chr dot)))
         Eol))))))).

(** [/kv\.scan\(`( .* )`\)/], with a backquote for the double quote and
    blanks put around the star. *)
Definition re_kv_scan : regexp :=
  RegExp false
    (Seq (Lit (uq "kv.scan(`"))
    (Seq (Grp (Idx 1) (Star (Chr dot)))
         (Lit (uq "`)")))).

(** [/name\((.+)\)/] for [kv\.get], [filter], [req] and [http\.post]. *)
Definition re_call (name : jstring) : regexp :=
  RegExp false
    (Seq (Lit (name ++ u "("))
    (Seq (Grp (Idx 1) (Plus (Chr dot)))
         (Lit (u ")")))).

Definition re_kv_get := re_call (u "kv.get").
Definition re_filter := re_call (u "filter").
Definition re_req := re_call (u "req").
Definition re_http_post := re_call (u "http.post").

(** [/page\((\d+)\)/] *)
Definition re_page : regexp :=
  RegExp false
    (Seq (Lit (u "page("))
    (Seq (Grp (Idx 1) (Plus (Chr digit)))
         (Lit (u ")")))).

(** [/(U\d+)\s*[^[]*\[(.+)\]/] *)
Definition re_precondition : regexp :=
  RegExp false
    (Seq (Grp (Idx 1) (Seq (Lit (u "U")) (Plus (Chr digit))))
    (Seq (Star (Chr space))
    (Seq (Star (Chr (none_of (u "["))))
    (Seq (Lit (u "["))
    (Seq (Grp (Idx 2) (Plus (Chr dot)))
         (Lit (u "]"))))))).

(** [/U(\d+)\(x\)\s*([<>]=?|≥|≤)\s*(\d+)/] *)
Definition re_cmp : regexp :=
  RegExp false
    (Seq (Lit (u "U"))
    (Seq (Grp (Idx 1) (Plus (Chr digit)))
    (Seq (Lit (u "(x)"))
    (Seq (Star (Chr space))
    (Seq (Grp (Idx 2)
            (Alt (Seq (Chr (one_of (u "<>"))) (Opt (Lit (u "="))))
            (Alt (Lit (u "≥")) (Lit (u "≤")))))
    (Seq (Star (Chr space))
         (Grp (Idx 3) (Plus (Chr digit))))))))).

(** [/mono\(\s*(U\d+)\s*,\s*E(\d+)\s*\)/i] *)
Definition re_mono : regexp :=
  RegExp false
    (Seq (LitCI (u "mono("))
    (Seq (Star (Chr space))
    (Seq (Grp (Idx 1) (Seq (LitCI (u "U")) (Plus (Chr digit))))
    (Seq (Star (Chr space))
    (Seq (Lit (u ","))
    (Seq (Star (Chr space))
    (Seq (LitCI (u "E"))
    (Seq (Grp (Idx 2) (Plus (Chr digit)))
    (Seq (Star (Chr space))
         (Lit (u ")"))))))))))).

(** [/p(\d+)<(\d+)(ms|s)/] *)
Definition re_budget : regexp :=
  RegExp false
    (Seq (Lit (u "p"))
    (Seq (Grp (Idx 1) (Plus (Chr digit)))
    (Seq (Lit (u "<"))
    (Seq (Grp (Idx 2) (Plus (Chr digit)))
         (Grp (Idx 3) (Alt (Lit (u "ms")) (Lit (u "s")))))))).

(** [/^([a-zA-Z0-9_.]+)\(/] *)
Definition re_cap : regexp :=
  RegExp true
    (Seq (Grp (Idx 1) (Plus (Chr cap_char)))
         (Lit (u "("))).

End Patterns.
Import Patterns.


(* ================================================================== *)
(** * JavaScript values, as far as the runner meets them *)

Module Js.

(** Field values of stored items are primitives.  [VFunction] and [VObject]
    are what a property read can bring back from [Object.prototype]: a
    native function, or an object whose content the runner never looks at
    (also used for an object-valued entry of the capability dictionary). *)
Inductive value :=
| VUndefined
| VNull
| VBool (b : bool)
| VNum (z : Z)
| VStr (s : jstring)
| VFunction (name : jstring)
| VObject.

(** An object literal: its own properties in insertion order. *)
Definition object := list (jstring * value).

Fixpoint assoc {A} (k : jstring) (l : list (jstring * A)) : option A :=
  match l with
  | [] => None
  | (k', v) :: l' => if jstr_eqb k' k then Some v else assoc k l'
  end.

(** What every ordinary object inherits. *)
Definition Object_prototype : object :=
  [ (u "constructor", VFunction (u "Object"));
    (u "__defineGetter__", VFunction (u "__defineGetter__"));
    (u "__defineSetter__", VFunction (u "__defineSetter__"));
    (u "hasOwnProperty", VFunction (u "hasOwnProperty"));
    (u "__lookupGetter__", VFunction (u "__lookupGetter__"));
    (u "__lookupSetter__", VFunction (u "__lookupSetter__"));
    (u "isPrototypeOf", VFunction (u "isPrototypeOf"));
    (u "propertyIsEnumerable", VFunction (u "propertyIsEnumerable"));
    (u "toString", VFunction (u "toString"));
    (u "valueOf", VFunction (u "valueOf"));
    (u "__proto__", VObject);
    (u "toLocaleString", VFunction (u "toLocaleString")) ].

(** [o[k]] on an ordinary object: own properties, then the prototype. *)
Definition get (o : object) (k : jstring) : value :=
  match assoc k o with
  | Some v => v
  | None =>
    match assoc k Object_prototype with
    | Some v => v
    | None => VUndefined
    end
  end.

(** [o[k]] on an object without prototype (the [groups] of a match). *)
Definition get_own (o : list (jstring * jstring)) (k : jstring) : value :=
  match assoc k o with
  | Some s => VStr s
  | None => VUndefined
  end.

Definition is_undefined (v : value) : bool :=
  match v with VUndefined => true | _ => false end.

(** Truthiness. *)
Definition truthy (v : value) : bool :=
  match v with
  | VUndefined | VNull => false
  | VBool b => b
  | VNum z => negb (z =? 0)%Z
  | VStr s => match s with [] => false | _ => true end
  | VFunction _ | VObject => true
  end.

(** [String(v)] *)
Definition ToString (v : value) : jstring :=
  match v with
  | VUndefined => u "undefined"
  | VNull => u "null"
  | VBool true => u "true"
  | VBool false => u "false"
  | VNum z => Z_toString z
  | VStr s => s
  | VFunction name => u "function " ++ name ++ u "() { [native code] }"
  | VObject => u "[object Object]"
  end.

(** Results of [Number(v)]: rationals stand for the finite doubles. *)
Inductive num :=
| NaN
| Fin (q : Q)
| Inf (negative : bool).

Fixpoint span (p : jschar -> bool) (s : jstring) : jstring * jstring :=
  match s with
  | c :: s' =>
    if p c then let (a, b) := span p s' in (c :: a, b) else ([], s)
  | [] => ([], [])
  end.

Definition pow10 (n : Z) (e : Z) : Q :=
  if (0 <=? e)%Z then inject_Z (n * 10 ^ e)
  else Qmake n (Z.to_pos (10 ^ (- e))).

Definition radix_digit (radix : Z) (c : jschar) : option Z :=
  let v :=
    if is_digit c then (Z.of_N c - 48)%Z
    else if ((97 <=? c) && (c <=? 102))%N then (Z.of_N c - 87)%Z
    else if ((65 <=? c) && (c <=? 70))%N then (Z.of_N c - 55)%Z
    else radix in
  if (v <? radix)%Z then Some v else None.

Fixpoint parse_radix (radix : Z) (s : jstring) (acc : Z) : option Z :=
  match s with
  | [] => Some acc
  | c :: s' =>
    match radix_digit radix c with
    | Some v => parse_radix radix s' (radix * acc + v)%Z
    | None => None
    end
  end.

(** [StrUnsignedDecimalLiteral]: digits, an optional fraction, an optional
    exponent, and nothing after. *)
Definition parse_exponent (s : jstring) : option Z :=
  match s with
  | [] => Some 0%Z
  | c :: r =>
    if ((c =? 101) || (c =? 69))%N then
      let (neg, r') :=
        match r with
        | 43%N :: r' => (false, r')
        | 45%N :: r' => (true, r')
        | _ => (false, r)
        end in
      match span is_digit r' with
      | (d :: ds, []) =>
        Some (if neg then - parseDigits (d :: ds) else parseDigits (d :: ds))%Z
      | _ => None
      end
    else None
  end.

Definition parse_unsigned_decimal (s : jstring) : option Q :=
  let (ip, r1) := span is_digit s in
  let '(dotted, fp, r2) :=
    match r1 with
    | 46%N :: r => let (fp, r2) := span is_digit r in (true, fp, r2)
    | _ => (false, [], r1)
    end in
  match ip ++ fp with
  | [] => None
  | ds =>
    match parse_exponent r2 with
    | Some e => Some (pow10 (parseDigits ds) (e - Z.of_nat (length fp)))
    | None => None
    end
  end.

(** [StringToNumber] *)
Definition StringToNumber (s : jstring) : num :=
  let t := trim s in
  let prefixed (radix : Z) (r : jstring) :=
    match r with
    | [] => NaN
    | _ => match parse_radix radix r 0%Z with
           | Some z => Fin (inject_Z z)
           | None => NaN
           end
    end in
  let decimal (neg : bool) (r : jstring) :=
    if jstr_eqb r (u "Infinity") then Inf neg
    else match parse_unsigned_decimal r with
         | Some q => Fin (if neg then Qopp q else q)
         | None => NaN
         end in
  match t with
  | [] => Fin 0%Q
  | 48%N :: x :: r =>
    if ((x =? 120) || (x =? 88))%N then prefixed 16%Z r
    else if ((x =? 111) || (x =? 79))%N then prefixed 8%Z r
    else if ((x =? 98) || (x =? 66))%N then prefixed 2%Z r
    else decimal false t
  | 43%N :: r => decimal false r
  | 45%N :: r => decimal true r
  | _ => decimal false t
  end.

(** [Number(v)] *)
Definition ToNumber (v : value) : num :=
  match v with
  | VUndefined => NaN
  | VNull => Fin 0%Q
  | VBool true => Fin 1%Q
  | VBool false => Fin 0%Q
  | VNum z => Fin (inject_Z z)
  | VStr s => StringToNumber s
  | VFunction _ | VObject => NaN
  end.

Definition isNaN (n : num) : bool :=
  match n with NaN => true | _ => false end.

(** The relational operators on numbers; every comparison with [NaN] is
    false. *)
Definition num_lt (a b : num) : bool :=
  match a, b with
  | NaN, _ | _, NaN => false
  | Fin x, Fin y => negb (Qle_bool y x)
  | Fin _, Inf neg => negb neg
  | Inf neg, Fin _ => neg
  | Inf n1, Inf n2 => n1 && negb n2
  end.

Definition num_le (a b : num) : bool :=
  match a, b with
  | NaN, _ | _, NaN => false
  | Fin x, Fin y => Qle_bool x y
  | Fin _, Inf neg => negb neg
  | Inf neg, Fin _ => neg
  | Inf n1, Inf n2 => n1 || negb n2
  end.

Definition num_gt (a b : num) : bool := num_lt b a.
Definition num_ge (a b : num) : bool := num_le b a.

End Js.
Import Js.


(* ================================================================== *)
(** * Results and errors *)

Inductive error :=
| InvalidPathPart (pathPart : jstring)
| UnknownCapability (cap : jstring)
| InvalidKvScan (seg : jstring)
| FilterNotArray
| UnsupportedFilter (cond : jstring)
| UnsupportedPrecondition (cond : jstring)
| PreconditionFailed (cond : jstring)
| UnsupportedSegment (seg : jstring)
| TypeError
| SyntaxError (source : jstring)
| PatternNotModelled (source : jstring).

Inductive result (A : Type) :=
| Ok (a : A)
| Err (e : error).

Arguments Ok {A} a.
Arguments Err {A} e.

Definition bind {A B} (r : result A) (f : A -> result B) : result B :=
  match r with
  | Ok a => f a
  | Err e => Err e
  end.

Notation "'let*' x ':=' r 'in' k" := (bind r (fun x => k))
  (at level 10, x pattern, r at level 100, k at level 200).

(** [err.message] *)
Definition message (e : error) : jstring :=
  match e with
  | InvalidPathPart p => u "Invalid path part: " ++ p
  | UnknownCapability c => u "Unknown capability: " ++ c
  | InvalidKvScan seg => u "Invalid kv.scan segment: " ++ seg
  | FilterNotArray => u "filter can only be applied to arrays"
  | UnsupportedFilter c => u "Unsupported filter condition: " ++ c
  | UnsupportedPrecondition c => u "Unsupported precondition: " ++ c
  | PreconditionFailed c => u "Precondition failed: " ++ c
  | UnsupportedSegment seg => u "Unsupported segment: " ++ seg
  | TypeError => u "Cannot read properties of null"
  | SyntaxError src => u "Invalid regular expression: " ++ src
  | PatternNotModelled src => u "Invalid regular expression: " ++ src
  end.

(* ================================================================== *)
(** * The [Runtime] class ([index.js]) *)

Module Runtime.

Definition item := object.

(** [kvStore] is a [Map]: keys are unique and keep their insertion
    order.  Of the other capabilities, [httpPost] touches nothing and its
    result is dropped by the interpreter (the call itself is recorded as an
    [effect] below), [clockNow] only stamps the seeded items, and
    [cryptoHash] is not called by the runner. *)
Record t := Build { kvStore : list (jstring * item) }.

Definition empty : t := Build [].

(** [kvGet(key)]; [None] is [undefined]. *)
Definition kvGet (rt : t) (key : jstring) : option item :=
  assoc key (kvStore rt).

Fixpoint map_set (key : jstring) (v : item) (l : list (jstring * item))
  : list (jstring * item) :=
  match l with
  | [] => [(key, v)]
  | (k, w) :: l' =>
    if jstr_eqb k key then (k, v) :: l' else (k, w) :: map_set key v l'
  end.

Definition kvSet (rt : t) (key : jstring) (v : item) : t :=
  Build (map_set key v (kvStore rt)).

Definition kvScan (rt : t) (prefix : jstring) : list item :=
  map snd (filter (fun kv => startsWith (fst kv) prefix) (kvStore rt)).

End Runtime.

(* ================================================================== *)
(** * The runner ([runner.js]) *)

(** The parsed program that [parseFile] hands over, with the members that
    the runner reads ([models] and [transitions] are never looked at);
    [None] is a missing member.  Each table keeps the order of the
    declarations, as [Object.keys] and [Object.values] do. *)
Record Ast := {
  enums : option (list (jstring * list jstring));
  properties : option (list (jstring * jstring));
  routes : option (list (jstring * jstring))
}.

(** [spec/dictionary.json] is not part of the sources at hand; the runner
    only reads [dictionary.capabilities[cap]], so the own properties of that
    object are a parameter of the compilation. *)
Record Dictionary := { capabilities : object }.

(** The request context [{ runtime, pathVars, searchParams }].  [pathVars]
    is [m.groups || {}]: [None] stands for the empty ordinary object. *)
Record Ctx := {
  runtime : Runtime.t;
  pathVars : option (list (jstring * jstring));
  searchParams : list (jstring * jstring)
}.

(** [ctx.pathVars[name]] *)
Definition pathVar (ctx : Ctx) (name : jstring) : value :=
  match pathVars ctx with
  | Some g => get_own g name
  | None => get [] name
  end.

(** [URLSearchParams.getAll] and [get] *)
Definition getAll (sp : list (jstring * jstring)) (name : jstring)
  : list jstring :=
  map snd (filter (fun kv => jstr_eqb (fst kv) name) sp).

Definition get_param (sp : list (jstring * jstring)) (name : jstring)
  : option jstring :=
  hd_error (getAll sp name).

(** [values.includes(x)] on an array of strings *)
Definition arr_includes (values : list jstring) (x : jstring) : bool :=
  existsb (jstr_eqb x) values.

Record PathPart := { pp_method : jstring; pp_path : jstring;
                     pp_returnType : jstring }.

Definition parsePathPart (pathPart : jstring) : result PathPart :=
  match match_ pathPart re_path_part with
  | None => Err (InvalidPathPart pathPart)
  | Some m =>
    Ok {| pp_method := group m 1;
          pp_path := trim (group m 2);
          pp_returnType := trim (group m 3) |}
  end.

(** ** [buildPathRegex]

    [path.replace(/\{([^}]+)\}/g, ...)] turns every placeholder into a named
    group [(?<name>[^/]+)]; the text around the placeholders goes into the
    pattern source as it is. *)
Inductive piece :=
| PChar (c : jschar)
| PVar (name : jstring).

Fixpoint placeholders (n : nat) (s : jstring) : list piece :=
  match n with
  | O => []
  | S n' =>
    match s with
    | [] => []
    | c :: s' =>
      if (c =? 123)%N then
        match span (fun x => negb (x =? 125)%N) s' with
        | (x :: name, _ :: rest) => PVar (x :: name) :: placeholders n' rest
        | _ => PChar c :: placeholders n' s'
        end
      else PChar c :: placeholders n' s'
    end
  end.

(** The pattern source is read by [new RegExp].  The model covers sources
    made of ordinary characters, [.] and the groups above with identifier
    names; a duplicate group name is the [SyntaxError] of [new RegExp], and
    any other pattern syntax in the path is [PatternNotModelled]. *)
Definition syntax_char (c : jschar) : bool :=
  mem (u "^$\*+?()[]{}|") c.

Definition ident_start (c : jschar) : bool :=
  is_lower c || is_upper c || mem (u "_$") c.

Definition ident_part (c : jschar) : bool := ident_start c || is_digit c.

Definition is_ident (s : jstring) : bool :=
  match s with
  | [] => false
  | c :: r => ident_start c && forallb ident_part r
  end.

Fixpoint pattern_of (path : jstring) (seen : list jstring) (ps : list piece)
  : result re :=
  match ps with
  | [] => Ok Eol
  | PChar c :: ps' =>
    if syntax_char c then Err (PatternNotModelled path)
    else
      let* r := pattern_of path seen ps' in
      Ok (Seq (if (c =? 46)%N then Chr dot else Lit [c]) r)
  | PVar name :: ps' =>
    if negb (is_ident name) then Err (PatternNotModelled path)
    else if arr_includes seen name then Err (SyntaxError path)
    else
      let* r := pattern_of path (name :: seen) ps' in
      Ok (Seq (Grp (Name name) (Plus (Chr (none_of (u "/"))))) r)
  end.

Definition buildPathRegex (path : jstring) : result regexp :=
  let* r := pattern_of path [] (placeholders (length path) path) in
  Ok (RegExp true r).

Definition parsePipeline (pipelineStr : jstring) : list jstring :=
  map trim (split pipelineStr (u "|")).

(** ** [evaluateExpression] *)
Definition quoted (tok : jstring) : bool :=
  (startsWith tok (uq "`") && endsWith tok (uq "`"))
  || (startsWith tok (u "'") && endsWith tok (u "'")).

Definition evaluateExpression (expr : jstring) (ctx : Ctx) : jstring :=
  let tokens := map trim (split expr (u "+")) in
  fold_left
    (fun result tok =>
       if quoted tok then result ++ slice_1_m1 tok
       else if negb (is_undefined (pathVar ctx tok))
            then result ++ ToString (pathVar ctx tok)
            else result ++ tok)
    tokens [].

(** ** [splitArgs] *)
Record SplitState := {
  args : list jstring; current : jstring;
  inQuote : bool; quoteChar : jschar
}.

Definition splitArgs_step (st : SplitState) (ch : jschar) : SplitState :=
  if inQuote st then
    {| args := args st; current := current st ++ [ch];
       inQuote := negb (ch =? quoteChar st)%N; quoteChar := quoteChar st |}
  else if ((ch =? 34) || (ch =? 39))%N then
    {| args := args st; current := current st ++ [ch];
       inQuote := true; quoteChar := ch |}
  else if (ch =? 44)%N then
    {| args := args st ++ [current st]; current := [];
       inQuote := false; quoteChar := quoteChar st |}
  else
    {| args := args st; current := current st ++ [ch];
       inQuote := false; quoteChar := quoteChar st |}.

Definition splitArgs (str : jstring) : list jstring :=
  let st := fold_left splitArgs_step str
              {| args := []; current := []; inQuote := false;
                 quoteChar := 0%N |} in
  match current st with
  | [] => args st
  | cur => args st ++ [cur]
  end.

Definition parseArgs (argsStr : jstring) (ctx : Ctx) : list jstring :=
  map (fun part => evaluateExpression (trim part) ctx) (splitArgs argsStr).

(** ** [evaluateFilter] *)
Definition evaluateFilter (cond : jstring) (item : Runtime.item) (ctx : Ctx)
  : result bool :=
  if includes cond (u " in ") then
    let parts := split cond (u " in ") in
    let field := nth 0 parts [] in
    let rest := nth 1 parts [] in
    let value := get item (trim field) in
    let param := replace (trim rest) (u "?q.") [] in
    let values := getAll (searchParams ctx) param in
    Ok (match values with [] => true | _ => false end
        || arr_includes values (ToString value))
  else if includes cond (u "~") then
    let parts := split cond (u "~") in
    let field := nth 0 parts [] in
    let rest := nth 1 parts [] in
    let value := get item (trim field) in
    let param := replace (trim rest) (u "?q.") [] in
    let query :=
      match get_param (searchParams ctx) param with
      | Some q => q
      | None => []
      end in
    Ok (includes (toLowerCase (ToString value)) (toLowerCase query))
  else Err (UnsupportedFilter cond).

(** ** [evaluatePrecondition] *)
Definition evaluatePrecondition (cond : jstring) (ctx : Ctx) : result bool :=
  match match_ cond re_precondition with
  | None => Err (UnsupportedPrecondition cond)
  | Some m =>
    let field := group m 1 in
    let values := map trim (split (group m 2) (u ",")) in
    let key := u "j:" ++ ToString (pathVar ctx (u "U1")) in
    match Runtime.kvGet (runtime ctx) key with
    | None => Ok false
    | Some item => Ok (arr_includes values (ToString (get item field)))
    end
  end.

(** ** [executePipeline] *)
Inductive data :=
| DUndefined
| DItem (i : Runtime.item)
| DArray (l : list Runtime.item).

(** An outbound call made through [runtime.httpPost(...args)]. *)
Inductive effect :=
| HttpPost (args : list jstring).

(** [data.filter(item => evaluateFilter(cond, item, ctx))] *)
Fixpoint filter_items (cond : jstring) (l : list Runtime.item) (ctx : Ctx)
  : result (list Runtime.item) :=
  match l with
  | [] => Ok []
  | item :: l' =>
    let* keep := evaluateFilter cond item ctx in
    let* rest := filter_items cond l' ctx in
    Ok (if keep then item :: rest else rest)
  end.

(** One turn of the loop over the segments. *)
Definition step (ctx : Ctx) (st : data * list effect) (seg : jstring)
  : result (data * list effect) :=
  let (data, fx) := st in
  if startsWith seg (u "kv.scan") then
    match match_ seg re_kv_scan with
    | None => Err (InvalidKvScan seg)
    | Some m => Ok (DArray (Runtime.kvScan (runtime ctx) (group m 1)), fx)
    end
  else if startsWith seg (u "kv.get") then
    match match_ seg re_kv_get with
    | None => Err TypeError
    | Some m =>
      let key := evaluateExpression (group m 1) ctx in
      Ok (match Runtime.kvGet (runtime ctx) key with
          | Some i => DItem i
          | None => DUndefined
          end, fx)
    end
  else if startsWith seg (u "filter") then
    match match_ seg re_filter with
    | None => Err TypeError
    | Some m =>
      match data with
      | DArray l =>
        let* l' := filter_items (group m 1) l ctx in Ok (DArray l', fx)
      | _ => Err FilterNotArray
      end
    end
  else if startsWith seg (u "page") then
    match match_ seg re_page with
    | None => Err TypeError
    | Some m =>
      let n := parseDigits (group m 1) in
      Ok (match data with
          | DArray l => DArray (firstn (Z.to_nat n) l)
          | _ => data
          end, fx)
    end
  else if startsWith seg (u "req") then
    match match_ seg re_req with
    | None => Err TypeError
    | Some m =>
      let cond := group m 1 in
      let* ok := evaluatePrecondition cond ctx in
      if ok then Ok (data, fx) else Err (PreconditionFailed cond)
    end
  else if startsWith seg (u "http.post") then
    match match_ seg re_http_post with
    | None => Err TypeError
    | Some m => Ok (data, fx ++ [HttpPost (parseArgs (group m 1) ctx)])
    end
  else if startsWith seg (u "!") then Ok (data, fx)
  else Err (UnsupportedSegment seg).

Fixpoint run_segments (segments : list jstring) (ctx : Ctx)
         (st : data * list effect) : result (data * list effect) :=
  match segments with
  | [] => Ok st
  | seg :: rest => let* st' := step ctx st seg in run_segments rest ctx st'
  end.

Definition executePipeline (segments : list jstring) (ctx : Ctx)
  : result (data * list effect) :=
  run_segments segments ctx (DUndefined, []).

(** The outbound calls that a run has made when it stops: a stage that
    fails makes none, the stages before it have made theirs, and they are
    not taken back when the run is abandoned. *)
Fixpoint calls_made (segments : list jstring) (ctx : Ctx)
         (st : data * list effect) : list effect :=
  match segments with
  | [] => snd st
  | seg :: rest =>
    match step ctx st seg with
    | Ok st' => calls_made rest ctx st'
    | Err _ => snd st
    end
  end.

(** ** [checkProperties] *)

(** The prefix inference, written twice in the source (for the numeric and
    for the [mono] properties) with the same text. *)
Definition scanPrefix (ast : Ast) : result jstring :=
  match routes ast with
  | None => Ok (u "j:")
  | Some [] => Err TypeError
  | Some ((_, firstRoute) :: _) =>
    let parts := map trim (split firstRoute (u "::")) in
    match nth_error parts 1 with
    | Some p1 =>
      if startsWith p1 (u "kv.scan") then
        match match_ p1 re_kv_scan with
        | Some m => Ok (group m 1)
        | None => Ok (u "j:")
        end
      else Ok (u "j:")
    | None => Ok (u "j:")
    end
  end.

Definition normalise (op : jstring) : jstring :=
  if jstr_eqb op (u "≥") then u ">="
  else if jstr_eqb op (u "≤") then u "<="
  else op.

(** The [switch (op)] of the numeric check: [true] when the item passes. *)
Definition cmp_holds (op : jstring) (value threshold : num) : bool :=
  if jstr_eqb op (u ">") then num_gt value threshold
  else if jstr_eqb op (u ">=") then num_ge value threshold
  else if jstr_eqb op (u "<") then num_lt value threshold
  else if jstr_eqb op (u "<=") then num_le value threshold
  else true.

(** The loops over the scanned items; [false] is [return false]. *)
Fixpoint cmp_items (field op : jstring) (threshold : num)
         (items : list Runtime.item) : bool :=
  match items with
  | [] => true
  | item :: rest =>
    if is_undefined (get item field) then cmp_items field op threshold rest
    else
      let value := ToNumber (get item field) in
      if isNaN value then false
      else if cmp_holds op value threshold
           then cmp_items field op threshold rest
           else false
  end.

Fixpoint mono_items (field : jstring) (allowed : list jstring)
         (items : list Runtime.item) : bool :=
  match items with
  | [] => true
  | item :: rest =>
    let val := get item field in
    if is_undefined val then mono_items field allowed rest
    else if arr_includes allowed (ToString val)
         then mono_items field allowed rest
         else false
  end.

Definition check_cmp (ast : Ast) (rt : Runtime.t) (prop : jstring)
  : result bool :=
  match match_ prop re_cmp with
  | None => Ok true
  | Some m =>
    let field := u "U" ++ group m 1 in
    let op := normalise (group m 2) in
    let threshold := Fin (inject_Z (parseDigits (group m 3))) in
    let* prefix := scanPrefix ast in
    Ok (cmp_items field op threshold (Runtime.kvScan rt prefix))
  end.

Definition check_mono (ast : Ast) (rt : Runtime.t) (prop : jstring)
  : result bool :=
  match match_ prop re_mono with
  | None => Ok true
  | Some m =>
    let field := group m 1 in
    let enumId := u "E" ++ group m 2 in
    let allowed :=
      match enums ast with
      | Some es => match assoc enumId es with Some l => l | None => [] end
      | None => []
      end in
    let* prefix := scanPrefix ast in
    Ok (mono_items field allowed (Runtime.kvScan rt prefix))
  end.

(** The body of the loop over the properties. *)
Definition check_property (ast : Ast) (rt : Runtime.t) (prop : jstring)
  : result bool :=
  let* ok := check_cmp ast rt prop in
  if ok then check_mono ast rt prop else Ok false.

Fixpoint check_all (ast : Ast) (rt : Runtime.t)
         (props : list (jstring * jstring)) : result bool :=
  match props with
  | [] => Ok true
  | (_, prop) :: rest =>
    let* ok := check_property ast rt prop in
    if ok then check_all ast rt rest else Ok false
  end.

Definition checkProperties (ast : Ast) (rt : Runtime.t) : result bool :=
  match properties ast with
  | None => Ok true
  | Some props => check_all ast rt props
  end.

(** ** Compiled routes *)
Record Budget := { percentile : Z; threshold : Z }.

Record Route := {
  method : jstring;
  path : jstring;
  regex : regexp;
  segments : list jstring;
  budgets : list Budget;
  latencies : list Z
}.

(** [dictionary.capabilities[cap]], read as a condition. *)
Definition known_capability (dict : Dictionary) (cap : jstring) : bool :=
  truthy (get (capabilities dict) cap).

Definition builtin (cap : jstring) : bool :=
  arr_includes [u "filter"; u "page"; u "req"] cap.

(** The loop over [rawSegments]; the accumulators are [segments] and
    [budgets]. *)
Fixpoint compile_segments (dict : Dictionary) (raw : list jstring)
         (segs : list jstring) (buds : list Budget)
  : result (list jstring * list Budget) :=
  match raw with
  | [] => Ok (segs, buds)
  | seg :: rest =>
    if startsWith seg (u "!") then
      match match_ seg re_budget with
      | Some m =>
        let percentile := parseDigits (group m 1) in
        let threshold := parseDigits (group m 2) in
        let threshold :=
          if jstr_eqb (group m 3) (u "s") then (threshold * 1000)%Z
          else threshold in
        compile_segments dict rest segs
          (buds ++ [{| percentile := percentile; threshold := threshold |}])
      | None => compile_segments dict rest segs buds
      end
    else
      match match_ seg re_cap with
      | Some m =>
        let cap := group m 1 in
        if negb (builtin cap) && negb (known_capability dict cap)
        then Err (UnknownCapability cap)
        else compile_segments dict rest (segs ++ [seg]) buds
      | None => compile_segments dict rest (segs ++ [seg]) buds
      end
  end.

(** The body of the loop over [Object.values(ast.routes)]. *)
Definition compile_route (dict : Dictionary) (spec : jstring) : result Route :=
  let parts := map trim (split spec (u "::")) in
  let pathPart := nth 0 parts [] in
  let pipeline := nth 1 parts [] in
  let* pp := parsePathPart pathPart in
  let rawSegments := parsePipeline pipeline in
  let* sb := compile_segments dict rawSegments [] [] in
  let* rx := buildPathRegex (pp_path pp) in
  Ok {| method := pp_method pp; path := pp_path pp; regex := rx;
        segments := fst sb; budgets := snd sb; latencies := [] |}.

Fixpoint compile_specs (dict : Dictionary) (specs : list (jstring * jstring))
  : result (list Route) :=
  match specs with
  | [] => Ok []
  | (_, spec) :: rest =>
    let* r := compile_route dict spec in
    let* rs := compile_specs dict rest in
    Ok (r :: rs)
  end.

Definition compile (dict : Dictionary) (ast : Ast) : result (list Route) :=
  match routes ast with
  | None => Err TypeError
  | Some specs => compile_specs dict specs
  end.

(** ** The budget check

    [sorted = route.latencies.slice().sort((a, b) => a - b)] *)
Fixpoint insert_sorted (x : Z) (l : list Z) : list Z :=
  match l with
  | [] => [x]
  | y :: l' => if (x <=? y)%Z then x :: l else y :: insert_sorted x l'
  end.

Definition sort_asc (l : list Z) : list Z := fold_right insert_sorted [] l.

(** Doubles, for [(budget.percentile / 100) * sorted.length]. *)
Module B64.
Import Floats.SpecFloat.

Definition of_Z (z : Z) : spec_float := binary_normalize 53 1024 z 0 false.
Definition div := SFdiv 53 1024.
Definition mul := SFmul 53 1024.

(** [Math.ceil]; [None] when the argument is [NaN] or infinite. *)
Definition ceil (x : spec_float) : option Z :=
  match x with
  | S754_zero _ => Some 0%Z
  | S754_finite s m e =>
    let n := if s then Zneg m else Zpos m in
    Some (if (0 <=? e)%Z then n * 2 ^ e else - ((- n) / 2 ^ (- e)))%Z
  | S754_infinity _ | S754_nan => None
  end.

End B64.

(** [Math.ceil((budget.percentile / 100) * sorted.length) - 1]; the
    subtraction is exact on every value that can index the history. *)
Definition rank_index (percentile : Z) (len : nat) : option Z :=
  match B64.ceil (B64.mul (B64.div (B64.of_Z percentile) (B64.of_Z 100))
                          (B64.of_Z (Z.of_nat len))) with
  | Some c => Some (c - 1)%Z
  | None => None
  end.

(** [sorted[Math.max(0, idx)]]; [None] is [undefined]. *)
Definition pVal (lat : list Z) (b : Budget) : option Z :=
  let sorted := sort_asc lat in
  match rank_index (percentile b) (length sorted) with
  | Some idx => nth_error sorted (Z.to_nat (Z.max 0 idx))
  | None => None
  end.

(** [pVal > budget.threshold] *)
Definition violates (lat : list Z) (b : Budget) : bool :=
  match pVal lat b with
  | Some v => (threshold b <? v)%Z
  | None => false
  end.

(** ** [suggestOptimizations] *)
Record Suggestion := { route : jstring; suggestion : jstring }.

Definition add_page_text : jstring :=
  u "Add page(50) to limit results and improve latency.".

Definition reduce_page_text (size : Z) : jstring :=
  u "Reduce page size from " ++ Z_toString size
    ++ u " to 50 to meet latency budget.".

(** The body of the loop: what one route adds to [suggestions]. *)
Definition suggest_route (r : Route) : list Suggestion :=
  match budgets r with
  | [] => []
  | _ :: _ =>
    match find (fun s => startsWith s (u "page(")) (segments r) with
    | None => [{| route := path r; suggestion := add_page_text |}]
    | Some pageSeg =>
      match match_ pageSeg re_page with
      | Some m =>
        let size := parseDigits (group m 1) in
        if (50 <? size)%Z
        then [{| route := path r; suggestion := reduce_page_text size |}]
        else []
      | None => []
      end
    end
  end.

Fixpoint suggest_loop (compiled : list Route) (suggestions : list Suggestion)
  : list Suggestion :=
  match compiled with
  | [] => suggestions
  | r :: rest => suggest_loop rest (suggestions ++ suggest_route r)
  end.

Definition suggestOptimizations (ast : Ast) (compiled : list Route)
  : list Suggestion :=
  suggest_loop compiled [].

(** ** The request handler of [run] *)
Record Request := {
  req_method : jstring;
  pathname : jstring;
  query : list (jstring * jstring)
}.

Inductive response :=
| Success (result : data)
| Failure (e : error)
| NotFound.

Definition statusCode (r : response) : Z :=
  match r with
  | Success _ => 200
  | Failure _ => 400
  | NotFound => 404
  end%Z.

(** What the handler writes to the console. *)
Inductive log :=
| BudgetViolation (method path : jstring) (percentile pVal threshold : Z)
| PropertyCheckFailed
| SuggestionInfo (s : Suggestion).

Definition budget_logs (method : jstring) (r : Route) : list log :=
  flat_map
    (fun b =>
       match pVal (latencies r) b with
       | Some v =>
         if (threshold b <? v)%Z
         then [BudgetViolation method (path r) (percentile b) v (threshold b)]
         else []
       | None => []
       end)
    (budgets r).

Record Outcome := {
  out_response : response;
  out_compiled : list Route;
  out_logs : list log;
  out_effects : list effect
}.

(** The [try] block for the route that matched; [duration] is
    [Date.now() - startTime], an input from the clock. *)
Definition serve_route (ast : Ast) (rt : Runtime.t) (done : list Route)
           (r : Route) (rest : list Route) (rq : Request) (m : caps)
           (duration : Z) : Outcome :=
  let ctx := {| runtime := rt; pathVars := groups m;
                searchParams := query rq |} in
  match executePipeline (segments r) ctx with
  | Err e =>
    {| out_response := Failure e; out_compiled := done ++ r :: rest;
       out_logs := [];
       out_effects := calls_made (segments r) ctx (DUndefined, []) |}
  | Ok (result, fx) =>
    let r' := {| method := method r; path := path r; regex := regex r;
                 segments := segments r; budgets := budgets r;
                 latencies := latencies r ++ [duration] |} in
    let compiled' := done ++ r' :: rest in
    let blogs := budget_logs (req_method rq) r' in
    match checkProperties ast rt with
    | Err e =>
      {| out_response := Failure e; out_compiled := compiled';
         out_logs := blogs; out_effects := fx |}
    | Ok propsOk =>
      {| out_response := Success result; out_compiled := compiled';
         out_logs :=
           blogs ++ (if propsOk then [] else [PropertyCheckFailed])
                 ++ map SuggestionInfo (suggestOptimizations ast compiled');
         out_effects := fx |}
    end
  end.

(** The loop over [compiled]; [done] are the routes already passed over. *)
Fixpoint serve (ast : Ast) (rt : Runtime.t) (done todo : list Route)
         (rq : Request) (duration : Z) : Outcome :=
  match todo with
  | [] =>
    {| out_response := NotFound; out_compiled := done;
       out_logs := []; out_effects := [] |}
  | r :: rest =>
    if negb (jstr_eqb (method r) (req_method rq))
    then serve ast rt (done ++ [r]) rest rq duration
    else
      match match_ (pathname rq) (regex r) with
      | Some m => serve_route ast rt done r rest rq m duration
      | None => serve ast rt (done ++ [r]) rest rq duration
      end
  end.

Record Server := {
  sv_ast : Ast;
  sv_runtime : Runtime.t;
  sv_compiled : list Route
}.

Definition handle (sv : Server) (rq : Request) (duration : Z) : Outcome :=
  serve (sv_ast sv) (sv_runtime sv) [] (sv_compiled sv) rq duration.

Definition after (sv : Server) (o : Outcome) : Server :=
  {| sv_ast := sv_ast sv; sv_runtime := sv_runtime sv;
     sv_compiled := out_compiled o |}.

(** [run] up to [server.listen]: the store is seeded (the random draws and
    the clock readings are inputs), the routes are compiled, and only then
    is there a server to handle requests. *)
Definition job (i : nat) (rnd : Z) (now : jstring) : Runtime.item :=
  [ (u "U1", VStr (u "job" ++ Z_toString (Z.of_nat i)));
    (u "U2", VStr (u "Job " ++ Z_toString (Z.of_nat i)));
    (u "U3", VNum rnd);
    (u "U4", VNum (Z.of_nat (i mod 6)));
    (u "U5", VStr (u "Vessel " ++ Z_toString (Z.of_nat (i mod 5 + 1))));
    (u "U6", VStr now) ].

Definition seed (rnd : nat -> Z) (now : nat -> jstring) : Runtime.t :=
  fold_left
    (fun rt i =>
       Runtime.kvSet rt (u "j:job" ++ Z_toString (Z.of_nat i))
                     (job i (rnd i) (now i)))
    (seq 1 100) Runtime.empty.

Definition run (dict : Dictionary) (ast : Ast)
           (rnd : nat -> Z) (now : nat -> jstring) : result Server :=
  let rt := seed rnd now in
  let* compiled := compile dict ast in
  Ok {| sv_ast := ast; sv_runtime := rt; sv_compiled := compiled |}.


(* ================================================================== *)
(** * Joining the elements of an array *)

(** [parts.join(sep)] *)
Fixpoint join (sep : jstring) (parts : list jstring) : jstring :=
  match parts with
  | [] => []
  | a :: rest =>
    match rest with
    | [] => a
    | _ :: _ => a ++ sep ++ join sep rest
    end
  end.

(* ================================================================== *)
(** * The runner before budgets ([packages/runtime-node/runner.js])

    The earlier [run] shares [parsePathPart], [buildPathRegex],
    [parsePipeline] and [executePipeline] with the current one.  It keeps
    every stage of a pipeline as a segment, looks at no capability, and its
    handler only runs the pipeline. *)

Module Legacy.

Record Route := {
  method : jstring;
  path : jstring;
  regex : regexp;
  segments : list jstring
}.

(** The body of the loop over [Object.values(ast.routes)]. *)
Definition compile_route (spec : jstring) : result Route :=
  let parts := map trim (split spec (u "::")) in
  let pathPart := nth 0 parts [] in
  let pipeline := nth 1 parts [] in
  let* pp := parsePathPart pathPart in
  let* rx := buildPathRegex (pp_path pp) in
  Ok {| method := pp_method pp; path := pp_path pp; regex := rx;
        segments := parsePipeline pipeline |}.

Fixpoint compile_specs (specs : list (jstring * jstring))
  : result (list Route) :=
  match specs with
  | [] => Ok []
  | (_, spec) :: rest =>
    let* r := compile_route spec in
    let* rs := compile_specs rest in
    Ok (r :: rs)
  end.

Definition compile (ast : Ast) : result (list Route) :=
  match routes ast with
  | None => Err TypeError
  | Some specs => compile_specs specs
  end.

(** The request handler: the loop over [compiled]. *)
Fixpoint serve (rt : Runtime.t) (todo : list Route) (rq : Request)
  : response * list effect :=
  match todo with
  | [] => (NotFound, [])
  | r :: rest =>
    if negb (jstr_eqb (method r) (req_method rq)) then serve rt rest rq
    else
      match match_ (pathname rq) (regex r) with
      | None => serve rt rest rq
      | Some m =>
        let ctx := {| runtime := rt; pathVars := groups m;
                      searchParams := query rq |} in
        match executePipeline (segments r) ctx with
        | Err e => (Failure e, calls_made (segments r) ctx (DUndefined, []))
        | Ok (result, fx) => (Success result, fx)
        end
      end
  end.

Record Server := {
  sv_runtime : Runtime.t;
  sv_compiled : list Route
}.

Definition run (ast : Ast) (rnd : nat -> Z) (now : nat -> jstring)
  : result Server :=
  let rt := seed rnd now in
  let* compiled := compile ast in
  Ok {| sv_runtime := rt; sv_compiled := compiled |}.

Definition handle (sv : Server) (rq : Request) : response * list effect :=
  serve (sv_runtime sv) (sv_compiled sv) rq.

End Legacy.

(* ================================================================== *)
(** * The command line ([packages/cli/nova.js])

    The subcommands [check] and [optimize], from the parsed program on.
    What a subcommand writes and the exit status of the process are its
    result. *)

Module Cli.

Record Exit := {
  status : Z;
  stdout : list jstring;
  stderr : list jstring
}.

(** [nova check]: the store is seeded as [run] seeds it, then the
    properties are checked once. *)
Definition check (ast : Ast) (rnd : nat -> Z) (now : nat -> jstring)
  : Exit :=
  match checkProperties ast (seed rnd now) with
  | Ok true =>
    {| status := 0; stdout := [u "All property checks passed"];
       stderr := [] |}
  | Ok false =>
    {| status := 1; stdout := []; stderr := [u "Property check failed"] |}
  | Err e =>
    {| status := 1; stdout := []; stderr := [message e] |}
  end.

(** The loop over [rawSegments] of [nova optimize]: budgets are taken
    out, every other stage is kept, no capability is looked up. *)
Fixpoint local_segments (raw : list jstring) (segs : list jstring)
         (buds : list Budget) : list jstring * list Budget :=
  match raw with
  | [] => (segs, buds)
  | seg :: rest =>
    if startsWith seg (u "!") then
      match match_ seg re_budget with
      | Some m =>
        let percentile := parseDigits (group m 1) in
        let threshold := parseDigits (group m 2) in
        let threshold :=
          if jstr_eqb (group m 3) (u "s") then (threshold * 1000)%Z
          else threshold in
        local_segments rest segs
          (buds ++ [{| percentile := percentile; threshold := threshold |}])
      | None => local_segments rest segs buds
      end
    else local_segments rest (segs ++ [seg]) buds
  end.

(** The objects that [nova optimize] builds have no [regex] member.
    [suggestOptimizations] never reads that member; the record of the
    runner is used for them, with [absent] in its place. *)
Definition local_route (absent : regexp) (spec : jstring) : result Route :=
  let parts := map trim (split spec (u "::")) in
  let pathPart := nth 0 parts [] in
  let pipeline := nth 1 parts [] in
  let* pp := parsePathPart pathPart in
  let rawSegments := parsePipeline pipeline in
  let sb := local_segments rawSegments [] [] in
  Ok {| method := pp_method pp; path := pp_path pp; regex := absent;
        segments := fst sb; budgets := snd sb; latencies := [] |}.

Fixpoint local_specs (absent : regexp) (specs : list (jstring * jstring))
  : result (list Route) :=
  match specs with
  | [] => Ok []
  | (_, spec) :: rest =>
    let* r := local_route absent spec in
    let* rs := local_specs absent rest in
    Ok (r :: rs)
  end.

(** [`${s.route}: ${s.suggestion}`] *)
Definition suggestion_line (s : Suggestion) : jstring :=
  route s ++ u ": " ++ suggestion s.

Definition optimize (absent : regexp) (ast : Ast) : Exit :=
  match routes ast with
  | None => {| status := 1; stdout := []; stderr := [message TypeError] |}
  | Some specs =>
    match local_specs absent specs with
    | Err e => {| status := 1; stdout := []; stderr := [message e] |}
    | Ok compiled =>
      match suggestOptimizations ast compiled with
      | [] =>
        {| status := 0; stdout := [u "No optimisations suggested."];
           stderr := [] |}
      | suggestions =>
        {| status := 0; stdout := map suggestion_line suggestions;
           stderr := [] |}
      end
    end
  end.

End Cli.

(* ================================================================== *)
(** * Assignment to a member of an ordinary object

    [o[k] = v] on an object that starts as [{}].  The own members are kept
    in the order in which [Object.keys] lists them: array indices first, in
    ascending order, then the other names in the order of their first
    assignment.  Assigning a string to [__proto__] changes nothing. *)

Module JsObject.

(** The value of [k] when it is an array index: a canonical decimal
    numeral below [2^32 - 1]. *)
Definition array_index (k : jstring) : option Z :=
  match k with
  | [] => None
  | c :: r =>
    if forallb is_digit k
       && (negb (c =? 48)%N || match r with [] => true | _ => false end)
    then
      if (parseDigits k <? 4294967295)%Z then Some (parseDigits k) else None
    else None
  end.

Fixpoint replace_member {A} (k : jstring) (v : A) (o : list (jstring * A))
  : option (list (jstring * A)) :=
  match o with
  | [] => None
  | (k', v') :: o' =>
    if jstr_eqb k' k then Some ((k, v) :: o')
    else
      match replace_member k v o' with
      | Some o'' => Some ((k', v') :: o'')
      | None => None
      end
  end.

(** A new array index goes before the first member that is not a smaller
    array index. *)
Fixpoint insert_index {A} (i : Z) (k : jstring) (v : A)
         (o : list (jstring * A)) : list (jstring * A) :=
  match o with
  | [] => [(k, v)]
  | (k', v') :: o' =>
    match array_index k' with
    | Some j =>
      if (j <? i)%Z then (k', v') :: insert_index i k v o'
      else (k, v) :: o
    | None => (k, v) :: o
    end
  end.

Definition set {A} (o : list (jstring * A)) (k : jstring) (v : A)
  : list (jstring * A) :=
  if jstr_eqb k (u "__proto__") then o
  else
    match replace_member k v o with
    | Some o' => o'
    | None =>
      match array_index k with
      | Some i => insert_index i k v o
      | None => o ++ [(k, v)]
      end
    end.

End JsObject.

(* ================================================================== *)
(** * The parser ([packages/compiler/index.js]) *)

Module Compiler.

(** [text.split(/\r?\n/)] *)
Definition cons_head (c : jschar) (l : list jstring) : list jstring :=
  match l with
  | x :: t => (c :: x) :: t
  | [] => [[c]]
  end.

Fixpoint split_lines (s : jstring) : list jstring :=
  match s with
  | [] => [[]]
  | c :: r =>
    if (c =? 10)%N then [] :: split_lines r
    else if (c =? 13)%N then
      match r with
      | c' :: r' =>
        if (c' =? 10)%N then [] :: split_lines r'
        else cons_head c (split_lines r)
      | [] => cons_head c (split_lines r)
      end
    else cons_head c (split_lines r)
  end.

(** [/^M\d+\s*\{/] *)
Definition re_model_test : regexp :=
  RegExp true
    (Seq (Lit (u "M"))
    (Seq (Plus (Chr digit))
    (Seq (Star (Chr space))
         (Lit (u "{"))))).

(** [/^M(\d+)\s*\{(.+)\}$/] *)
Definition re_model : regexp :=
  RegExp true
    (Seq (Lit (u "M"))
    (Seq (Grp (Idx 1) (Plus (Chr digit)))
    (Seq (Star (Chr space))
    (Seq (Lit (u "{"))
    (Seq (Grp (Idx 2) (Plus (Chr dot)))
    (Seq (Lit (u "}"))
         Eol)))))).

(** [/^E\d+\s*=/] *)
Definition re_enum_test : regexp :=
  RegExp true
    (Seq (Lit (u "E"))
    (Seq (Plus (Chr digit))
    (Seq (Star (Chr space))
         (Lit (u "="))))).

(** [/^E(\d+)\s*=\s*\[(.+)\]$/] *)
Definition re_enum : regexp :=
  RegExp true
    (Seq (Lit (u "E"))
    (Seq (Grp (Idx 1) (Plus (Chr digit)))
    (Seq (Star (Chr space))
    (Seq (Lit (u "="))
    (Seq (Star (Chr space))
    (Seq (Lit (u "["))
    (Seq (Grp (Idx 2) (Plus (Chr dot)))
    (Seq (Lit (u "]"))
         Eol)))))))).

(** [/^P\d+:/], [/^R\d+:/] and [/^T\d+:/] *)
Definition re_decl_test (letter : jstring) : regexp :=
  RegExp true
    (Seq (Lit letter)
    (Seq (Plus (Chr digit))
         (Lit (u ":")))).

(** [/^(P\d+):\s*(.+)$/], [/^(R\d+):\s*(.+)$/] and [/^(T\d+):\s*(.+)$/] *)
Definition re_decl (letter : jstring) : regexp :=
  RegExp true
    (Seq (Grp (Idx 1) (Seq (Lit letter) (Plus (Chr digit))))
    (Seq (Lit (u ":"))
    (Seq (Star (Chr space))
    (Seq (Grp (Idx 2) (Plus (Chr dot)))
         Eol)))).

(** [rx.test(line)] *)
Definition test (rx : regexp) (line : jstring) : bool :=
  match match_ line rx with Some _ => true | None => false end.

Record Program := {
  p_models : list (jstring * list (jstring * jstring));
  p_enums : list (jstring * list jstring);
  p_properties : list (jstring * jstring);
  p_routes : list (jstring * jstring);
  p_transitions : list (jstring * jstring)
}.

Definition empty : Program :=
  {| p_models := []; p_enums := []; p_properties := []; p_routes := [];
     p_transitions := [] |}.

(** The callback of [fieldsStr.split(',').forEach]. *)
Definition add_field (fields : list (jstring * jstring)) (field : jstring)
  : list (jstring * jstring) :=
  let parts := split (trim field) (u ":") in
  let name := nth 0 parts [] in
  let type := nth 1 parts [] in
  JsObject.set fields (trim name) (trim type).

(** The body of the loop over the lines. *)
Definition parse_line (result : Program) (line : jstring) : Program :=
  if test re_model_test line then
    match match_ line re_model with
    | Some m =>
      let id := u "M" ++ group m 1 in
      let fields := fold_left add_field (split (group m 2) (u ",")) [] in
      {| p_models := JsObject.set (p_models result) id fields;
         p_enums := p_enums result; p_properties := p_properties result;
         p_routes := p_routes result;
         p_transitions := p_transitions result |}
    | None => result
    end
  else if test re_enum_test line then
    match match_ line re_enum with
    | Some m =>
      let id := u "E" ++ group m 1 in
      let values := map trim (split (group m 2) (u ",")) in
      {| p_models := p_models result;
         p_enums := JsObject.set (p_enums result) id values;
         p_properties := p_properties result; p_routes := p_routes result;
         p_transitions := p_transitions result |}
    | None => result
    end
  else if test (re_decl_test (u "P")) line then
    match match_ line (re_decl (u "P")) with
    | Some m =>
      {| p_models := p_models result; p_enums := p_enums result;
         p_properties :=
           JsObject.set (p_properties result) (group m 1) (group m 2);
         p_routes := p_routes result;
         p_transitions := p_transitions result |}
    | None => result
    end
  else if test (re_decl_test (u "R")) line then
    match match_ line (re_decl (u "R")) with
    | Some m =>
      {| p_models := p_models result; p_enums := p_enums result;
         p_properties := p_properties result;
         p_routes := JsObject.set (p_routes result) (group m 1) (group m 2);
         p_transitions := p_transitions result |}
    | None => result
    end
  else if test (re_decl_test (u "T")) line then
    match match_ line (re_decl (u "T")) with
    | Some m =>
      {| p_models := p_models result; p_enums := p_enums result;
         p_properties := p_properties result; p_routes := p_routes result;
         p_transitions :=
           JsObject.set (p_transitions result) (group m 1) (group m 2) |}
    | None => result
    end
  else result.

(** [l && !l.startsWith('#')] *)
Definition kept (l : jstring) : bool :=
  match l with [] => false | _ :: _ => negb (startsWith l (u "#")) end.

Definition parseNova (text : jstring) : Program :=
  let lines := filter kept (map trim (split_lines text)) in
  fold_left parse_line lines empty.

(** The program as the runner reads it: every table is there, possibly
    empty. *)
Definition ast_of (p : Program) : Ast :=
  {| enums := Some (p_enums p); properties := Some (p_properties p);
     routes := Some (p_routes p) |}.

End Compiler.

(* ================================================================== *)
(** * The UI generator ([packages/ui-generator/index.js]) *)

Module UiGenerator.

Record Screen := { name : jstring; props : list (jstring * jstring) }.

(** [current] is the screen pushed last: an assignment to [current.props]
    is an assignment to the last element of [screens]. *)
Fixpoint update_current (f : Screen -> Screen) (screens : list Screen)
  : list Screen :=
  match screens with
  | [] => []
  | s :: rest =>
    match rest with
    | [] => [f s]
    | _ :: _ => s :: update_current f rest
    end
  end.

(** [line.indexOf(':')]: the text before the first colon and the text
    after it. *)
Definition at_colon (line : jstring) : option (jstring * jstring) :=
  find_sub (u ":") line.

(** The body of the loop over the lines. *)
Definition spec_line (screens : list Screen) (rawLine : jstring)
  : list Screen :=
  let line := trim rawLine in
  match line with
  | [] => screens
  | _ :: _ =>
    if startsWith line (u "Screen:") then
      screens ++ [{| name := trim (skipn 7 line); props := [] |}]
    else
      match screens with
      | [] => screens
      | _ :: _ =>
        match at_colon line with
        | Some (before, behind) =>
          update_current
            (fun s => {| name := name s;
                         props := JsObject.set (props s) (trim before)
                                               (trim behind) |})
            screens
        | None => screens
        end
      end
  end.

Definition parseUiSpec (text : jstring) : list Screen :=
  fold_left spec_line (Compiler.split_lines text) [].

(** [(props.k || '').split(',').map(f => f.trim()).filter(Boolean)] *)
Definition listed (props : list (jstring * jstring)) (k : jstring)
  : list jstring :=
  let value := match assoc k props with Some v => v | None => [] end in
  filter (fun f => match f with [] => false | _ :: _ => true end)
         (map trim (split value (u ","))).

(** The input element made for a filterable field.  The component text
    below holds [${filters}] inside a quoted string of its own, so what is
    made here does not reach the output. *)
Definition filter_input (f : jstring) : jstring :=
  let parts := split f (u "(") in
  let field := nth 0 parts [] in
  let label :=
    match nth_error parts 1 with
    | Some (c :: p1) => replace (c :: p1) (u ")") []
    | _ => field
    end in
  uq "<div className=`mr-4`><label className=`mr-2`>" ++ label
    ++ uq "</label><input type=`text` name=`" ++ field
    ++ uq "` onChange={onFilterChange} className=`border px-2 py-1` /></div>".

Definition generateReactComponent (name : jstring)
           (props : list (jstring * jstring)) : jstring :=
  let componentName := name in
  let fields := listed props (u "fields") in
  let filterable := listed props (u "filterable") in
  let actions := listed props (u "actions") in
  let headers :=
    join (10%N :: u "          ")
         (map (fun f => uq "<th className=`px-4 py-2 text-left`>" ++ f
                           ++ u "</th>") fields) in
  let cells :=
    join (10%N :: u "              ")
         (map (fun f => uq "<td className=`border px-4 py-2`>{item." ++ f
                           ++ u "}</td>") fields) in
  let filters := join (10%N :: u "          ") (map filter_input filterable) in
  let first_field :=
    match fields with f :: _ => f | [] => u "undefined" end in
  join [10%N]
    [ u "import React from 'react';";
      [];
      u "function " ++ componentName ++ u "({ data, onSelect }) {";
      u "  const [filters, setFilters] = React.useState({});";
      [];
      u "  const onFilterChange = (e) => {";
      u "    setFilters({ ...filters, [e.target.name]: e.target.value });";
      u "  };";
      [];
      u "  const filtered = data.filter(item => {";
      u "    return Object.keys(filters).every(f => {";
      u "      const v = filters[f];";
      u "      if (!v) return true;";
      u "      const val = String(item[f] || '').toLowerCase();";
      u "      return val.includes(v.toLowerCase());";
      u "    });";
      u "  });";
      [];
      u "  return (";
      uq "    <div className=`p-4`>";
      u "      "
        ++ match filterable with
           | _ :: _ => uq "<div className=`mb-4 flex`>${filters}</div>"
           | [] => u "null"
           end;
      uq "      <table className=`table-auto w-full border-collapse`>";
      u "        <thead>";
      u "          <tr>";
      u "            " ++ headers;
      u "          </tr>";
      u "        </thead>";
      u "        <tbody>";
      u "          {filtered.map(item => (";
      u "            <tr key={item." ++ first_field
        ++ uq "} className=`hover:bg-gray-100 cursor-pointer` onClick={() => onSelect(item)}>";
      u "              " ++ cells;
      u "            </tr>";
      u "          ))}";
      u "        </tbody>";
      u "      </table>";
      u "    </div>";
      u "  );";
      u "}";
      [];
      u "export default " ++ componentName ++ u ";";
      [] ].

(** The files that [main] writes: one component for each screen, under the
    name of the screen. *)
Definition generated_files (text : jstring) : list (jstring * jstring) :=
  map (fun s => (name s ++ u ".jsx", generateReactComponent (name s) (props s)))
      (parseUiSpec text).

End UiGenerator.

(* ================================================================== *)
(** * Notions used in the statements

    What follows adds nothing to the runner: these are the readings,
    sample programs and stores that the lemmas speak about. *)

(** What greedy repetition of one character class comes to. *)
Fixpoint star_cls (p : cls) (s : jstring) (c : caps) (k : kont)
  : option caps :=
  match s with
  | x :: s' =>
    if cls_mem p x then
      match star_cls p s' c k with
      | Some r => Some r
      | None => k s c
      end
    else k s c
  | [] => k s c
  end.

(** The nearest-rank index in exact arithmetic, as the specification words
    it: [ceil(p/100 × n) − 1], clamped at [0]. *)
Definition nearest_rank_exact (p : Z) (n : nat) : Z :=
  Z.max 0 (- ((- (p * Z.of_nat n)) / 100) - 1).

(** Handling a run of requests, one after the other. *)
Fixpoint handle_all (sv : Server) (rqs : list (Request * Z))
  : Server * list Outcome :=
  match rqs with
  | [] => (sv, [])
  | (rq, d) :: rest =>
    let o := handle sv rq d in
    let (sv', os) := handle_all (after sv o) rest in
    (sv', o :: os)
  end.

Definition budget_ast (stage : jstring) : Ast :=
  {| enums := None; properties := None;
     routes := Some [(u "R1", uq "GET /j -> [M1] :: kv.scan(`j:`) | "
                                ++ stage)] |}.

Definition kv_dict : Dictionary :=
  {| capabilities := [(u "kv.scan", VBool true); (u "kv.get", VBool true);
                      (u "http.post", VBool true)] |}.

Definition get_j : Request :=
  {| req_method := u "GET"; pathname := u "/j"; query := [] |}.

(** A server for one budgeted route over an empty store. *)
Definition budget_server (stage : jstring) : Server :=
  match compile kv_dict (budget_ast stage) with
  | Ok compiled =>
    {| sv_ast := budget_ast stage; sv_runtime := Runtime.empty;
       sv_compiled := compiled |}
  | Err _ =>
    {| sv_ast := budget_ast stage; sv_runtime := Runtime.empty;
       sv_compiled := [] |}
  end.

Definition durations (l : list Z) : list (Request * Z) :=
  map (fun d => (get_j, d)) l.

Definition last_logs (sv : Server) (rqs : list (Request * Z)) : list log :=
  match rev (snd (handle_all sv rqs)) with
  | o :: _ => out_logs o
  | [] => []
  end.

Definition one_to (n : nat) : list Z := map Z.of_nat (seq 1 n).

(** The parts of a route that compilation fixes. *)
Definition static (r : Route)
  : jstring * jstring * regexp * list jstring * list Budget :=
  (method r, path r, regex r, segments r, budgets r).

Definition budgeted_route (segs : list jstring) : Route :=
  {| method := u "GET"; path := u "/j";
     regex := RegExp true (Seq (Lit (u "/j")) Eol);
     segments := segs;
     budgets := [{| percentile := 99; threshold := 200 |}];
     latencies := [] |}.

(** The server states that [run] and the handler produce. *)
Inductive reachable (dict : Dictionary) (ast : Ast) : Server -> Prop :=
| reach_run rnd now sv :
    run dict ast rnd now = Ok sv -> reachable dict ast sv
| reach_handle sv rq d :
    reachable dict ast sv -> reachable dict ast (after sv (handle sv rq d)).

(** What the handler answers, without the bookkeeping. *)
Fixpoint answer (ast : Ast) (rt : Runtime.t) (todo : list Route)
         (rq : Request) : response * list effect :=
  match todo with
  | [] => (NotFound, [])
  | r :: rest =>
    if negb (jstr_eqb (method r) (req_method rq)) then answer ast rt rest rq
    else
      match match_ (pathname rq) (regex r) with
      | None => answer ast rt rest rq
      | Some m =>
        let ctx := {| runtime := rt; pathVars := groups m;
                      searchParams := query rq |} in
        match executePipeline (segments r) ctx with
        | Err e => (Failure e, calls_made (segments r) ctx (DUndefined, []))
        | Ok (result, fx) =>
          match checkProperties ast rt with
          | Err e => (Failure e, fx)
          | Ok _ => (Success result, fx)
          end
        end
      end
  end.

Definition demo_ast : Ast :=
  {| enums := Some [(u "E1", [u "0"; u "1"; u "2"; u "3"; u "4"; u "5"])];
     properties := Some [(u "P1", u "U3(x) ≥ 0");
                         (u "P2", u "mono(U4, E1)")];
     routes :=
       Some [ (u "R1", uq "GET /j -> [M1] :: kv.scan(`j:`) | filter(U4 in ?q.s) | page(2) | !p99<200ms");
              (u "R2", uq "GET /j/{U1} -> M1 :: kv.get(`j:`+U1)");
              (u "R3", uq "POST /j/{U1}/go -> M1 :: req(U4 in [2,3]) | http.post(`m`,`/u/`+U1) | kv.get(`j:`+U1)") ] |}.

Definition demo_rnd (i : nat) : Z := Z.of_nat (7 * i).
Definition demo_now (i : nat) : jstring := u "2026-01-01T00:00:00.000Z".

Definition demo_run : result Server :=
  Eval vm_compute in run kv_dict demo_ast demo_rnd demo_now.

Definition demo_server : Server :=
  match demo_run with
  | Ok sv => sv
  | Err _ => {| sv_ast := demo_ast; sv_runtime := Runtime.empty;
                sv_compiled := [] |}
  end.

Definition request (method path : string) (q : list (jstring * jstring))
  : Request :=
  {| req_method := u method; pathname := u path; query := q |}.

(** A route is read-only when none of its segments is an outbound call;
    the interpreter has no segment that writes to the store. *)
Definition read_only (r : Route) : bool :=
  forallb (fun seg => negb (startsWith seg (u "http.post"))) (segments r).

(** An item passes the numeric check when it lacks the field, or when the
    field is a number that satisfies the comparison. *)
Definition cmp_item_ok (field op : jstring) (threshold : num)
           (item : Runtime.item) : bool :=
  is_undefined (get item field)
  || (negb (isNaN (ToNumber (get item field)))
      && cmp_holds op (ToNumber (get item field)) threshold).

Definition mono_item_ok (field : jstring) (allowed : list jstring)
           (item : Runtime.item) : bool :=
  is_undefined (get item field)
  || arr_includes allowed (ToString (get item field)).

(** The enum that a [mono] property refers to. *)
Definition allowed_of (ast : Ast) (m : caps) : list jstring :=
  match enums ast with
  | Some es =>
    match assoc (u "E" ++ group m 2) es with Some l => l | None => [] end
  | None => []
  end.

(** [item] breaks [prop]: a field that is there, and either is not a number
    or fails the comparison, or is not a member of the enum. *)
Definition breaks (ast : Ast) (prop : jstring) (item : Runtime.item) : Prop :=
  (exists m, match_ prop re_cmp = Some m
             /\ get item (u "U" ++ group m 1) <> VUndefined
             /\ cmp_item_ok (u "U" ++ group m 1) (normalise (group m 2))
                            (Fin (inject_Z (parseDigits (group m 3)))) item
                = false)
  \/ (exists m, match_ prop re_mono = Some m
                /\ get item (group m 1) <> VUndefined
                /\ mono_item_ok (group m 1) (allowed_of ast m) item = false).



(** The numeric property of the specification's example, over the items
    under [j:]. *)
Definition nonneg_ast : Ast :=
  {| enums := None;
     properties := Some [(u "P1", u "U3(x) >= 0")];
     routes := Some [(u "R1", uq "GET /j -> [M1] :: kv.scan(`j:`)")] |}.

Definition record (id : string) (u3 : value) : Runtime.item :=
  [(u "U1", VStr (u id)); (u "U3", u3)].

Definition store_ok : Runtime.t :=
  Runtime.kvSet
    (Runtime.kvSet Runtime.empty (u "j:a") (record "a" (VNum 5)))
    (u "j:b") (record "b" (VNum 0)).

Definition store_negative : Runtime.t :=
  Runtime.kvSet store_ok (u "j:c") (record "c" (VNum (-1))).


(** A store where one item has no [U3] at all. *)
Definition store_partial : Runtime.t :=
  Runtime.kvSet store_negative (u "j:e") [(u "U1", VStr (u "e"))].















(** The key as the specification words it: the fixed literal followed by
    the route's first path variable. *)
Definition first_variable_key (ctx : Ctx) : jstring :=
  u "j:" ++ match pathVars ctx with
            | Some ((_, v) :: _) => v
            | _ => u "undefined"
            end.

(** The specification's reading of a [req] segment, with that key. *)
Definition precondition_by_first_variable : Prop :=
  forall (ctx : Ctx) (cond : jstring) (m : caps) (st : data * list effect),
    cond <> [] -> forallb (cls_mem dot) cond = true ->
    match_ cond re_precondition = Some m ->
    step ctx st (u "req(" ++ cond ++ u ")")
    = match Runtime.kvGet (runtime ctx) (first_variable_key ctx) with
      | None => Err (PreconditionFailed cond)
      | Some item =>
        if arr_includes (map trim (split (group m 2) (u ",")))
                        (ToString (get item (group m 1)))
        then Ok st
        else Err (PreconditionFailed cond)
      end.

(** The context of the request [/swap/job2/job1] on a route whose path is
    [/swap/{U2}/{U1}], over the seeded store: job2 has [U4 = 2], job1 has
    [U4 = 1]. *)
Definition swap_ctx : Ctx :=
  {| runtime := sv_runtime demo_server;
     pathVars :=
       match buildPathRegex (u "/swap/{U2}/{U1}") with
       | Ok rx =>
         match match_ (u "/swap/job2/job1") rx with
         | Some m => groups m
         | None => None
         end
       | Err _ => None
       end;
     searchParams := [] |}.

(** The route [POST /j/{U1}/go] of the sample program: job2 has [U4 = 2]
    and passes; job1 has [U4 = 1] and fails; there is no job0. *)
Definition go_ctx (id : string) : Ctx :=
  {| runtime := sv_runtime demo_server;
     pathVars := Some [(u "U1", u id)];
     searchParams := [] |}.

(** The specification's reading: the prefix of the first [kv.scan] segment
    of the first declared route. *)
Definition scan_prefix_by_first_scan_segment : Prop :=
  forall (ast : Ast) (id spec : jstring) rest (seg : jstring) (m : caps),
    routes ast = Some ((id, spec) :: rest) ->
    find (fun s => startsWith s (u "kv.scan"))
         (parsePipeline (nth 1 (map trim (split spec (u "::"))) []))
    = Some seg ->
    match_ seg re_kv_scan = Some m ->
    scanPrefix ast = Ok (group m 1).

Definition late_scan_ast : Ast :=
  {| enums := None;
     properties := Some [(u "P1", u "U3(x) >= 0")];
     routes :=
       Some [(u "R1",
              uq "GET /k/{U1} -> M1 :: req(U4 in [2,3]) | kv.scan(`k:`)")] |}.

Definition early_scan_ast : Ast :=
  {| enums := None; properties := None;
     routes :=
       Some [(u "R1", uq "GET /k -> [M1] :: kv.scan(`k:`) | page(5)")] |}.

(** A token without white space, as field and parameter names are. *)
Definition no_space (s : jstring) : Prop :=
  forallb (fun c => negb (is_space c)) s = true.

(** Whether [evaluateFilter] keeps an item under [field in ?q.name]. *)
Definition keeps_in (ctx : Ctx) (field name : jstring) (item : Runtime.item)
  : bool :=
  match getAll (searchParams ctx) name with [] => true | _ => false end
  || arr_includes (getAll (searchParams ctx) name)
                  (ToString (get item field)).

Definition status_item (id : string) (status : Z) : Runtime.item :=
  [(u "id", VStr (u id)); (u "status", VNum status)].

Definition query_ctx (q : list (jstring * jstring)) : Ctx :=
  {| runtime := Runtime.empty; pathVars := None; searchParams := q |}.

Definition inherited_ast : Ast :=
  {| enums := None; properties := None;
     routes := Some [(u "R1", u "GET /x -> M1 :: toString(1)")] |}.

(** The keys of the store are pairwise different, as those of a [Map]
    are. *)
Definition unique_keys (rt : Runtime.t) : Prop :=
  NoDup (map fst (Runtime.kvStore rt)).

(** The openings of the stages that [executePipeline] tells apart. *)
Definition segment_openings : list jstring :=
  [u "kv.scan"; u "kv.get"; u "filter"; u "page"; u "req"; u "http.post";
   u "!"].

(** Whether a stage of a pipeline is a budget stage. *)
Definition is_budget_stage (seg : jstring) : bool := startsWith seg (u "!").

(** The stages that a route specification holds after its [::]. *)
Definition stages_of (spec : jstring) : list jstring :=
  parsePipeline (nth 1 (map trim (split spec (u "::"))) []).

(** What a name stands for in an expression.  On a route whose path has
    variables: the text that the path binds to the name, and the name
    itself when the path does not bind it.  On a route whose path has no
    variable the variables are an ordinary empty object: a name under
    which every object inherits a member stands for that member as a
    text, and any other name for itself. *)
Definition stands_for (ctx : Ctx) (name : jstring) : jstring :=
  match pathVars ctx with
  | Some bound =>
    match assoc name bound with
    | Some text => text
    | None => name
    end
  | None =>
    match assoc name Object_prototype with
    | Some (VFunction f) => u "function " ++ f ++ u "() { [native code] }"
    | Some _ => u "[object Object]"
    | None => name
    end
  end.

(** The context of a request on a route whose path has no variable, over
    the seeded store. *)
Definition no_variable_ctx : Ctx :=
  {| runtime := sv_runtime demo_server;
     pathVars := None;
     searchParams := [] |}.

(** A text of the first 128 characters only, where folding the letter
    case touches the letters [A] to [Z] and nothing else. *)
Definition ascii_text (s : jstring) : Prop :=
  Forall (fun c => (c < 128)%N) s.

(** [pat] occurs in [s]. *)
Definition occurs_in (pat s : jstring) : Prop :=
  exists a b, s = a ++ pat ++ b.

(** The field values that the statement on [~] filters ranges over: texts
    of the first 128 characters, integers that are written without an
    exponent (below [10^21] in size), booleans, [null], and no value. *)
Definition plain_text_value (v : value) : Prop :=
  match v with
  | VStr s => ascii_text s
  | VNum z => (Z.abs z < 10 ^ 21)%Z
  | VUndefined | VNull | VBool _ => True
  | VFunction _ | VObject => False
  end.

(** The name of a call: letters, digits, [_] and [.], at least one. *)
Definition call_name (name : jstring) : Prop :=
  name <> [] /\ forallb (cls_mem cap_char) name = true.

(** The values that count as false in a condition. *)
Definition falsy (v : value) : Prop :=
  v = VUndefined \/ v = VNull \/ v = VBool false \/ v = VNum 0
  \/ v = VStr [].

(** A route with one more duration in its history. *)
Definition timed (r : Route) (d : Z) : Route :=
  {| method := method r; path := path r; regex := regex r;
     segments := segments r; budgets := budgets r;
     latencies := latencies r ++ [d] |}.

(** Whether the handler's loop stops at a route: the methods are the same
    text and the route's pattern matches the path. *)
Definition answers (r : Route) (rq : Request) : bool :=
  jstr_eqb (method r) (req_method rq)
  && match match_ (pathname rq) (regex r) with
     | Some _ => true
     | None => false
     end.

(** The context in which the pipeline of the route that matched runs. *)
Definition ctx_of (rt : Runtime.t) (rq : Request) (m : caps) : Ctx :=
  {| runtime := rt; pathVars := groups m; searchParams := query rq |}.

(** A [mono] property in its usual layout: [mono(U<d>, E<e>)]. *)
Definition mono_property (d e : jstring) : jstring :=
  u "mono(U" ++ d ++ u ", E" ++ e ++ u ")".

(** The values that the enum [E<e>] declares; none when it is not
    declared. *)
Definition declared (ast : Ast) (e : jstring) : list jstring :=
  match enums ast with
  | Some es =>
    match assoc (u "E" ++ e) es with Some l => l | None => [] end
  | None => []
  end.

(** A program with one [mono] property over the items under [j:]. *)
Definition mono_ast (es : list (jstring * list jstring)) : Ast :=
  {| enums := Some es;
     properties := Some [(u "P1", u "mono(U4, E1)")];
     routes := Some [(u "R1", uq "GET /j -> [M1] :: kv.scan(`j:`)")] |}.

(** The property of [nonneg_ast] in a program whose first route scans
    another prefix. *)
Definition other_prefix_ast : Ast :=
  {| enums := None;
     properties := Some [(u "P1", u "U3(x) >= 0")];
     routes := Some [(u "R1", uq "GET /k -> [M1] :: kv.scan(`k:`)");
                     (u "R2", uq "GET /j -> [M1] :: kv.scan(`j:`)")] |}.

(** A text with white space put before and after it. *)
Record padded := { before : jstring; text : jstring; behind : jstring }.

Definition layout (p : padded) : jstring := before p ++ text p ++ behind p.

(** The padding is white space, and the text is free of the separator
    [bar] and has no white space at its ends. *)
Definition well_padded (bar : jschar) (p : padded) : Prop :=
  forallb is_space (before p) = true /\ forallb is_space (behind p) = true
  /\ trim (text p) = text p /\ Forall (fun c => c <> bar) (text p).

(** The characters that [splitArgs] has read, with a comma after each
    finished argument. *)
Definition read_so_far (st : SplitState) : jstring :=
  concat (map (fun a => a ++ u ",") (args st)) ++ current st.

(** The pattern for a run of path text without pattern syntax: one
    character after the other, a [.] standing for any character. *)
Definition literal_re (lit : jstring) (r : re) : re :=
  fold_right (fun c r => Seq (if (c =? 46)%N then Chr dot else Lit [c]) r)
             r lit.

(** Path text without pattern syntax. *)
Definition plain (s : jstring) : Prop :=
  forallb (fun c => negb (syntax_char c)) s = true.

(** The suggestions among the lines that the handler logs. *)
Definition logged_suggestions (logs : list log) : list Suggestion :=
  flat_map (fun l => match l with SuggestionInfo s => [s] | _ => [] end)
           logs.

(** The lines that stand for a list of suggestions: one line for each,
    the route, a colon and a blank, and the text of the suggestion; one
    fixed line when there is none. *)
Definition printed (suggestions : list Suggestion) : list jstring :=
  match suggestions with
  | [] => [u "No optimisations suggested."]
  | _ :: _ => map (fun s => route s ++ u ": " ++ suggestion s) suggestions
  end.

(** A program with a budget on a route that does not page, and the server
    that [run] starts for it. *)
Definition unpaged_ast : Ast :=
  {| enums := None; properties := None;
     routes :=
       Some [(u "R1", uq "GET /j -> [M1] :: kv.scan(`j:`) | !p99<200ms");
             (u "R2", uq "GET /k -> [M1] :: kv.scan(`k:`) | page(80) | !p50<1s")]
  |}.

Definition unpaged_run : result Server :=
  Eval vm_compute in run kv_dict unpaged_ast demo_rnd demo_now.

Definition unpaged_server : Server :=
  match unpaged_run with
  | Ok sv => sv
  | Err _ => {| sv_ast := unpaged_ast; sv_runtime := Runtime.empty;
                sv_compiled := [] |}
  end.

(** A route of the current runner and the route that the earlier runner
    makes of the same specification. *)
Definition same_route (r : Route) (r0 : Legacy.Route) : Prop :=
  Legacy.method r0 = method r /\ Legacy.path r0 = path r
  /\ Legacy.regex r0 = regex r
  /\ segments r
     = filter (fun s => negb (is_budget_stage s)) (Legacy.segments r0).

(** A program whose one route calls out and then fails: [filter] has no
    list to work on. *)
Definition call_then_fail_ast : Ast :=
  {| enums := None; properties := None;
     routes :=
       Some [(u "R1",
              uq "POST /x -> M1 :: http.post(`m`,`/u`) | filter(U4 in ?q.s)")]
  |}.

Definition call_then_fail_run : result Server :=
  Eval vm_compute in run kv_dict call_then_fail_ast demo_rnd demo_now.

Definition call_then_fail_server : Server :=
  match call_then_fail_run with
  | Ok sv => sv
  | Err _ => {| sv_ast := call_then_fail_ast; sv_runtime := Runtime.empty;
                sv_compiled := [] |}
  end.

(** The six statuses that the seeded jobs go through. *)
Definition statuses : list jstring :=
  [u "0"; u "1"; u "2"; u "3"; u "4"; u "5"].

(** A text that stays on one line. *)
Definition no_break (s : jstring) : Prop :=
  forallb (fun c => negb ((c =? 10) || (c =? 13))%N) s = true.

(** A non-empty one-line text without white space at its ends. *)
Definition plain_value (s : jstring) : Prop :=
  s <> [] /\ trim s = s /\ no_break s.

(** A property name of a screen: no colon, not the word [Screen], and a
    name that an object keeps in the order of assignment. *)
Definition plain_key (k : jstring) : Prop :=
  plain_value k /\ Forall (fun c => c <> 58%N) k /\ k <> u "Screen"
  /\ k <> u "__proto__" /\ JsObject.array_index k = None.

(** The layout of a UI specification: a [Screen:] line, one indented line
    for each property, and an empty line after each screen. *)
Definition prop_line (kv : jstring * jstring) : jstring :=
  u "  " ++ fst kv ++ u ": " ++ snd kv.

Definition screen_block (s : UiGenerator.Screen) : list jstring :=
  (u "Screen: " ++ UiGenerator.name s)
    :: map prop_line (UiGenerator.props s) ++ [[]].

Definition spec_text (screens : list UiGenerator.Screen) : jstring :=
  join [10%N] (concat (map screen_block screens)).

Definition well_formed_screen (s : UiGenerator.Screen) : Prop :=
  plain_value (UiGenerator.name s)
  /\ NoDup (map fst (UiGenerator.props s))
  /\ Forall (fun kv => plain_key (fst kv) /\ plain_value (snd kv))
            (UiGenerator.props s).

(** A non-empty text without white space at its ends that [.] can run
    over. *)
Definition plain_text (s : jstring) : Prop :=
  s <> [] /\ trim s = s /\ forallb (cls_mem dot) s = true.

(** A decimal numeral, as it follows the letter of a declaration. *)
Definition numeral (n : jstring) : Prop :=
  n <> [] /\ forallb is_digit n = true.

(** The lines of a Nova program, in the layout the parser documents. *)
Inductive decl :=
| Comment (note : jstring)
| Blank
| PropertyDecl (n body : jstring)
| RouteDecl (n body : jstring)
| TransitionDecl (n body : jstring)
| EnumDecl (n : jstring) (values : list jstring)
| ModelDecl (n : jstring) (fields : list (jstring * jstring)).

Definition render (d : decl) : jstring :=
  match d with
  | Comment note => u "#" ++ note
  | Blank => []
  | PropertyDecl n body => u "P" ++ n ++ u ": " ++ body
  | RouteDecl n body => u "R" ++ n ++ u ": " ++ body
  | TransitionDecl n body => u "T" ++ n ++ u ": " ++ body
  | EnumDecl n values => u "E" ++ n ++ u " = [" ++ join (u ",") values ++ u "]"
  | ModelDecl n fields =>
    u "M" ++ n ++ u " {"
      ++ join (u ",") (map (fun f => u " " ++ fst f ++ u ":" ++ snd f) fields)
      ++ u " }"
  end.

(** A line of the file: a declaration behind some indentation. *)
Definition source_line (l : jstring * decl) : jstring :=
  fst l ++ render (snd l).

Definition program_text (lines : list (jstring * decl)) : jstring :=
  join [10%N] (map source_line lines).

(** A word of an enum or of a model: plain text without the separators. *)
Definition word (s : jstring) : Prop :=
  plain_text s /\ Forall (fun c => c <> 44%N) s /\ Forall (fun c => c <> 58%N) s.

Definition well_formed_decl (d : decl) : Prop :=
  match d with
  | Comment note => no_break note
  | Blank => True
  | PropertyDecl n body | RouteDecl n body | TransitionDecl n body =>
    numeral n /\ plain_text body
  | EnumDecl n values => numeral n /\ values <> [] /\ Forall word values
  | ModelDecl n fields =>
    numeral n /\ fields <> []
    /\ Forall (fun f => word (fst f) /\ word (snd f)) fields
  end.

Definition well_formed_line (l : jstring * decl) : Prop :=
  forallb is_space (fst l) = true /\ no_break (fst l)
  /\ well_formed_decl (snd l).

(** What a declaration does to the program read so far. *)
Definition declare (p : Compiler.Program) (d : decl) : Compiler.Program :=
  match d with
  | Comment _ | Blank => p
  | PropertyDecl n body =>
    {| Compiler.p_models := Compiler.p_models p;
       Compiler.p_enums := Compiler.p_enums p;
       Compiler.p_properties :=
         JsObject.set (Compiler.p_properties p) (u "P" ++ n) body;
       Compiler.p_routes := Compiler.p_routes p;
       Compiler.p_transitions := Compiler.p_transitions p |}
  | RouteDecl n body =>
    {| Compiler.p_models := Compiler.p_models p;
       Compiler.p_enums := Compiler.p_enums p;
       Compiler.p_properties := Compiler.p_properties p;
       Compiler.p_routes :=
         JsObject.set (Compiler.p_routes p) (u "R" ++ n) body;
       Compiler.p_transitions := Compiler.p_transitions p |}
  | TransitionDecl n body =>
    {| Compiler.p_models := Compiler.p_models p;
       Compiler.p_enums := Compiler.p_enums p;
       Compiler.p_properties := Compiler.p_properties p;
       Compiler.p_routes := Compiler.p_routes p;
       Compiler.p_transitions :=
         JsObject.set (Compiler.p_transitions p) (u "T" ++ n) body |}
  | EnumDecl n values =>
    {| Compiler.p_models := Compiler.p_models p;
       Compiler.p_enums := JsObject.set (Compiler.p_enums p) (u "E" ++ n) values;
       Compiler.p_properties := Compiler.p_properties p;
       Compiler.p_routes := Compiler.p_routes p;
       Compiler.p_transitions := Compiler.p_transitions p |}
  | ModelDecl n fields =>
    {| Compiler.p_models :=
         JsObject.set (Compiler.p_models p) (u "M" ++ n)
           (fold_left (fun o f => JsObject.set o (fst f) (snd f)) fields []);
       Compiler.p_enums := Compiler.p_enums p;
       Compiler.p_properties := Compiler.p_properties p;
       Compiler.p_routes := Compiler.p_routes p;
       Compiler.p_transitions := Compiler.p_transitions p |}
  end.

(** The routes that a list of declarations names, in their order. *)
Definition declared_routes (ds : list decl) : list (jstring * jstring) :=
  flat_map (fun d => match d with
                     | RouteDecl n body => [(u "R" ++ n, body)]
                     | _ => []
                     end) ds.

(* ================================================================== *)
(** * Basic facts about strings *)

Section StringFacts.

Lemma jstr_eqb_refl (a : jstring) : jstr_eqb a a = true.
Proof.
  induction a as [|x a IH]; simpl; [reflexivity|].
  now rewrite N.eqb_refl.
Qed.

Lemma jstr_eqb_eq (a b : jstring) : jstr_eqb a b = true <-> a = b.
Proof.
  split; [|intros ->; apply jstr_eqb_refl].
  revert b; induction a as [|x a IH]; intros [|y b]; simpl; try discriminate.
  - reflexivity.
  - rewrite andb_true_iff, N.eqb_eq. intros [-> H]. now rewrite (IH _ H).
Qed.

Lemma jstr_eqb_neq (a b : jstring) : jstr_eqb a b = false <-> a <> b.
Proof.
  split.
  - intros H E. rewrite <- jstr_eqb_eq in E. congruence.
  - intros H. destruct (jstr_eqb a b) eqn:E; [|reflexivity].
    now apply jstr_eqb_eq in E.
Qed.

Lemma startsWith_app (p s : jstring) : startsWith (p ++ s) p = true.
Proof.
  induction p as [|x p IH]; simpl; [reflexivity|].
  now rewrite N.eqb_refl.
Qed.

Lemma startsWith_inv (s p : jstring) :
  startsWith s p = true -> exists t, s = p ++ t.
Proof.
  revert s; induction p as [|y p IH]; intros s H; simpl in *.
  - now exists s.
  - destruct s as [|x s]; [discriminate|].
    apply andb_true_iff in H as [E H]. apply N.eqb_eq in E. subst y.
    destruct (IH _ H) as [t ->]. now exists t.
Qed.

Lemma skipn_length_app (p s : jstring) : skipn (length p) (p ++ s) = s.
Proof. induction p; simpl; auto. Qed.

(** Two literals that differ in their first character never start the same
    string. *)
Lemma startsWith_head_neq (s : jstring) (x y : jschar) (p q : jstring) :
  x <> y -> startsWith s (x :: p) = true -> startsWith s (y :: q) = false.
Proof.
  intros N H. destruct s as [|z s]; simpl in *; [discriminate|].
  apply andb_true_iff in H as [E _]. apply N.eqb_eq in E. subst z.
  destruct (N.eqb_spec x y); [contradiction|reflexivity].
Qed.

Lemma firstn_sub_app (a b : jstring) :
  firstn (length (a ++ b) - length b) (a ++ b) = a.
Proof.
  rewrite length_app, Nat.add_sub.
  rewrite firstn_app, Nat.sub_diag, firstn_all. simpl. apply app_nil_r.
Qed.

Lemma find_sub_eq (pat s : jstring) :
  find_sub pat s
  = if startsWith s pat then Some ([], skipn (length pat) s)
    else match s with
         | [] => None
         | c :: s' =>
           match find_sub pat s' with
           | Some (a, b) => Some (c :: a, b)
           | None => None
           end
         end.
Proof. destruct s; reflexivity. Qed.

Lemma find_sub_here (pat r : jstring) : find_sub pat (pat ++ r) = Some ([], r).
Proof. now rewrite find_sub_eq, startsWith_app, skipn_length_app. Qed.

Lemma find_sub_first (y : jschar) (p f r : jstring) :
  Forall (fun c => c <> y) f ->
  find_sub (y :: p) (f ++ (y :: p) ++ r) = Some (f, r).
Proof.
  induction 1 as [|c f Hc _ IH].
  - exact (find_sub_here (y :: p) r).
  - change ((c :: f) ++ (y :: p) ++ r) with (c :: (f ++ (y :: p) ++ r)).
    rewrite find_sub_eq. cbn [startsWith].
    apply N.eqb_neq in Hc. rewrite Hc. cbn [andb]. now rewrite IH.
Qed.

Lemma find_sub_absent (y : jschar) (p s : jstring) :
  Forall (fun c => c <> y) s -> find_sub (y :: p) s = None.
Proof.
  induction 1 as [|c s Hc _ IH]; [reflexivity|].
  rewrite find_sub_eq. cbn [startsWith].
  apply N.eqb_neq in Hc. rewrite Hc. cbn [andb]. now rewrite IH.
Qed.

Lemma split_fuel_absent (n : nat) (s sep : jstring) :
  find_sub sep s = None -> split_fuel n s sep = [s].
Proof. intros H. destruct n; simpl; [reflexivity|now rewrite H]. Qed.

Lemma split_two (y : jschar) (p f r : jstring) :
  Forall (fun c => c <> y) f -> find_sub (y :: p) r = None ->
  split (f ++ (y :: p) ++ r) (y :: p) = [f; r].
Proof.
  intros Hf Hr. unfold split.
  destruct (length (f ++ (y :: p) ++ r)) as [|n] eqn:L.
  - apply length_zero_iff_nil in L. destruct f; discriminate.
  - cbn [split_fuel]. rewrite (find_sub_first _ _ Hf).
    now rewrite split_fuel_absent.
Qed.

Lemma includes_false (s pat : jstring) :
  includes s pat = false -> find_sub pat s = None.
Proof. unfold includes. now destruct (find_sub pat s). Qed.

Lemma Forall_neq_b (y : jschar) (s : jstring) :
  forallb (fun c => negb (c =? y)%N) s = true -> Forall (fun c => c <> y) s.
Proof.
  intros H. apply Forall_forall. intros c Hc.
  rewrite forallb_forall in H. specialize (H c Hc).
  apply negb_true_iff in H. now apply N.eqb_neq.
Qed.

Lemma no_space_app (a b : jstring) :
  no_space a -> no_space b -> no_space (a ++ b).
Proof. unfold no_space. intros Ha Hb. now rewrite forallb_app, Ha, Hb. Qed.

Lemma no_space_neq (s : jstring) :
  no_space s -> Forall (fun c => c <> 32%N) s.
Proof.
  intros H. apply Forall_forall. intros c Hc E. subst c.
  unfold no_space in H. rewrite forallb_forall in H.
  specialize (H _ Hc). discriminate H.
Qed.

Lemma line_terminator_is_space (c : jschar) :
  is_line_terminator c = true -> is_space c = true.
Proof.
  unfold is_line_terminator, is_space. intros H.
  repeat (apply orb_true_iff in H as [H|H]);
    apply N.eqb_eq in H; subst c; reflexivity.
Qed.

Lemma trimStart_no_space (s : jstring) : no_space s -> trimStart s = s.
Proof.
  destruct s as [|c s]; [reflexivity|]. unfold no_space. cbn [forallb].
  intros H. apply andb_true_iff in H as [H _]. apply negb_true_iff in H.
  cbn [trimStart]. now rewrite H.
Qed.

Lemma trim_no_space (s : jstring) : no_space s -> trim s = s.
Proof.
  intros H. unfold trim, trimEnd. rewrite (trimStart_no_space H).
  rewrite trimStart_no_space; [apply rev_involutive|].
  unfold no_space in *. apply forallb_forall. intros c Hc.
  rewrite forallb_forall in H. apply H. now apply in_rev.
Qed.


Lemma arr_includes_In (l : list jstring) (x : jstring) :
  arr_includes l x = true <-> In x l.
Proof.
  unfold arr_includes. rewrite existsb_exists. split.
  - intros [y [Hy E]]. apply jstr_eqb_eq in E. now subst.
  - intros H. exists x. split; [exact H|apply jstr_eqb_refl].
Qed.

Lemma find_none_iff {A} (f : A -> bool) (l : list A) :
  (forall x, In x l -> f x = false) -> find f l = None.
Proof.
  induction l as [|a l IH]; intros H; simpl; [reflexivity|].
  rewrite (H a) by now left. apply IH. intros x Hx. apply H. now right.
Qed.

Lemma find_first {A} (f : A -> bool) (pre post : list A) (x : A) :
  (forall y, In y pre -> f y = false) -> f x = true ->
  find f (pre ++ x :: post) = Some x.
Proof.
  induction pre as [|a pre IH]; intros H Hx; simpl.
  - now rewrite Hx.
  - rewrite (H a) by now left. apply IH; [|exact Hx].
    intros y Hy. apply H. now right.
Qed.

Lemma forallb_false_witness {A} (f : A -> bool) (l : list A) :
  forallb f l = false -> exists x, In x l /\ f x = false.
Proof.
  induction l as [|a l IH]; simpl; [discriminate|].
  destruct (f a) eqn:E; simpl.
  - intros H. destruct (IH H) as [x [Hx Hf]]. exists x. auto.
  - intros _. exists a. auto.
Qed.

Lemma Forall_map_const {A B} (f : A -> B) (v : B) (P : A -> Prop)
      (l : list A) :
  Forall (fun o => f o = v /\ P o) l -> map f l = repeat v (length l).
Proof.
  induction 1 as [|o l [E _] _ IH]; simpl; [reflexivity|].
  now rewrite E, IH.
Qed.

End StringFacts.

(* ================================================================== *)
(** * The matcher *)

Section MatcherFacts.

Lemma star_loop_cls (p : cls) (k : kont) (n : nat) (s : jstring) (c : caps) :
  (length s <= n)%nat -> star_loop (backtrack (Chr p)) k n s c = star_cls p s c k.
Proof.
  revert s; induction n as [|n IH]; intros s L.
  - destruct s; [reflexivity|simpl in L; lia].
  - destruct s as [|x s]; [reflexivity|].
    simpl. destruct (cls_mem p x); [|reflexivity].
    assert (E : (length s <? S (length s))%nat = true)
      by (apply Nat.ltb_lt; lia).
    rewrite E, IH by (simpl in L; lia). reflexivity.
Qed.

Lemma bt_star_cls (p : cls) (s : jstring) (c : caps) (k : kont) :
  backtrack (Star (Chr p)) s c k = star_cls p s c k.
Proof. simpl. now apply star_loop_cls. Qed.

Lemma bt_seq (a b : re) (s : jstring) (c : caps) (k : kont) :
  backtrack (Seq a b) s c k = backtrack a s c (fun s' c' => backtrack b s' c' k).
Proof. reflexivity. Qed.

Lemma bt_grp (g : gname) (a : re) (s : jstring) (c : caps) (k : kont) :
  backtrack (Grp g a) s c k
  = backtrack a s c (fun s' c' => k s' ((g, firstn (length s - length s') s) :: c')).
Proof. reflexivity. Qed.

Lemma bt_plus_cls (p : cls) (x : jschar) (s : jstring) (c : caps) (k : kont) :
  backtrack (Plus (Chr p)) (x :: s) c k
  = if cls_mem p x then star_cls p s c k else None.
Proof.
  unfold Plus. rewrite bt_seq. cbn [backtrack].
  destruct (cls_mem p x); [|reflexivity]. now apply star_loop_cls.
Qed.

Lemma bt_chr_cons (p : cls) (x : jschar) (s : jstring) (c : caps) (k : kont) :
  backtrack (Chr p) (x :: s) c k = if cls_mem p x then k s c else None.
Proof. reflexivity. Qed.

Lemma bt_lit_app (l s : jstring) (c : caps) (k : kont) :
  backtrack (Lit l) (l ++ s) c k = k s c.
Proof. simpl. now rewrite startsWith_app, skipn_length_app. Qed.

Lemma bt_lit_exact (l : jstring) (c : caps) (k : kont) :
  backtrack (Lit l) l c k = k [] c.
Proof.
  rewrite <- (app_nil_r l) at 2. apply bt_lit_app.
Qed.

Lemma bt_alt_l (a b : re) (s : jstring) (c : caps) (k : kont) (r : caps) :
  backtrack a s c k = Some r -> backtrack (Alt a b) s c k = Some r.
Proof. intros H. cbn [backtrack]. now rewrite H. Qed.

Lemma bt_alt_r (a b : re) (s : jstring) (c : caps) (k : kont) (r : caps) :
  backtrack a s c k = None -> backtrack b s c k = Some r -> backtrack (Alt a b) s c k = Some r.
Proof. intros Ha Hb. cbn [backtrack]. now rewrite Ha. Qed.

Lemma star_cls_none (p : cls) (s : jstring) (c : caps) (k : kont) :
  (forall a b, s = a ++ b -> k b c = None) -> star_cls p s c k = None.
Proof.
  induction s as [|x s IH]; intros H; simpl.
  - apply (H [] []). reflexivity.
  - rewrite IH.
    + destruct (cls_mem p x); apply (H [] (x :: s)); reflexivity.
    + intros a b ->. apply (H (x :: a) b). reflexivity.
Qed.

(** The repetition runs over [t]; the continuation accepts what is left
    there, and nothing further to the right. *)
Lemma star_cls_first_success (p : cls) (t w : jstring) (c : caps) (k : kont)
      (r : caps) :
  forallb (cls_mem p) t = true ->
  k w c = Some r ->
  (forall a b, w = a ++ b -> a <> [] -> k b c = None) ->
  star_cls p (t ++ w) c k = Some r.
Proof.
  intros Ht Hk Hn. induction t as [|x t IH]; simpl in *.
  - destruct w as [|y w]; simpl; [exact Hk|].
    rewrite star_cls_none.
    + now destruct (cls_mem p y).
    + intros a b E. apply (Hn (y :: a) b); [now rewrite E|discriminate].
  - apply andb_true_iff in Ht as [Hx Ht]. rewrite Hx, (IH Ht). reflexivity.
Qed.

(** The repetition runs over [t] and stops in front of [w]. *)
Lemma star_cls_stop (p : cls) (t w : jstring) (c : caps) (k : kont)
      (r : caps) :
  forallb (cls_mem p) t = true ->
  match w with [] => True | y :: _ => cls_mem p y = false end ->
  k w c = Some r ->
  star_cls p (t ++ w) c k = Some r.
Proof.
  intros Ht Hw Hk. induction t as [|x t IH]; simpl in *.
  - destruct w as [|y w]; simpl; [exact Hk|]. now rewrite Hw.
  - apply andb_true_iff in Ht as [Hx Ht]. rewrite Hx, (IH Ht). reflexivity.
Qed.

Lemma search_here (r : re) (s : jstring) (c : caps) :
  match_here r s = Some c -> search r s = Some c.
Proof. intros H. destruct s; simpl; now rewrite H. Qed.



Lemma no_space_dot (s : jstring) :
  no_space s -> forallb (cls_mem dot) s = true.
Proof.
  unfold no_space. intros H. apply forallb_forall. intros c Hc.
  rewrite forallb_forall in H. specialize (H c Hc).
  apply negb_true_iff in H. cbn [cls_mem]. apply negb_true_iff.
  destruct (is_line_terminator c) eqn:E; [|reflexivity].
  apply line_terminator_is_space in E. congruence.
Qed.

End MatcherFacts.

(* ================================================================== *)
(** * The runner's patterns on well-formed text *)

Section PatternFacts.

(** [/page\((\d+)\)/] on the text [page(ds)], [ds] a run of digits. *)
Lemma match_page_digits (ds : jstring) :
  ds <> [] -> forallb is_digit ds = true ->
  match_ (u "page(" ++ ds ++ u ")") re_page = Some [(Idx 1, ds)].
Proof.
  intros Hne Hd. unfold match_, re_page. cbn [anchored body].
  apply search_here. unfold match_here.
  rewrite bt_seq, bt_lit_app, bt_seq, bt_grp.
  destruct ds as [|d ds]; [contradiction|].
  simpl in Hd. apply andb_true_iff in Hd as [Hd Hds].
  change ((d :: ds) ++ u ")") with (d :: ds ++ u ")") at 1.
  rewrite bt_plus_cls. cbn [cls_mem]. rewrite Hd.
  apply star_cls_stop; [exact Hds|reflexivity|].
  cbn beta. rewrite bt_lit_exact.
  change (d :: ds ++ u ")") with ((d :: ds) ++ u ")").
  rewrite firstn_sub_app. reflexivity.
Qed.

(** [/name\((.+)\)/] on the text [name(arg)], [arg] on one line. *)
Lemma match_call (name arg : jstring) :
  arg <> [] -> forallb (cls_mem dot) arg = true ->
  match_ (name ++ u "(" ++ arg ++ u ")") (re_call name)
  = Some [(Idx 1, arg)].
Proof.
  intros Hne Hdot. unfold match_, re_call. cbn [anchored body].
  apply search_here. unfold match_here.
  rewrite app_assoc, bt_seq, bt_lit_app, bt_seq, bt_grp.
  destruct arg as [|x arg]; [contradiction|].
  cbn [forallb] in Hdot. apply andb_true_iff in Hdot as [Hx Hdot].
  change ((x :: arg) ++ u ")") with (x :: arg ++ u ")") at 1.
  rewrite bt_plus_cls, Hx.
  apply star_cls_first_success; [exact Hdot| |].
  - cbn beta. rewrite bt_lit_exact.
    change (x :: arg ++ u ")") with ((x :: arg) ++ u ")").
    rewrite firstn_sub_app. reflexivity.
  - intros a b E Ha. destruct a as [|y a]; [contradiction|].
    destruct a; [|destruct a; discriminate].
    injection E as _ <-. reflexivity.
Qed.

(** [/kv\.scan\(`( .* )`\)/] on a text that opens with a scan call and
    holds no double quote after it. *)
Lemma match_kv_scan (P tail : jstring) :
  forallb (cls_mem dot) P = true ->
  Forall (fun c => c <> 34%N) tail ->
  match_ (uq "kv.scan(`" ++ P ++ uq "`)" ++ tail) re_kv_scan
  = Some [(Idx 1, P)].
Proof.
  intros HP Htail. unfold match_, re_kv_scan. cbn [anchored body].
  apply search_here. unfold match_here.
  rewrite bt_seq, bt_lit_app, bt_seq, bt_grp, bt_star_cls.
  apply star_cls_first_success; [exact HP| |].
  - cbn beta. rewrite bt_lit_app, firstn_sub_app. reflexivity.
  - intros a b E Ha. cbn beta. cbn [backtrack].
    destruct a as [|x a]; [contradiction|].
    change (uq "`)" ++ tail) with (34%N :: 41%N :: tail) in E.
    injection E as _ E.
    destruct a as [|x' a]; cbn [app] in E.
    + subst b. reflexivity.
    + injection E as _ E.
      assert (Hb : Forall (fun c => c <> 34%N) b).
      { rewrite E in Htail. now apply Forall_app in Htail as [_ ?]. }
      destruct Hb as [|z b Hz _]; [reflexivity|].
      change (uq "`)") with [34%N; 41%N]. cbn [startsWith].
      apply N.eqb_neq in Hz. now rewrite Hz.
Qed.





End PatternFacts.

(* ================================================================== *)
(** * Compilation *)

Section CompileFacts.

Lemma compile_specs_length (dict : Dictionary) specs compiled :
  compile_specs dict specs = Ok compiled -> length compiled = length specs.
Proof.
  revert compiled; induction specs as [|[id spec] specs IH];
    intros compiled H; simpl in H.
  - now inversion H.
  - destruct (compile_route dict spec) as [r|e]; simpl in H; [|discriminate].
    destruct (compile_specs dict specs) as [rs|e]; simpl in H;
      [|discriminate].
    inversion H. simpl. now rewrite (IH rs).
Qed.

Lemma compile_specs_error (dict : Dictionary) pre id spec post e :
  compile_route dict spec = Err e ->
  exists e', compile_specs dict (pre ++ (id, spec) :: post) = Err e'.
Proof.
  intros H. induction pre as [|[id' spec'] pre [e' IH]]; simpl.
  - rewrite H. simpl. eauto.
  - destruct (compile_route dict spec'); simpl; [|eauto].
    rewrite IH. simpl. eauto.
Qed.

Lemma compile_segments_error (dict : Dictionary) pre seg post m :
  startsWith seg (u "!") = false ->
  match_ seg re_cap = Some m ->
  builtin (group m 1) = false ->
  known_capability dict (group m 1) = false ->
  forall segs buds,
  exists e, compile_segments dict (pre ++ seg :: post) segs buds = Err e.
Proof.
  intros Hbang Hm Hb Hk. induction pre as [|s pre IH]; intros segs buds.
  - cbn [app compile_segments]. rewrite Hbang, Hm, Hb, Hk. simpl. eauto.
  - cbn [app compile_segments].
    destruct (startsWith s (u "!")).
    + destruct (match_ s re_budget); apply IH.
    + destruct (match_ s re_cap) as [m'|]; [|apply IH].
      destruct (negb (builtin (group m' 1))
                && negb (known_capability dict (group m' 1))); [eauto|].
      apply IH.
Qed.

(** A program is rejected as a whole when one of its routes has a path
    part outside the grammar, or a stage that calls a name which is neither
    a builtin nor a property of the capability dictionary. *)
Lemma compile_rejects (dict : Dictionary) (ast : Ast) pre id spec post :
  routes ast = Some (pre ++ (id, spec) :: post) ->
  let parts := map trim (split spec (u "::")) in
  (match_ (nth 0 parts []) re_path_part = None
   \/ exists before seg later m,
       parsePipeline (nth 1 parts []) = before ++ seg :: later
       /\ startsWith seg (u "!") = false
       /\ match_ seg re_cap = Some m
       /\ builtin (group m 1) = false
       /\ known_capability dict (group m 1) = false) ->
  exists e, compile dict ast = Err e.
Proof.
  intros Hr parts H. unfold compile. rewrite Hr.
  assert (exists e, compile_route dict spec = Err e) as [e He].
  { unfold compile_route. fold parts. destruct H as [H|H].
    - unfold parsePathPart. rewrite H. simpl. eauto.
    - destruct H as (before & seg & later & m & Hp & H1 & H2 & H3 & H4).
      destruct (parsePathPart (nth 0 parts [])); simpl; [|eauto].
      rewrite Hp.
      destruct (compile_segments_error before later H1 H2 H3 H4 [] [])
        as [e ->]. simpl. eauto. }
  exact (compile_specs_error pre id post He).
Qed.

(** Names that every object inherits pass for capabilities, whatever the
    dictionary declares. *)
Lemma inherited_names_known (dict : Dictionary) (name : jstring) (v : value) :
  assoc name (capabilities dict) = None ->
  assoc name Object_prototype = Some v ->
  known_capability dict name = true.
Proof.
  intros H1 H2. unfold known_capability, get. rewrite H1, H2.
  unfold Object_prototype in H2. cbn [assoc] in H2.
  repeat match type of H2 with
         | (if ?b then _ else _) = _ => destruct b
         end;
    try discriminate; injection H2 as <-; reflexivity.
Qed.

(** C5 (evaluation at the failing input).  [toString] is not a property of
    the capability dictionary, yet [dictionary.capabilities["toString"]] is
    the function that every object inherits, which is truthy: the program
    compiles, and the unknown operation is met at request time, as an
    unsupported segment. *)
Theorem inherited_name_passes_compilation :
  assoc (u "toString") (capabilities kv_dict) = None
  /\ builtin (u "toString") = false
  /\ known_capability kv_dict (u "toString") = true
  /\ exists sv,
      run kv_dict inherited_ast demo_rnd demo_now = Ok sv
      /\ map segments (sv_compiled sv) = [[u "toString(1)"]]
      /\ out_response (handle sv (request "GET" "/x" []) 1)
         = Failure (UnsupportedSegment (u "toString(1)")).
Proof.
  repeat split; try reflexivity.
  destruct (run kv_dict inherited_ast demo_rnd demo_now) as [sv|e] eqn:E;
    [|vm_compute in E; discriminate E].
  exists sv. split; [reflexivity|].
  vm_compute in E. injection E as <-. split; vm_compute; reflexivity.
Qed.

End CompileFacts.

(* ================================================================== *)
(** * Segments of the pipeline *)

Section SegmentFacts.

(** The interpreter's turn on a [req(cond)] segment. *)
Lemma step_req (ctx : Ctx) (st : data * list effect) (cond : jstring) :
  cond <> [] -> forallb (cls_mem dot) cond = true ->
  step ctx st (u "req(" ++ cond ++ u ")")
  = let* ok := evaluatePrecondition cond ctx in
    if ok then Ok st else Err (PreconditionFailed cond).
Proof.
  intros Hne Hdot. unfold step. destruct st as [dt fx].
  pose proof (@match_call (u "req") cond Hne Hdot) as M.
  change (u "req" ++ u "(" ++ cond ++ u ")")
    with (u "req(" ++ cond ++ u ")") in M.
  unfold re_req. rewrite M. reflexivity.
Qed.

(** The interpreter's turn on a [filter(cond)] segment. *)
Lemma step_filter (ctx : Ctx) (dt : data) (fx : list effect)
      (cond : jstring) :
  cond <> [] -> forallb (cls_mem dot) cond = true ->
  step ctx (dt, fx) (u "filter(" ++ cond ++ u ")")
  = match dt with
    | DArray l => let* l' := filter_items cond l ctx in Ok (DArray l', fx)
    | _ => Err FilterNotArray
    end.
Proof.
  intros Hne Hdot. unfold step.
  pose proof (@match_call (u "filter") cond Hne Hdot) as M.
  change (u "filter" ++ u "(" ++ cond ++ u ")")
    with (u "filter(" ++ cond ++ u ")") in M.
  unfold re_filter. rewrite M. reflexivity.
Qed.

Lemma run_segments_app (ctx : Ctx) (pre post : list jstring)
      (st0 st : data * list effect) :
  run_segments pre ctx st0 = Ok st ->
  run_segments (pre ++ post) ctx st0 = run_segments post ctx st.
Proof.
  revert st0; induction pre as [|seg pre IH]; intros st0 H; simpl in *.
  - now inversion H.
  - destruct (step ctx st0 seg) as [st1|e]; simpl in *; [|discriminate].
    now apply IH.
Qed.

Lemma step_read_only (ctx : Ctx) (st st' : data * list effect)
      (seg : jstring) :
  startsWith seg (u "http.post") = false ->
  step ctx st seg = Ok st' -> snd st' = snd st.
Proof.
  intros Hro. unfold step. destruct st as [dt fx]. rewrite Hro.
  repeat match goal with
         | |- context [if ?b then _ else _] => destruct b
         | |- context [match match_ ?s ?r with _ => _ end] =>
           destruct (match_ s r)
         | |- context [match ?d with DArray _ => _ | _ => _ end] =>
           destruct d
         | |- context [bind ?x _] => destruct x; simpl
         end;
    intros H; inversion H; reflexivity.
Qed.

Lemma run_segments_read_only (ctx : Ctx) (segs : list jstring)
      (st st' : data * list effect) :
  forallb (fun seg => negb (startsWith seg (u "http.post"))) segs = true ->
  run_segments segs ctx st = Ok st' -> snd st' = snd st.
Proof.
  revert st; induction segs as [|seg segs IH]; intros st Hro H; simpl in *.
  - now inversion H.
  - apply andb_true_iff in Hro as [Hs Hro]. apply negb_true_iff in Hs.
    destruct (step ctx st seg) as [st1|e] eqn:E; simpl in H; [|discriminate].
    rewrite (IH _ Hro H). exact (step_read_only Hs E).
Qed.

Lemma calls_made_read_only (ctx : Ctx) (segs : list jstring)
      (st : data * list effect) :
  forallb (fun seg => negb (startsWith seg (u "http.post"))) segs = true ->
  calls_made segs ctx st = snd st.
Proof.
  revert st; induction segs as [|seg segs IH]; intros st Hro; simpl in *.
  - reflexivity.
  - apply andb_true_iff in Hro as [Hs Hro]. apply negb_true_iff in Hs.
    destruct (step ctx st seg) as [st1|e] eqn:E; [|reflexivity].
    rewrite (IH _ Hro). exact (step_read_only Hs E).
Qed.

(** A run that ends with a result has made the calls it returns. *)
Lemma calls_made_ok (ctx : Ctx) (segs : list jstring)
      (st st' : data * list effect) :
  run_segments segs ctx st = Ok st' -> calls_made segs ctx st = snd st'.
Proof.
  revert st; induction segs as [|seg segs IH]; intros st H; simpl in *.
  - now inversion H.
  - destruct (step ctx st seg) as [st1|e]; simpl in H; [|discriminate].
    now apply IH.
Qed.

End SegmentFacts.

(* ================================================================== *)
(** * Filters *)

Section FilterFacts.

Lemma evaluateFilter_in (ctx : Ctx) (field name : jstring)
      (item : Runtime.item) :
  no_space field -> no_space name ->
  evaluateFilter (field ++ u " in ?q." ++ name) item ctx
  = Ok (keeps_in ctx field name item).
Proof.
  intros Hf Hn.
  assert (Hq : no_space (u "?q." ++ name))
    by (apply no_space_app; [reflexivity|exact Hn]).
  assert (F : find_sub (u " in ") (field ++ u " in ?q." ++ name)
              = Some (field, u "?q." ++ name)).
  { change (u " in ?q." ++ name) with ((32%N :: u "in ") ++ u "?q." ++ name).
    apply find_sub_first. now apply no_space_neq. }
  assert (S : split (field ++ u " in ?q." ++ name) (u " in ")
              = [field; u "?q." ++ name]).
  { change (u " in ?q." ++ name) with ((32%N :: u "in ") ++ u "?q." ++ name).
    apply split_two; [now apply no_space_neq|].
    apply find_sub_absent. now apply no_space_neq. }
  unfold evaluateFilter, includes. rewrite F, S. cbn [nth].
  rewrite (trim_no_space Hf), (trim_no_space Hq).
  unfold replace. rewrite find_sub_here. reflexivity.
Qed.

Lemma filter_items_in (ctx : Ctx) (field name : jstring)
      (items : list Runtime.item) :
  no_space field -> no_space name ->
  filter_items (field ++ u " in ?q." ++ name) items ctx
  = Ok (filter (keeps_in ctx field name) items).
Proof.
  intros Hf Hn. induction items as [|item items IH]; [reflexivity|].
  cbn [filter_items filter]. rewrite (evaluateFilter_in _ _ Hf Hn), IH.
  cbn [bind]. now destruct (keeps_in ctx field name item).
Qed.

(** C3.  A segment [filter(field in ?q.name)] on a sequence keeps the
    items, in their order, for which the values of the query parameter
    [name] are none at all or include the string form of the item's
    [field]. *)
Theorem filter_in_query (ctx : Ctx) (field name : jstring)
        (items : list Runtime.item) (fx : list effect) :
  no_space field -> no_space name ->
  step ctx (DArray items, fx)
       (u "filter(" ++ (field ++ u " in ?q." ++ name) ++ u ")")
  = Ok (DArray (filter (keeps_in ctx field name) items), fx)
  /\ (forall item,
         In item (filter (keeps_in ctx field name) items)
         <-> In item items
             /\ (getAll (searchParams ctx) name = []
                 \/ In (ToString (get item field))
                       (getAll (searchParams ctx) name))).
Proof.
  intros Hf Hn. split.
  - rewrite step_filter.
    + now rewrite (filter_items_in _ _ Hf Hn).
    + destruct field; discriminate.
    + rewrite forallb_app, (no_space_dot Hf), forallb_app.
      now rewrite (no_space_dot Hn).
  - intros item. rewrite filter_In. unfold keeps_in.
    rewrite orb_true_iff, arr_includes_In.
    destruct (getAll (searchParams ctx) name); intuition congruence.
Qed.

(** The specification's example: A with status 1, B with status 2. *)
Lemma filter_in_query_witness :
  step (query_ctx []) (DArray [status_item "A" 1; status_item "B" 2], [])
       (u "filter(status in ?q.s)")
  = Ok (DArray [status_item "A" 1; status_item "B" 2], [])
  /\ step (query_ctx [(u "s", u "2")])
          (DArray [status_item "A" 1; status_item "B" 2], [])
          (u "filter(status in ?q.s)")
     = Ok (DArray [status_item "B" 2], []).
Proof.
  split.
  - destruct (@filter_in_query (query_ctx []) (u "status") (u "s")
                [status_item "A" 1; status_item "B" 2] [])
      as [H _]; [reflexivity|reflexivity|].
    etransitivity; [exact H|]. vm_compute. reflexivity.
  - destruct (@filter_in_query (query_ctx [(u "s", u "2")])
                (u "status") (u "s")
                [status_item "A" 1; status_item "B" 2] [])
      as [H _]; [reflexivity|reflexivity|].
    etransitivity; [exact H|]. vm_compute. reflexivity.
Defined.

End FilterFacts.

(* ================================================================== *)
(** * Preconditions *)

Section PreconditionFacts.

(** C2 (counterexample).  The first path variable of [/swap/{U2}/{U1}] is
    [U2]; the item under [j:job2] has [U4 = 2], which is among [2,3], yet
    the segment fails: the interpreter looks under [j:job1]. *)
Lemma precondition_first_variable_counterexample :
  ~ precondition_by_first_variable.
Proof.
  intros H.
  specialize (H swap_ctx (u "U4 in [2,3]")
                [(Idx 2, u "2,3"); (Idx 1, u "U4")] (DUndefined, [])).
  assert (E : step swap_ctx (DUndefined, []) (u "req(U4 in [2,3])")
              = Err (PreconditionFailed (u "U4 in [2,3]")))
    by (vm_compute; reflexivity).
  change (u "req(" ++ u "U4 in [2,3]" ++ u ")")
    with (u "req(U4 in [2,3])") in H.
  rewrite E in H.
  assert (X : Err (PreconditionFailed (u "U4 in [2,3]"))
              = @Ok (data * list effect) (DUndefined, [])).
  { etransitivity; [apply H; vm_compute; (reflexivity || discriminate)|].
    vm_compute. reflexivity. }
  discriminate X.
Qed.

Lemma evaluatePrecondition_spec (ctx : Ctx) (cond : jstring) (m : caps) :
  match_ cond re_precondition = Some m ->
  evaluatePrecondition cond ctx
  = Ok match Runtime.kvGet (runtime ctx)
                           (u "j:" ++ ToString (pathVar ctx (u "U1"))) with
       | None => false
       | Some item =>
         arr_includes (map trim (split (group m 2) (u ",")))
                      (ToString (get item (group m 1)))
       end.
Proof.
  intros H. unfold evaluatePrecondition. rewrite H.
  now destruct (Runtime.kvGet _ _).
Qed.

(** C2 (amended).  A segment [req(cond)] whose condition has the shape
    [<field> ... [v1,v2,...]] fetches the item under ["j:"] followed by the
    value of the path variable named [U1], wherever that variable stands in
    the path; if there is no item under that key, or the field's string
    form is not among the listed values, the whole pipeline fails with the
    precondition error and no result; otherwise the pipeline goes on with
    the segments after it, the current value being what it was. *)
Theorem precondition_on_U1 (ctx : Ctx) (pre post : list jstring)
        (cond : jstring) (m : caps) (st0 st : data * list effect) :
  cond <> [] -> forallb (cls_mem dot) cond = true ->
  match_ cond re_precondition = Some m ->
  run_segments pre ctx st0 = Ok st ->
  run_segments (pre ++ (u "req(" ++ cond ++ u ")") :: post) ctx st0
  = match Runtime.kvGet (runtime ctx)
                        (u "j:" ++ ToString (pathVar ctx (u "U1"))) with
    | None => Err (PreconditionFailed cond)
    | Some item =>
      if arr_includes (map trim (split (group m 2) (u ",")))
                      (ToString (get item (group m 1)))
      then run_segments post ctx st
      else Err (PreconditionFailed cond)
    end.
Proof.
  intros Hne Hdot Hm Hpre.
  rewrite (run_segments_app _ Hpre). cbn [run_segments].
  rewrite (step_req _ _ Hne Hdot), (evaluatePrecondition_spec _ Hm).
  cbn [bind]. destruct (Runtime.kvGet _ _) as [item|]; [|reflexivity].
  now destruct (arr_includes _ _).
Qed.

Lemma precondition_on_U1_witness :
  run_segments [uq "kv.get(`j:`+U1)"; u "req(U4 in [2,3])"; u "page(1)"]
               (go_ctx "job2") (DUndefined, [])
  = Ok (DItem (job 2 14 (demo_now 2)), [])
  /\ run_segments [uq "kv.get(`j:`+U1)"; u "req(U4 in [2,3])"; u "page(1)"]
                  (go_ctx "job1") (DUndefined, [])
     = Err (PreconditionFailed (u "U4 in [2,3]"))
  /\ run_segments [uq "kv.get(`j:`+U1)"; u "req(U4 in [2,3])"; u "page(1)"]
                  (go_ctx "job0") (DUndefined, [])
     = Err (PreconditionFailed (u "U4 in [2,3]")).
Proof.
  assert (G : forall id st,
             run_segments [uq "kv.get(`j:`+U1)"] (go_ctx id) (DUndefined, [])
             = Ok st ->
             run_segments
               [uq "kv.get(`j:`+U1)"; u "req(U4 in [2,3])"; u "page(1)"]
               (go_ctx id) (DUndefined, [])
             = match Runtime.kvGet (runtime (go_ctx id))
                       (u "j:" ++ ToString (pathVar (go_ctx id) (u "U1")))
               with
               | None => Err (PreconditionFailed (u "U4 in [2,3]"))
               | Some item =>
                 if arr_includes (map trim (split (u "2,3") (u ",")))
                                 (ToString (get item (u "U4")))
                 then run_segments [u "page(1)"] (go_ctx id) st
                 else Err (PreconditionFailed (u "U4 in [2,3]"))
               end).
  { intros id st Hst.
    apply (@precondition_on_U1 (go_ctx id) [uq "kv.get(`j:`+U1)"]
                              [u "page(1)"] (u "U4 in [2,3]")
                              [(Idx 2, u "2,3"); (Idx 1, u "U4")]
                              (DUndefined, []) st);
      [discriminate|reflexivity|vm_compute; reflexivity|exact Hst]. }
  split; [|split].
  - rewrite (G "job2"%string (DItem (job 2 14 (demo_now 2)), []))
      by (vm_compute; reflexivity).
    vm_compute. reflexivity.
  - rewrite (G "job1"%string (DItem (job 1 7 (demo_now 1)), []))
      by (vm_compute; reflexivity).
    vm_compute. reflexivity.
  - rewrite (G "job0"%string (DUndefined, [])) by (vm_compute; reflexivity).
    vm_compute. reflexivity.
Defined.

End PreconditionFacts.

(* ================================================================== *)
(** * Budget tracking *)

Section BudgetFacts.

Lemma insert_sorted_perm (x : Z) (l : list Z) :
  Permutation (x :: l) (insert_sorted x l).
Proof.
  induction l as [|y l IH]; simpl; [reflexivity|].
  destruct (x <=? y)%Z; [reflexivity|].
  rewrite perm_swap. now constructor.
Qed.

Lemma sort_asc_perm (l : list Z) : Permutation l (sort_asc l).
Proof.
  induction l as [|x l IH]; simpl; [constructor|].
  rewrite <- insert_sorted_perm. now constructor.
Qed.

Lemma insert_sorted_hd (x a : Z) (l : list Z) :
  (a <= x)%Z -> HdRel Z.le a l -> HdRel Z.le a (insert_sorted x l).
Proof.
  intros Hax H. destruct l as [|y l]; simpl; [now constructor|].
  destruct (x <=? y)%Z; constructor; [exact Hax|now inversion H].
Qed.

Lemma insert_sorted_sorted (x : Z) (l : list Z) :
  Sorted Z.le l -> Sorted Z.le (insert_sorted x l).
Proof.
  induction 1 as [|y l Hs IH Hh]; simpl; [repeat constructor|].
  destruct (Z.leb_spec x y).
  - constructor; [now constructor|now constructor].
  - constructor; [exact IH|]. apply insert_sorted_hd; [lia|exact Hh].
Qed.

(** [sort_asc] is the ascending arrangement of the history. *)
Lemma sort_asc_sorted (l : list Z) : Sorted Z.le (sort_asc l).
Proof.
  induction l as [|x l IH]; simpl; [constructor|].
  now apply insert_sorted_sorted.
Qed.

(** A completed request leaves its latency at the end of the history of
    the route that served it, and a warning is logged for exactly the
    budgets whose percentile value, read at [rank_index], exceeds the
    threshold. *)
Lemma budget_logs_iff (mth : jstring) (r : Route) (entry : log) :
  In entry (budget_logs mth r)
  <-> exists b v,
      In b (budgets r) /\ pVal (latencies r) b = Some v
      /\ (threshold b < v)%Z
      /\ entry = BudgetViolation mth (path r) (percentile b) v (threshold b).
Proof.
  unfold budget_logs. rewrite in_flat_map. split.
  - intros [b [Hb H]]. destruct (pVal (latencies r) b) as [v|] eqn:E;
      [|destruct H].
    destruct (Z.ltb_spec (threshold b) v); [|destruct H].
    destruct H as [<-|[]]. exists b, v. auto.
  - intros (b & v & Hb & Hv & Hlt & ->). exists b. split; [exact Hb|].
    rewrite Hv. apply Z.ltb_lt in Hlt. rewrite Hlt. now left.
Qed.

Lemma serve_route_appends ast rt done r rest rq m d result fx :
  executePipeline (segments r)
    {| runtime := rt; pathVars := groups m; searchParams := query rq |}
  = Ok (result, fx) ->
  exists r',
    out_compiled (serve_route ast rt done r rest rq m d) = done ++ r' :: rest
    /\ latencies r' = latencies r ++ [d] /\ static r' = static r
    /\ forall entry, In entry (budget_logs (req_method rq) r') ->
                     In entry (out_logs (serve_route ast rt done r rest rq
                                                     m d)).
Proof.
  intros E. unfold serve_route. rewrite E.
  eexists. destruct (checkProperties ast rt); cbn [out_compiled out_logs];
    (split; [reflexivity|split; [reflexivity|split; [reflexivity|]]]).
  - intros entry H. apply in_or_app. now left.
  - intros entry H. exact H.
Qed.

(** For the percentiles in common use and histories of up to a thousand
    entries, the index computed in doubles is the nearest-rank index. *)
Lemma rank_index_common_percentiles :
  forallb
    (fun p =>
       forallb
         (fun n =>
            match rank_index p n with
            | Some i => (Z.max 0 i =? nearest_rank_exact p n)%Z
            | None => false
            end)
         (seq 1 1000))
    [50; 75; 90; 95; 99; 100]%Z
  = true.
Proof. vm_compute. reflexivity. Qed.

(** The history of the specification's example. *)
Lemma budget_example_p90 :
  pVal [10; 20; 30; 40; 50]%Z {| percentile := 90; threshold := 45 |}
  = Some 50%Z
  /\ In (BudgetViolation (u "GET") (u "/j") 90 50 45)
        (last_logs (budget_server (u "!p90<45ms"))
                   (durations [10; 20; 30; 40; 50]%Z)).
Proof. split; [reflexivity|]. vm_compute. left. reflexivity. Qed.

(** C1 (evaluation at the failing input).  A route with the budget
    [!p7<7ms] serves one hundred requests that take 1, 2, ..., 100 ms.  On
    the hundredth, [(7 / 100) * 100] is [7.000000000000001] in doubles, so
    the handler reads the sorted history at index 7 and reports a violation
    with the value 8; the nearest-rank index [ceil(7/100 × 100) − 1] is 6,
    where the history holds 7, which does not exceed the threshold. *)
Theorem budget_p7_after_100_requests :
  let b := {| percentile := 7; threshold := 7 |} in
  rank_index 7 100 = Some 7%Z
  /\ nearest_rank_exact 7 100 = 6%Z
  /\ pVal (one_to 100) b = Some 8%Z
  /\ nth_error (sort_asc (one_to 100))
               (Z.to_nat (nearest_rank_exact 7 100)) = Some 7%Z
  /\ last_logs (budget_server (u "!p7<7ms")) (durations (one_to 100))
     = [ BudgetViolation (u "GET") (u "/j") 7 8 7;
         SuggestionInfo {| route := u "/j"; suggestion := add_page_text |} ].
Proof. repeat split; vm_compute; reflexivity. Qed.

End BudgetFacts.

(* ================================================================== *)
(** * The property checker *)

Section PropertyFacts.

Lemma scanPrefix_ok (ast : Ast) :
  routes ast <> Some [] -> exists p, scanPrefix ast = Ok p.
Proof.
  intros H. unfold scanPrefix.
  destruct (routes ast) as [[|[id r] rs]|]; [contradiction| |eauto].
  destruct (nth_error _ 1); [|eauto].
  destruct (startsWith _ _); [|eauto].
  destruct (match_ _ _); eauto.
Qed.

Lemma check_property_ok (ast : Ast) (rt : Runtime.t) (prop : jstring) :
  routes ast <> Some [] -> exists b, check_property ast rt prop = Ok b.
Proof.
  intros H. destruct (scanPrefix_ok H) as [p Hp].
  unfold check_property, check_cmp, check_mono. rewrite Hp.
  destruct (match_ prop re_cmp); simpl.
  - destruct (cmp_items _ _ _ _); [|eauto].
    destruct (match_ prop re_mono); simpl; eauto.
  - destruct (match_ prop re_mono); simpl; eauto.
Qed.

Lemma checkProperties_ok (ast : Ast) (rt : Runtime.t) :
  routes ast <> Some [] -> exists b, checkProperties ast rt = Ok b.
Proof.
  intros H. unfold checkProperties.
  destruct (properties ast) as [props|]; [|eauto].
  induction props as [|[id prop] props IH]; simpl; [eauto|].
  destruct (check_property_ok rt prop H) as [b ->]. simpl.
  destruct b; eauto.
Qed.

Lemma cmp_items_forallb field op threshold items :
  cmp_items field op threshold items
  = forallb (cmp_item_ok field op threshold) items.
Proof.
  induction items as [|item items IH]; simpl; [reflexivity|].
  unfold cmp_item_ok at 1.
  destruct (is_undefined (get item field)); simpl; [exact IH|].
  destruct (isNaN (ToNumber (get item field))); simpl; [reflexivity|].
  destruct (cmp_holds op _ threshold); simpl; [exact IH|reflexivity].
Qed.

Lemma mono_items_forallb field allowed items :
  mono_items field allowed items
  = forallb (mono_item_ok field allowed) items.
Proof.
  induction items as [|item items IH]; simpl; [reflexivity|].
  unfold mono_item_ok at 1.
  destruct (is_undefined (get item field)); simpl; [exact IH|].
  destruct (arr_includes allowed _); simpl; [exact IH|reflexivity].
Qed.

Lemma is_undefined_false (v : value) :
  is_undefined v = false <-> v <> VUndefined.
Proof. destruct v; simpl; split; congruence. Qed.

Lemma cmp_item_ok_false field op threshold item :
  cmp_item_ok field op threshold item = false ->
  get item field <> VUndefined.
Proof.
  unfold cmp_item_ok. intros H. apply orb_false_iff in H as [H _].
  now apply is_undefined_false.
Qed.

Lemma mono_item_ok_false field allowed item :
  mono_item_ok field allowed item = false -> get item field <> VUndefined.
Proof.
  unfold mono_item_ok. intros H. apply orb_false_iff in H as [H _].
  now apply is_undefined_false.
Qed.

Lemma check_property_false (ast : Ast) (rt : Runtime.t) (prop : jstring) :
  check_property ast rt prop = Ok false ->
  exists pfx item,
    scanPrefix ast = Ok pfx /\ In item (Runtime.kvScan rt pfx)
    /\ breaks ast prop item.
Proof.
  unfold check_property, check_cmp, check_mono, breaks.
  destruct (match_ prop re_cmp) as [m1|] eqn:E1.
  - destruct (scanPrefix ast) as [pfx|e]; simpl; [|discriminate].
    rewrite cmp_items_forallb.
    destruct (forallb _ _) eqn:F.
    + destruct (match_ prop re_mono) as [m2|] eqn:E2; simpl; [|discriminate].
      rewrite mono_items_forallb. intros H. injection H as H.
      destruct (forallb_false_witness H) as [item [Hin Hf]].
      exists pfx, item. repeat split; [exact Hin|]. right.
      exists m2. repeat split; [|exact Hf].
      exact (mono_item_ok_false Hf).
    + intros _. destruct (forallb_false_witness F) as [item [Hin Hf]].
      exists pfx, item. repeat split; [exact Hin|]. left.
      exists m1. repeat split; [|exact Hf].
      exact (cmp_item_ok_false Hf).
  - simpl. destruct (match_ prop re_mono) as [m2|] eqn:E2; [|discriminate].
    destruct (scanPrefix ast) as [pfx|e]; simpl; [|discriminate].
    rewrite mono_items_forallb. intros H. injection H as H.
    destruct (forallb_false_witness H) as [item [Hin Hf]].
    exists pfx, item. repeat split; [exact Hin|]. right.
    exists m2. repeat split; [|exact Hf].
    exact (mono_item_ok_false Hf).
Qed.





Lemma nonneg_check (rt : Runtime.t) :
  checkProperties nonneg_ast rt
  = Ok (cmp_items (u "U3") (u ">=") (Fin (inject_Z 0))
                  (Runtime.kvScan rt (u "j:"))).
Proof.
  unfold checkProperties, nonneg_ast. cbn [properties check_all].
  unfold check_property, check_cmp, check_mono.
  replace (match_ (u "U3(x) >= 0") re_cmp)
    with (Some [(Idx 3, u "0"); (Idx 2, u ">="); (Idx 1, u "3")])
    by (vm_compute; reflexivity).
  replace (match_ (u "U3(x) >= 0") re_mono) with (@None caps)
    by (vm_compute; reflexivity).
  replace (scanPrefix _) with (Ok (u "j:")) by (vm_compute; reflexivity).
  cbn [bind].
  match goal with
  | |- context [if ?X then _ else _] =>
    match goal with
    | |- _ = Ok ?Y => change X with Y; destruct Y
    end
  end; reflexivity.
Qed.

(** C4 (counterexample).  The first route has a [kv.scan("k:")] segment,
    after a [req] segment; the checker scans with the default [j:]. *)
Lemma scan_prefix_counterexample : ~ scan_prefix_by_first_scan_segment.
Proof.
  intros H.
  specialize (H late_scan_ast (u "R1")
                (uq "GET /k/{U1} -> M1 :: req(U4 in [2,3]) | kv.scan(`k:`)")
                [] (uq "kv.scan(`k:`)") [(Idx 1, u "k:")] eq_refl).
  assert (X : scanPrefix late_scan_ast = Ok (u "k:"))
    by (apply H; vm_compute; reflexivity).
  vm_compute in X. discriminate X.
Qed.

(** C4 (amended).  The prefix is resolved in one way for every property,
    from the first declared route alone: when that route's pipeline begins
    with a stage [kv.scan("P")] (and holds no double quote after it), [P] is
    used; when the pipeline begins with anything else — a [kv.scan] stage
    further down does not count — or the program has no route table, the
    default [j:] is used. *)
Theorem scan_prefix_resolution :
  (forall ast, routes ast = None -> scanPrefix ast = Ok (u "j:"))
  /\ (forall ast id pathPart pipeline rest,
         routes ast = Some ((id, pathPart ++ u "::" ++ pipeline) :: rest) ->
         Forall (fun c => c <> 58%N) pathPart ->
         includes pipeline (u "::") = false ->
         (startsWith (trim pipeline) (u "kv.scan") = false ->
          scanPrefix ast = Ok (u "j:"))
         /\ (forall P tail,
                trim pipeline = uq "kv.scan(`" ++ P ++ uq "`)" ++ tail ->
                forallb (cls_mem dot) P = true ->
                Forall (fun c => c <> 34%N) tail ->
                scanPrefix ast = Ok P))
  /\ (forall ast rt prop m,
         match_ prop re_cmp = Some m ->
         check_cmp ast rt prop
         = let* prefix := scanPrefix ast in
           Ok (cmp_items (u "U" ++ group m 1) (normalise (group m 2))
                         (Fin (inject_Z (parseDigits (group m 3))))
                         (Runtime.kvScan rt prefix)))
  /\ (forall ast rt prop m,
         match_ prop re_mono = Some m ->
         check_mono ast rt prop
         = let* prefix := scanPrefix ast in
           Ok (mono_items (group m 1) (allowed_of ast m)
                          (Runtime.kvScan rt prefix))).
Proof.
  split; [|split; [|split]].
  - intros ast H. unfold scanPrefix. now rewrite H.
  - intros ast id pathPart pipeline rest Hr Hpp Hpl.
    assert (E : scanPrefix ast
                = if startsWith (trim pipeline) (u "kv.scan")
                  then match match_ (trim pipeline) re_kv_scan with
                       | Some m => Ok (group m 1)
                       | None => Ok (u "j:")
                       end
                  else Ok (u "j:")).
    { unfold scanPrefix. rewrite Hr.
      pose proof (@split_two 58%N [58%N] pathPart pipeline Hpp
                             (includes_false Hpl)) as S.
      change (58%N :: [58%N]) with (u "::") in S. rewrite S.
      reflexivity. }
    split.
    + intros Hs. now rewrite E, Hs.
    + intros P tail Ht HP Htail. rewrite E, Ht.
      rewrite (match_kv_scan HP Htail).
      change (uq "kv.scan(`") with (u "kv.scan" ++ uq "(`").
      now rewrite <- app_assoc, startsWith_app.
  - intros ast rt prop m H. unfold check_cmp. now rewrite H.
  - intros ast rt prop m H. unfold check_mono, allowed_of. now rewrite H.
Qed.

Lemma scan_prefix_resolution_witness :
  scanPrefix late_scan_ast = Ok (u "j:")
  /\ scanPrefix early_scan_ast = Ok (u "k:").
Proof.
  destruct scan_prefix_resolution as (_ & H & _).
  assert (R1 : routes late_scan_ast
               = Some [(u "R1", u "GET /k/{U1} -> M1 " ++ u "::"
                                  ++ uq " req(U4 in [2,3]) | kv.scan(`k:`)")])
    by (vm_compute; reflexivity).
  assert (R2 : routes early_scan_ast
               = Some [(u "R1", u "GET /k -> [M1] " ++ u "::"
                                  ++ uq " kv.scan(`k:`) | page(5)")])
    by (vm_compute; reflexivity).
  split.
  - apply (H _ _ _ _ _ R1).
    + apply Forall_neq_b; vm_compute; reflexivity.
    + vm_compute; reflexivity.
    + vm_compute; reflexivity.
  - apply (H _ _ _ _ _ R2) with (tail := u " | page(5)").
    + apply Forall_neq_b; vm_compute; reflexivity.
    + vm_compute; reflexivity.
    + vm_compute; reflexivity.
    + vm_compute; reflexivity.
    + apply Forall_neq_b; vm_compute; reflexivity.
Defined.

(** ** Numbers read from field values *)


















(** C10.  When the checker returns false, some declared property and some
    scanned item that has the property's field are at fault; and both loops
    over the scanned items give the same verdict as on the items that have
    the field: an item without it is passed over. *)
Theorem absent_field_is_skipped :
  (forall ast rt props,
      properties ast = Some props ->
      checkProperties ast rt = Ok false ->
      exists id prop pfx item,
        In (id, prop) props /\ scanPrefix ast = Ok pfx
        /\ In item (Runtime.kvScan rt pfx) /\ breaks ast prop item)
  /\ (forall field op threshold items,
         cmp_items field op threshold items
         = cmp_items field op threshold
             (filter (fun item => negb (is_undefined (get item field)))
                     items))
  /\ (forall field allowed items,
         mono_items field allowed items
         = mono_items field allowed
             (filter (fun item => negb (is_undefined (get item field)))
                     items)).
Proof.
  split; [|split].
  - intros ast rt props Hp. unfold checkProperties. rewrite Hp. clear Hp.
    induction props as [|[id prop] props IH]; simpl; [discriminate|].
    destruct (check_property ast rt prop) as [[|]|e] eqn:E; simpl.
    + intros H. destruct (IH H) as (id' & prop' & pfx & item & Hin & Hrest).
      exists id', prop', pfx, item. split; [now right|exact Hrest].
    + intros _.
      destruct (check_property_false E) as (pfx & item & H1 & H2 & H3).
      exists id, prop, pfx, item. split; [now left|]. auto.
    + discriminate.
  - intros field op threshold items.
    induction items as [|item items IH]; simpl; [reflexivity|].
    destruct (is_undefined (get item field)) eqn:U; simpl; [exact IH|].
    rewrite U, IH. reflexivity.
  - intros field allowed items.
    induction items as [|item items IH]; simpl; [reflexivity|].
    destruct (is_undefined (get item field)) eqn:U; simpl; [exact IH|].
    rewrite U, IH. reflexivity.
Qed.

Lemma absent_field_is_skipped_witness :
  (exists id prop pfx item,
      In (id, prop) [(u "P1", u "U3(x) >= 0")]
      /\ scanPrefix nonneg_ast = Ok pfx
      /\ In item (Runtime.kvScan store_partial pfx)
      /\ breaks nonneg_ast prop item)
  /\ checkProperties nonneg_ast
       (Runtime.kvSet store_ok (u "j:e") [(u "U1", VStr (u "e"))])
     = Ok true.
Proof.
  destruct absent_field_is_skipped as (Hfalse & Hskip & _).
  split.
  - apply (Hfalse nonneg_ast store_partial); [reflexivity|].
    vm_compute. reflexivity.
  - rewrite nonneg_check, Hskip. vm_compute. reflexivity.
Defined.

End PropertyFacts.

(* ================================================================== *)
(** * The optimisation advisor *)

Section AdvisorFacts.

Lemma suggest_loop_app (compiled : list Route) (acc : list Suggestion) :
  suggest_loop compiled acc = acc ++ flat_map suggest_route compiled.
Proof.
  revert acc; induction compiled as [|r rs IH]; intros acc; simpl.
  - now rewrite app_nil_r.
  - now rewrite IH, app_assoc.
Qed.

Lemma serve_static (ast : Ast) (rt : Runtime.t) (todo done : list Route)
      (rq : Request) (d : Z) :
  map static (out_compiled (serve ast rt done todo rq d))
  = map static (done ++ todo).
Proof.
  revert done; induction todo as [|r rest IH]; intros done; simpl.
  - now rewrite app_nil_r.
  - assert (E : map static ((done ++ [r]) ++ rest)
                = map static (done ++ r :: rest))
      by now rewrite <- app_assoc.
    destruct (negb (jstr_eqb (method r) (req_method rq)));
      [now rewrite IH|].
    destruct (match_ (pathname rq) (regex r)) as [m|]; [|now rewrite IH].
    unfold serve_route.
    destruct (executePipeline _ _) as [[res fx]|e]; [|reflexivity].
    destruct (checkProperties ast rt); simpl;
      rewrite !map_app; reflexivity.
Qed.

(** C7.  The advisor returns, route by route and in order, what each route
    contributes: nothing for a route without budgets; for a budgeted route
    exactly one suggestion, of text
    [Add page(50) to limit results and improve latency.], when no segment
    is a [page(] call; exactly one suggestion when its page segment
    [page(n)] has [n > 50], of text
    [Reduce page size from n to 50 to meet latency budget.] for sizes up
    to [2^53], which a number holds exactly; and nothing when [n <= 50].
    The analysis is a function of the compiled routes that yields
    suggestions only, and the handler that runs it leaves method, path,
    matcher, segments and budgets of every route as they were. *)
Theorem advisor_suggestions :
  (forall ast compiled,
      suggestOptimizations ast compiled = flat_map suggest_route compiled)
  /\ (forall r, budgets r = [] -> suggest_route r = [])
  /\ (forall r,
         budgets r <> [] ->
         (forall seg, In seg (segments r) ->
                      startsWith seg (u "page(") = false) ->
         suggest_route r
         = [{| route := path r;
               suggestion :=
                 u "Add page(50) to limit results and improve latency." |}])
  /\ (forall r pre ds post,
         budgets r <> [] ->
         segments r = pre ++ (u "page(" ++ ds ++ u ")") :: post ->
         (forall seg, In seg pre -> startsWith seg (u "page(") = false) ->
         ds <> [] -> forallb is_digit ds = true ->
         ((parseDigits ds <= 50)%Z -> suggest_route r = [])
         /\ ((50 < parseDigits ds <= 2 ^ 53)%Z ->
             suggest_route r
             = [{| route := path r;
                   suggestion :=
                     u "Reduce page size from "
                       ++ Z_toString (parseDigits ds)
                       ++ u " to 50 to meet latency budget." |}])
         /\ ((50 < parseDigits ds)%Z ->
             exists text,
               suggest_route r
               = [{| route := path r; suggestion := text |}]))
  /\ (forall sv rq d,
         map static (out_compiled (handle sv rq d))
         = map static (sv_compiled sv)).
Proof.
  split; [|split; [|split; [|split]]].
  - intros ast compiled. unfold suggestOptimizations.
    now rewrite suggest_loop_app.
  - intros r H. unfold suggest_route. now rewrite H.
  - intros r Hb Hs. unfold suggest_route.
    destruct (budgets r); [contradiction|].
    now rewrite (find_none_iff Hs).
  - intros r pre ds post Hb Hs Hpre Hne Hd.
    assert (E : suggest_route r
                = if (50 <? parseDigits ds)%Z
                  then [{| route := path r;
                           suggestion := reduce_page_text (parseDigits ds) |}]
                  else []).
    { unfold suggest_route.
      destruct (budgets r); [contradiction|].
      rewrite Hs, (find_first _ Hpre) by apply startsWith_app.
      rewrite (match_page_digits Hne Hd). reflexivity. }
    rewrite E. split; [|split].
    + intros H. apply Z.ltb_ge in H. now rewrite H.
    + intros [H _]. apply Z.ltb_lt in H. now rewrite H.
    + intros H. apply Z.ltb_lt in H. rewrite H. now eexists.
  - intros sv rq d. unfold handle. now rewrite serve_static.
Qed.

(** The three routes of the specification's example: no page segment,
    [page(100)] and [page(10)]. *)
Lemma advisor_suggestions_witness :
  suggest_route (budgeted_route [uq "kv.scan(`j:`)"])
  = [{| route := u "/j";
        suggestion :=
          u "Add page(50) to limit results and improve latency." |}]
  /\ suggest_route (budgeted_route [uq "kv.scan(`j:`)"; u "page(100)"])
     = [{| route := u "/j";
           suggestion :=
             u "Reduce page size from 100 to 50 to meet latency budget." |}]
  /\ suggest_route (budgeted_route [uq "kv.scan(`j:`)"; u "page(10)"]) = [].
Proof.
  destruct advisor_suggestions as (_ & _ & Hadd & Hpage & _).
  split; [|split].
  - apply Hadd; [discriminate|].
    intros seg [<-|[]]. reflexivity.
  - destruct (Hpage (budgeted_route [uq "kv.scan(`j:`)"; u "page(100)"])
                    [uq "kv.scan(`j:`)"] (u "100") [])
      as (_ & H & _);
      [discriminate|reflexivity| |discriminate|reflexivity|].
    + intros seg [<-|[]]. reflexivity.
    + rewrite H by (vm_compute; split; [reflexivity|discriminate]).
      vm_compute. reflexivity.
  - destruct (Hpage (budgeted_route [uq "kv.scan(`j:`)"; u "page(10)"])
                    [uq "kv.scan(`j:`)"] (u "10") [])
      as (H & _);
      [discriminate|reflexivity| |discriminate|reflexivity|].
    + intros seg [<-|[]]. reflexivity.
    + apply H. vm_compute. discriminate.
Defined.

End AdvisorFacts.

(* ================================================================== *)
(** * The dispatcher *)

Section DispatchFacts.

(** Every reachable state serves the program it was started with, and has
    one compiled route for each declared route. *)
Lemma reachable_inv (dict : Dictionary) (ast : Ast) (sv : Server) :
  reachable dict ast sv ->
  sv_ast sv = ast
  /\ exists specs, routes ast = Some specs
                   /\ length (sv_compiled sv) = length specs.
Proof.
  induction 1 as [rnd now sv H | sv rq d _ [IHa [specs [IHr IHl]]]].
  - unfold run, compile in H.
    destruct (routes ast) as [specs|] eqn:R; simpl in H; [|discriminate].
    destruct (compile_specs dict specs) as [compiled|e] eqn:C; simpl in H;
      [|discriminate].
    inversion H; subst; simpl. split; [reflexivity|].
    exists specs. split; [reflexivity|]. exact (compile_specs_length C).
  - simpl. split; [exact IHa|]. exists specs. split; [exact IHr|].
    rewrite <- IHl.
    rewrite <- (length_map static (out_compiled (handle sv rq d))).
    rewrite <- (length_map static (sv_compiled sv)).
    f_equal. unfold handle. now rewrite serve_static.
Qed.

Lemma serve_answer (ast : Ast) (rt : Runtime.t) (todo done : list Route)
      (rq : Request) (d : Z) :
  let o := serve ast rt done todo rq d in
  (out_response o, out_effects o) = answer ast rt todo rq.
Proof.
  revert done; induction todo as [|r rest IH]; intros done; simpl;
    [reflexivity|].
  destruct (negb (jstr_eqb (method r) (req_method rq))); [apply IH|].
  destruct (match_ (pathname rq) (regex r)) as [m|]; [|apply IH].
  unfold serve_route.
  destruct (executePipeline _ _) as [[res fx]|e]; [|reflexivity].
  destruct (checkProperties ast rt); reflexivity.
Qed.

Lemma answer_static (ast : Ast) (rt : Runtime.t) (t1 t2 : list Route)
      (rq : Request) :
  map static t1 = map static t2 -> answer ast rt t1 rq = answer ast rt t2 rq.
Proof.
  revert t2; induction t1 as [|r1 t1 IH]; intros [|r2 t2] H; simpl in H;
    try discriminate; [reflexivity|].
  inversion H as [[Hm Hp Hr Hs Hb Ht]]. simpl.
  rewrite Hm, Hr, Hs, (IH _ Ht). reflexivity.
Qed.

Lemma answer_skip (ast : Ast) (rt : Runtime.t) (done todo : list Route)
      (rq : Request) :
  (forall r, In r done ->
             method r <> req_method rq
             \/ match_ (pathname rq) (regex r) = None) ->
  answer ast rt (done ++ todo) rq = answer ast rt todo rq.
Proof.
  induction done as [|r done IH]; intros H; simpl; [reflexivity|].
  rewrite IH by (intros r' Hr'; apply H; now right).
  destruct (H r (or_introl eq_refl)) as [Hm|Hm].
  - apply jstr_eqb_neq in Hm. now rewrite Hm.
  - rewrite Hm. now destruct (negb _).
Qed.

Lemma demo_run_ok : run kv_dict demo_ast demo_rnd demo_now = Ok demo_server.
Proof. vm_compute. reflexivity. Defined.

(** C8.  In a server started by [run], the compiled routes stand in
    declaration order; the handler passes over the routes whose method
    differs from the request's or whose matcher rejects the path, and the
    first route that is left answers: the value its pipeline returns is
    the success payload (status 200), and an error of the pipeline is the
    error payload.  When no route is left the answer is not-found. *)
Theorem dispatch_first_match (dict : Dictionary) (ast : Ast) (sv : Server)
        (rq : Request) (d : Z) :
  reachable dict ast sv ->
  (forall rnd now sv0 specs,
      run dict ast rnd now = Ok sv0 -> routes ast = Some specs ->
      Forall2 (fun spec r => compile_route dict (snd spec) = Ok r)
              specs (sv_compiled sv0))
  /\ ((forall r, In r (sv_compiled sv) ->
                 method r <> req_method rq
                 \/ match_ (pathname rq) (regex r) = None) ->
      out_response (handle sv rq d) = NotFound)
  /\ (forall done r rest m,
         sv_compiled sv = done ++ r :: rest ->
         (forall r', In r' done ->
                     method r' <> req_method rq
                     \/ match_ (pathname rq) (regex r') = None) ->
         method r = req_method rq ->
         match_ (pathname rq) (regex r) = Some m ->
         match executePipeline (segments r)
                 {| runtime := sv_runtime sv; pathVars := groups m;
                    searchParams := query rq |} with
         | Ok (result, _) =>
           out_response (handle sv rq d) = Success result
           /\ statusCode (out_response (handle sv rq d)) = 200%Z
         | Err e => out_response (handle sv rq d) = Failure e
         end).
Proof.
  intros Hreach. split; [|split].
  - intros rnd now sv0 specs Hrun Hroutes. unfold run, compile in Hrun.
    rewrite Hroutes in Hrun. simpl in Hrun.
    destruct (compile_specs dict specs) as [compiled|e] eqn:C; simpl in Hrun;
      [|discriminate].
    inversion Hrun; subst; simpl. clear Hrun Hroutes.
    revert compiled C; induction specs as [|[id spec] specs IH];
      intros compiled C; simpl in C.
    + inversion C. constructor.
    + destruct (compile_route dict spec) as [r|e] eqn:R; simpl in C;
        [|discriminate].
      destruct (compile_specs dict specs) as [rs|e]; simpl in C;
        [|discriminate].
      inversion C. constructor; [exact R|]. now apply IH.
  - intros Hnone.
    pose proof (serve_answer (sv_ast sv) (sv_runtime sv) (sv_compiled sv)
                             [] rq d) as E.
    cbv zeta in E. fold (handle sv rq d) in E.
    rewrite <- (app_nil_r (sv_compiled sv)) in E.
    rewrite (answer_skip _ _ _ Hnone) in E. simpl in E. now inversion E.
  - intros done r rest m Hc Hdone Hm Hp.
    pose proof (serve_answer (sv_ast sv) (sv_runtime sv) (sv_compiled sv)
                             [] rq d) as E.
    cbv zeta in E. fold (handle sv rq d) in E.
    rewrite Hc, (answer_skip _ _ _ Hdone) in E. simpl in E.
    rewrite Hm, jstr_eqb_refl, Hp in E. simpl in E.
    destruct (executePipeline _ _) as [[res fx]|e]; [|now inversion E].
    destruct (reachable_inv Hreach) as [Ha [specs [Hr Hl]]].
    assert (Hne : routes (sv_ast sv) <> Some []).
    { rewrite Ha, Hr. intros X. inversion X; subst.
      rewrite Hc, length_app in Hl. simpl in Hl. lia. }
    destruct (checkProperties_ok (sv_runtime sv) Hne) as [b Hb].
    rewrite Hb in E. inversion E as [[E1 E2]]. rewrite E1. now split.
Qed.

Lemma dispatch_first_match_witness :
  out_response (handle demo_server (request "GET" "/j/job2" []) 5)
  = Success (DItem (job 2 14 (demo_now 2)))
  /\ out_response (handle demo_server (request "PUT" "/j/job2" []) 5)
     = NotFound.
Proof.
  split.
  - destruct (dispatch_first_match (request "GET" "/j/job2" []) 5
                (reach_run demo_run_ok)) as (_ & _ & H).
    specialize (H (firstn 1 (sv_compiled demo_server))
                  (nth 1 (sv_compiled demo_server)
                       (budgeted_route []))
                  (skipn 2 (sv_compiled demo_server))
                  [(Name (u "U1"), u "job2")] eq_refl).
    assert (Hd : forall r', In r' (firstn 1 (sv_compiled demo_server)) ->
                 method r' <> req_method (request "GET" "/j/job2" [])
                 \/ match_ (pathname (request "GET" "/j/job2" []))
                           (regex r') = None).
    { intros r' [<-|[]]. right. vm_compute. reflexivity. }
    specialize (H Hd eq_refl eq_refl).
    vm_compute in H. vm_compute. exact (proj1 H).
  - destruct (dispatch_first_match (request "PUT" "/j/job2" []) 5
                (reach_run demo_run_ok)) as (_ & H & _).
    apply H. intros r Hr. left.
    repeat (destruct Hr as [<-|Hr]; [vm_compute; discriminate|]).
    destruct Hr.
Defined.

End DispatchFacts.

(* ================================================================== *)
(** * Repeated dispatch *)

Section IdempotenceFacts.

Lemma answer_read_only (ast : Ast) (rt : Runtime.t) (todo : list Route)
      (rq : Request) :
  (forall r, In r todo -> method r = req_method rq ->
             match_ (pathname rq) (regex r) <> None -> read_only r = true) ->
  snd (answer ast rt todo rq) = [].
Proof.
  induction todo as [|r rest IH]; intros H; simpl; [reflexivity|].
  assert (IH' : snd (answer ast rt rest rq) = [])
    by (apply IH; intros r' Hr'; apply H; now right).
  destruct (jstr_eqb (method r) (req_method rq)) eqn:Em; simpl;
    [|exact IH'].
  destruct (match_ (pathname rq) (regex r)) as [m|] eqn:Ep; [|exact IH'].
  assert (Hro : read_only r = true).
  { apply H; [now left|now apply jstr_eqb_eq|congruence]. }
  destruct (executePipeline _ _) as [[res fx]|e] eqn:Ex;
    [|exact (calls_made_read_only _ _ Hro)].
  apply (run_segments_read_only Hro) in Ex. simpl in Ex. subst fx.
  now destruct (checkProperties ast rt).
Qed.

Lemma handle_all_answer (sv0 : Server) (rq : Request) (ds : list Z) :
  forall sv,
    sv_ast sv = sv_ast sv0 -> sv_runtime sv = sv_runtime sv0 ->
    map static (sv_compiled sv) = map static (sv_compiled sv0) ->
    sv_runtime (fst (handle_all sv (map (pair rq) ds))) = sv_runtime sv0
    /\ Forall (fun o => (out_response o, out_effects o)
                        = answer (sv_ast sv0) (sv_runtime sv0)
                                 (sv_compiled sv0) rq)
              (snd (handle_all sv (map (pair rq) ds))).
Proof.
  induction ds as [|d ds IH]; intros sv Ha Hr Hs; simpl.
  - split; [exact Hr|constructor].
  - destruct (handle_all (after sv (handle sv rq d)) (map (pair rq) ds))
      as [sv' os] eqn:E.
    destruct (IH (after sv (handle sv rq d))) as [IH1 IH2];
      [exact Ha|exact Hr| |].
    { simpl. unfold handle. now rewrite serve_static. }
    rewrite E in IH1, IH2. simpl in *. split; [exact IH1|].
    constructor; [|exact IH2].
    unfold handle. rewrite serve_answer, Ha, Hr.
    now apply answer_static.
Qed.

(** C9.  A request whose route is read-only is dispatched any number of
    times in a row, whatever the measured durations: the store is the same
    afterwards, no outbound call is made, and every answer is the answer of
    the first dispatch. *)
Theorem repeated_dispatch_read_only (sv : Server) (rq : Request) (d : Z)
        (ds : list Z) :
  (forall r, In r (sv_compiled sv) -> method r = req_method rq ->
             match_ (pathname rq) (regex r) <> None -> read_only r = true) ->
  sv_runtime (fst (handle_all sv (map (pair rq) (d :: ds)))) = sv_runtime sv
  /\ Forall (fun o => out_response o = out_response (handle sv rq d)
                      /\ out_effects o = [])
            (snd (handle_all sv (map (pair rq) (d :: ds)))).
Proof.
  intros Hro.
  destruct (@handle_all_answer sv rq (d :: ds) sv eq_refl eq_refl eq_refl)
    as [H1 H2].
  split; [exact H1|].
  pose proof (answer_read_only (sv_ast sv) (sv_runtime sv) Hro) as Hfx.
  pose proof (serve_answer (sv_ast sv) (sv_runtime sv) (sv_compiled sv)
                           [] rq d) as E.
  cbv zeta in E. fold (handle sv rq d) in E.
  eapply Forall_impl; [|exact H2].
  intros o Ho. cbv beta in Ho. rewrite <- E in Ho.
  injection Ho as Ho1 Ho2. split; [exact Ho1|].
  rewrite Ho2.
  change (out_effects (handle sv rq d))
    with (snd (out_response (handle sv rq d), out_effects (handle sv rq d))).
  rewrite E. exact Hfx.
Qed.

Lemma repeated_dispatch_read_only_witness :
  map out_response
      (snd (handle_all demo_server
              (map (pair (request "GET" "/j" [(u "s", u "2")]))
                   [5; 80; 300]%Z)))
  = let first := out_response
                   (handle demo_server
                           (request "GET" "/j" [(u "s", u "2")]) 5) in
    [first; first; first].
Proof.
  assert (Hro : forall r, In r (sv_compiled demo_server) ->
                method r = req_method (request "GET" "/j" [(u "s", u "2")]) ->
                match_ (pathname (request "GET" "/j" [(u "s", u "2")]))
                       (regex r) <> None ->
                read_only r = true).
  { intros r Hr Hm Hp.
    destruct Hr as [<-|[<-|[<-|[]]]]; try reflexivity.
    vm_compute in Hm. discriminate. }
  destruct (@repeated_dispatch_read_only
              demo_server (request "GET" "/j" [(u "s", u "2")]) 5
              [80; 300]%Z Hro) as [_ H].
  etransitivity; [exact (Forall_map_const H)|].
  vm_compute. reflexivity.
Defined.

End IdempotenceFacts.

(* ================================================================== *)
(** * The examples of the source comments *)

Section SourceExamples.

Lemma parseDigits_fold (ds : jstring) :
  parseDigits ds = fold_left (fun acc c => 10 * acc + digit_val c)%Z ds 0%Z.
Proof. reflexivity. Qed.

Lemma pos_digits_fuel_value (n : nat) :
  forall (p : Z) (acc : jstring),
    (0 < p < 2 ^ Z.of_nat n)%Z ->
    exists k,
      (0 <= k)%Z
      /\ forall a0,
          fold_left (fun acc c => 10 * acc + digit_val c)%Z
                    (pos_digits_fuel n p acc) a0
          = fold_left (fun acc c => 10 * acc + digit_val c)%Z acc
                      (a0 * 10 ^ k + p)%Z.
Proof.
  induction n as [|n IH]; intros p acc Hp.
  - simpl in Hp. lia.
  - cbn [pos_digits_fuel].
    assert (Hd : digit_val (48 + Z.to_N (p mod 10))%N = (p mod 10)%Z).
    { unfold digit_val. rewrite N2Z.inj_add, Z2N.id;
        [change (Z.of_N 48) with 48%Z; lia|].
      apply Z.mod_pos_bound. lia. }
    destruct (Z.eqb_spec (p / 10) 0) as [E|E].
    + exists 1%Z. split; [lia|]. intros a0. cbn [fold_left]. rewrite Hd.
      f_equal. pose proof (Z.div_mod p 10). lia.
    + assert (Hq : (0 < p / 10 < 2 ^ Z.of_nat n)%Z).
      { split.
        - pose proof (Z.div_pos p 10). lia.
        - rewrite Nat2Z.inj_succ, Z.pow_succ_r in Hp by lia.
          apply Z.div_lt_upper_bound; lia. }
      destruct (IH (p / 10)%Z ((48 + Z.to_N (p mod 10))%N :: acc) Hq)
        as [k [Hk H]].
      exists (k + 1)%Z. split; [lia|]. intros a0. rewrite H.
      cbn [fold_left]. rewrite Hd. f_equal.
      rewrite Z.pow_add_r by lia. pose proof (Z.div_mod p 10). lia.
Qed.

(** The decimal rendering of a non-negative integer reads back as that
    integer. *)
Lemma parseDigits_Z_toString (z : Z) :
  (0 <= z)%Z -> parseDigits (Z_toString z) = z.
Proof.
  intros Hz. destruct z as [|p|p]; [reflexivity| |lia].
  unfold Z_toString. rewrite parseDigits_fold.
  destruct (@pos_digits_fuel_value (Pos.to_nat (Pos.size p)) (Zpos p) [])
    as [k [_ H]].
  - split; [lia|]. rewrite positive_nat_Z.
    pose proof (Pos.size_gt p) as G.
    apply Pos2Z.pos_lt_pos in G. now rewrite Pos2Z.inj_pow in G.
  - rewrite H. reflexivity.
Qed.

(** ["GET /j -> [M1]"] and ["GET /j/{U1} -> M1"] *)
Example parsePathPart_examples :
  parsePathPart (u "GET /j -> [M1]")
  = Ok {| pp_method := u "GET"; pp_path := u "/j";
          pp_returnType := u "[M1]" |}
  /\ parsePathPart (u "GET /j/{U1} -> M1")
     = Ok {| pp_method := u "GET"; pp_path := u "/j/{U1}";
             pp_returnType := u "M1" |}
  /\ parsePathPart (u "get /j")
     = Err (InvalidPathPart (u "get /j")).
Proof. repeat split; vm_compute; reflexivity. Qed.

(** ['/j/{U1}'] and ['/jobs/{U1}/photos'] *)
Example buildPathRegex_examples :
  (let* rx := buildPathRegex (u "/j/{U1}") in
   Ok (option_map named (match_ (u "/j/job7") rx),
       option_map named (match_ (u "/j/job7/photos") rx)))
  = Ok (Some [(u "U1", u "job7")], None)
  /\ (let* rx := buildPathRegex (u "/jobs/{U1}/photos") in
      Ok (option_map named (match_ (u "/jobs/42/photos") rx),
          option_map named (match_ (u "/jobs//photos") rx)))
     = Ok (Some [(u "U1", u "42")], None).
Proof. split; vm_compute; reflexivity. Qed.

(** ['"j:"+U1'] and ['"m","/u/"+U1'] *)
Example evaluateExpression_examples :
  evaluateExpression (uq "`j:`+U1") (go_ctx "job2") = u "j:job2"
  /\ parseArgs (uq "`m`,`/u/`+U1") (go_ctx "job2") = [u "m"; u "/u/job2"]
  /\ splitArgs (uq "`a,b`, c,'d,e'") = [uq "`a,b`"; u " c"; u "'d,e'"].
Proof. repeat split; vm_compute; reflexivity. Qed.

(** [U2 ~ ?q.q]: the field contains the query value, whatever the case. *)
Example evaluateFilter_contains :
  evaluateFilter (u "U2 ~ ?q.q") (job 3 21 (demo_now 3))
                 {| runtime := Runtime.empty; pathVars := None;
                    searchParams := [(u "q", u "JOB 3")] |}
  = Ok true
  /\ evaluateFilter (u "U2 ~ ?q.q") (job 3 21 (demo_now 3))
                    {| runtime := Runtime.empty; pathVars := None;
                       searchParams := [(u "q", u "job 4")] |}
     = Ok false
  /\ evaluateFilter (u "U2 = 3") (job 3 21 (demo_now 3))
                    {| runtime := Runtime.empty; pathVars := None;
                       searchParams := [] |}
     = Err (UnsupportedFilter (u "U2 = 3")).
Proof. repeat split; vm_compute; reflexivity. Qed.

End SourceExamples.

(* ================================================================== *)
(** * The store of the [Runtime] class *)

Section StoreFacts.

Lemma assoc_map_set (key k : jstring) (v : Runtime.item)
      (l : list (jstring * Runtime.item)) :
  assoc k (Runtime.map_set key v l)
  = if jstr_eqb key k then Some v else assoc k l.
Proof.
  induction l as [|[k' w] l IH]; simpl; [reflexivity|].
  destruct (jstr_eqb k' key) eqn:E; simpl.
  - apply jstr_eqb_eq in E. subst k'. now destruct (jstr_eqb key k).
  - destruct (jstr_eqb k' k) eqn:E'; [|exact IH].
    apply jstr_eqb_eq in E'. subst k'.
    destruct (jstr_eqb key k) eqn:E''; [|reflexivity].
    apply jstr_eqb_eq in E''. subst key.
    rewrite jstr_eqb_refl in E. discriminate.
Qed.

(** X1.  [kvGet] after [kvSet]: the value just stored under the same key, and
    what was there before under any other key. *)
Theorem kvGet_kvSet (rt : Runtime.t) (key k : jstring) (v : Runtime.item) :
  Runtime.kvGet (Runtime.kvSet rt key v) key = Some v
  /\ (k <> key ->
      Runtime.kvGet (Runtime.kvSet rt key v) k = Runtime.kvGet rt k).
Proof.
  unfold Runtime.kvGet, Runtime.kvSet. cbn [Runtime.kvStore].
  rewrite !assoc_map_set, jstr_eqb_refl. split; [reflexivity|].
  intros H. destruct (jstr_eqb key k) eqn:E; [|reflexivity].
  apply jstr_eqb_eq in E. congruence.
Qed.

Lemma kvGet_kvSet_witness :
  Runtime.kvGet (Runtime.kvSet store_ok (u "j:b") (record "b" (VNum 9)))
                (u "j:a")
  = Some (record "a" (VNum 5)).
Proof.
  etransitivity.
  - apply (kvGet_kvSet store_ok (u "j:b") (u "j:a") (record "b" (VNum 9))).
    discriminate.
  - reflexivity.
Defined.

Lemma assoc_In {A} (k : jstring) (v : A) (l : list (jstring * A)) :
  assoc k l = Some v -> In (k, v) l.
Proof.
  induction l as [|[k' w] l IH]; simpl; [discriminate|].
  destruct (jstr_eqb k' k) eqn:E.
  - apply jstr_eqb_eq in E. subst k'. intros H. injection H as <-. now left.
  - intros H. right. now apply IH.
Qed.

Lemma In_assoc_unique {A} (k : jstring) (v : A) (l : list (jstring * A)) :
  NoDup (map fst l) -> In (k, v) l -> assoc k l = Some v.
Proof.
  induction l as [|[k' w] l IH]; simpl; [intros _ []|].
  intros Hnd [H|H].
  - injection H as -> ->. now rewrite jstr_eqb_refl.
  - inversion Hnd as [|x xs Hnotin Hnd']; subst.
    destruct (jstr_eqb k' k) eqn:E.
    + apply jstr_eqb_eq in E. subst k'. exfalso. apply Hnotin.
      change k with (fst (k, v)). now apply in_map.
    + now apply IH.
Qed.

Lemma map_set_keys (key : jstring) (v : Runtime.item)
      (l : list (jstring * Runtime.item)) :
  map fst (Runtime.map_set key v l)
  = if existsb (jstr_eqb key) (map fst l) then map fst l
    else map fst l ++ [key].
Proof.
  induction l as [|[k w] l IH]; simpl; [reflexivity|].
  destruct (jstr_eqb k key) eqn:E; simpl.
  - apply jstr_eqb_eq in E. subst k. now rewrite jstr_eqb_refl.
  - assert (E' : jstr_eqb key k = false).
    { apply jstr_eqb_neq. apply jstr_eqb_neq in E. congruence. }
    rewrite E', IH. simpl. now destruct (existsb _ _).
Qed.

Lemma existsb_keys_false (key : jstring) (ks : list jstring) :
  existsb (jstr_eqb key) ks = false -> ~ In key ks.
Proof.
  intros H Hin. assert (X : existsb (jstr_eqb key) ks = true).
  { apply existsb_exists. exists key. split; [exact Hin|]. apply jstr_eqb_refl. }
  congruence.
Qed.

(** X2.  The keys stay pairwise different under [kvSet], and then [kvScan]
    returns exactly the items that [kvGet] finds under a key with the
    prefix. *)
Theorem kvScan_kvGet :
  unique_keys Runtime.empty
  /\ (forall rt key v,
         unique_keys rt -> unique_keys (Runtime.kvSet rt key v))
  /\ (forall rt prefix item,
         unique_keys rt ->
         (In item (Runtime.kvScan rt prefix)
          <-> exists key, startsWith key prefix = true
                          /\ Runtime.kvGet rt key = Some item)).
Proof.
  split; [constructor|split].
  - intros rt key v H. unfold unique_keys, Runtime.kvSet in *.
    cbn [Runtime.kvStore]. rewrite map_set_keys.
    destruct (existsb _ _) eqn:E; [exact H|].
    apply NoDup_app; [exact H|repeat constructor; intros []|].
    intros k Hk [<-|[]]. exact (existsb_keys_false E Hk).
  - intros rt prefix item H. unfold Runtime.kvScan, Runtime.kvGet.
    rewrite in_map_iff. split.
    + intros [[k w] [E Hin]]. simpl in E. subst w.
      apply filter_In in Hin as [Hin Hp]. exists k. split; [exact Hp|].
      now apply In_assoc_unique.
    + intros [key [Hp Hg]]. exists (key, item). split; [reflexivity|].
      apply filter_In. split; [now apply assoc_In|exact Hp].
Qed.

Lemma kvScan_kvGet_witness :
  unique_keys store_negative
  /\ (In (record "c" (VNum (-1))) (Runtime.kvScan store_negative (u "j:")))
  /\ ~ In (record "c" (VNum (-1))) (Runtime.kvScan store_negative (u "k:")).
Proof.
  destruct kvScan_kvGet as (H0 & Hset & Hscan).
  assert (U : unique_keys store_negative) by (repeat apply Hset; exact H0).
  split; [exact U|split].
  - apply (Hscan _ _ _ U). exists (u "j:c"). split; reflexivity.
  - intros H. apply (Hscan _ _ _ U) in H. destruct H as [key [Hp Hg]].
    apply assoc_In in Hg. vm_compute in Hg.
    repeat (destruct Hg as [Hg|Hg];
            [injection Hg as <-; vm_compute in Hp; discriminate Hp|]).
    destruct Hg.
Defined.

Lemma assoc_None_keys {A} (k : jstring) (l : list (jstring * A)) :
  assoc k l = None -> existsb (jstr_eqb k) (map fst l) = false.
Proof.
  induction l as [|[k' w] l IH]; simpl; [reflexivity|].
  destruct (jstr_eqb k' k) eqn:E; [discriminate|].
  intros H. rewrite (IH H), orb_false_r.
  apply jstr_eqb_neq. apply jstr_eqb_neq in E. congruence.
Qed.

Lemma map_set_fresh (key : jstring) (v : Runtime.item)
      (l : list (jstring * Runtime.item)) :
  assoc key l = None -> Runtime.map_set key v l = l ++ [(key, v)].
Proof.
  induction l as [|[k w] l IH]; simpl; [reflexivity|].
  destruct (jstr_eqb k key); [discriminate|]. intros H. now rewrite IH.
Qed.

Lemma map_set_other_prefix (key prefix : jstring) (v : Runtime.item)
      (l : list (jstring * Runtime.item)) :
  startsWith key prefix = false ->
  map snd (filter (fun kv => startsWith (fst kv) prefix)
                  (Runtime.map_set key v l))
  = map snd (filter (fun kv => startsWith (fst kv) prefix) l).
Proof.
  intros H. induction l as [|[k w] l IH]; simpl.
  - now rewrite H.
  - destruct (jstr_eqb k key) eqn:E; simpl.
    + apply jstr_eqb_eq in E. subst k. now rewrite H.
    + destruct (startsWith k prefix); simpl; now rewrite IH.
Qed.

(** X3.  Scans follow the order of first insertion: storing under a new key
    with the prefix puts the item at the end of the scan; storing under a
    key without the prefix leaves the scan as it was; storing again under a
    key that is there keeps every key at its place. *)
Theorem kvScan_kvSet (rt : Runtime.t) (key prefix : jstring)
        (v : Runtime.item) :
  (Runtime.kvGet rt key = None -> startsWith key prefix = true ->
   Runtime.kvScan (Runtime.kvSet rt key v) prefix
   = Runtime.kvScan rt prefix ++ [v])
  /\ (startsWith key prefix = false ->
      Runtime.kvScan (Runtime.kvSet rt key v) prefix
      = Runtime.kvScan rt prefix)
  /\ (Runtime.kvGet rt key <> None ->
      map fst (Runtime.kvStore (Runtime.kvSet rt key v))
      = map fst (Runtime.kvStore rt)).
Proof.
  unfold Runtime.kvScan, Runtime.kvGet, Runtime.kvSet.
  cbn [Runtime.kvStore]. split; [|split].
  - intros Hn Hp. rewrite (map_set_fresh _ Hn), filter_app, map_app.
    simpl. now rewrite Hp.
  - apply map_set_other_prefix.
  - intros H. rewrite map_set_keys.
    destruct (existsb _ _) eqn:E; [reflexivity|].
    exfalso. apply H. clear H.
    induction (Runtime.kvStore rt) as [|[k w] l IH]; [reflexivity|].
    simpl in *. apply orb_false_iff in E as [E1 E2].
    assert (E' : jstr_eqb k key = false).
    { apply jstr_eqb_neq. apply jstr_eqb_neq in E1. congruence. }
    rewrite E'. now apply IH.
Qed.

Lemma kvScan_kvSet_witness :
  Runtime.kvScan (Runtime.kvSet store_ok (u "j:z") (record "z" (VNum 1)))
                 (u "j:")
  = [record "a" (VNum 5); record "b" (VNum 0); record "z" (VNum 1)]
  /\ Runtime.kvScan (Runtime.kvSet store_ok (u "k:z") (record "z" (VNum 1)))
                    (u "j:")
     = [record "a" (VNum 5); record "b" (VNum 0)]
  /\ Runtime.kvScan (Runtime.kvSet store_ok (u "j:a") (record "a" (VNum 7)))
                    (u "j:")
     = [record "a" (VNum 7); record "b" (VNum 0)].
Proof.
  split; [|split].
  - destruct (kvScan_kvSet store_ok (u "j:z") (u "j:") (record "z" (VNum 1)))
      as (H & _ & _).
    etransitivity; [apply H; reflexivity|reflexivity].
  - destruct (kvScan_kvSet store_ok (u "k:z") (u "j:") (record "z" (VNum 1)))
      as (_ & H & _).
    etransitivity; [apply H; reflexivity|reflexivity].
  - reflexivity.
Defined.

End StoreFacts.

(* ================================================================== *)
(** * More on the interpreter *)

Section InterpreterFacts.

Lemma step_budget (ctx : Ctx) (st : data * list effect) (seg : jstring) :
  startsWith seg (u "!") = true -> step ctx st seg = Ok st.
Proof.
  intros H. apply startsWith_inv in H as [t ->].
  unfold step. destruct st as [dt fx]. reflexivity.
Qed.

Lemma run_segments_skip_budgets (ctx : Ctx) (segs : list jstring)
      (st : data * list effect) :
  run_segments segs ctx st
  = run_segments (filter (fun s => negb (startsWith s (u "!"))) segs) ctx st.
Proof.
  revert st; induction segs as [|seg segs IH]; intros st; [reflexivity|].
  cbn [run_segments filter].
  destruct (startsWith seg (u "!")) eqn:E; cbn [negb].
  - rewrite (step_budget ctx st E). cbn [bind]. apply IH.
  - cbn [run_segments]. destruct (step ctx st seg); cbn [bind];
      [apply IH|reflexivity].
Qed.

Lemma calls_made_skip_budgets (ctx : Ctx) (segs : list jstring)
      (st : data * list effect) :
  calls_made segs ctx st
  = calls_made (filter (fun s => negb (startsWith s (u "!"))) segs) ctx st.
Proof.
  revert st; induction segs as [|seg segs IH]; intros st; [reflexivity|].
  cbn [calls_made filter].
  destruct (startsWith seg (u "!")) eqn:E; cbn [negb].
  - rewrite (step_budget ctx st E). apply IH.
  - cbn [calls_made]. destruct (step ctx st seg); [apply IH|reflexivity].
Qed.

(** X4.  Stages that begin with [!] change nothing: a pipeline runs as it does
    without them, and a pipeline made of such stages only answers
    [undefined] and calls nothing. *)
Theorem budget_stages_are_skipped (ctx : Ctx) (segs : list jstring) :
  executePipeline segs ctx
  = executePipeline (filter (fun s => negb (is_budget_stage s)) segs) ctx
  /\ (forallb is_budget_stage segs = true ->
      executePipeline segs ctx = Ok (DUndefined, [])).
Proof.
  unfold executePipeline, is_budget_stage. split.
  - apply run_segments_skip_budgets.
  - intros H. rewrite run_segments_skip_budgets.
    replace (filter (fun s => negb (startsWith s (u "!"))) segs)
      with (@nil jstring); [reflexivity|].
    induction segs as [|seg segs IH]; [reflexivity|].
    cbn [forallb] in H. apply andb_true_iff in H as [H1 H2].
    cbn [filter]. rewrite H1. cbn [negb]. now apply IH.
Qed.

Lemma budget_stages_are_skipped_witness :
  executePipeline [u "!p99<200ms"; u "!fast"] (query_ctx [])
  = Ok (DUndefined, []).
Proof.
  destruct (budget_stages_are_skipped (query_ctx [])
                                      [u "!p99<200ms"; u "!fast"])
    as [_ H].
  apply H. reflexivity.
Defined.

Lemma step_page (ctx : Ctx) (dt : data) (fx : list effect) (ds : jstring) :
  ds <> [] -> forallb is_digit ds = true ->
  step ctx (dt, fx) (u "page(" ++ ds ++ u ")")
  = Ok (match dt with
        | DArray l => DArray (firstn (Z.to_nat (parseDigits ds)) l)
        | _ => dt
        end, fx).
Proof.
  intros Hne Hd. unfold step. rewrite (match_page_digits Hne Hd).
  reflexivity.
Qed.

(** X5.  [page(n)] on a sequence keeps its first [n] items, all of them when
    there are fewer, and leaves any other current value as it is. *)
Theorem page_truncates (ctx : Ctx) (fx : list effect) (ds : jstring) :
  ds <> [] -> forallb is_digit ds = true ->
  let n := Z.to_nat (parseDigits ds) in
  (forall l,
      exists kept dropped,
        step ctx (DArray l, fx) (u "page(" ++ ds ++ u ")")
        = Ok (DArray kept, fx)
        /\ l = kept ++ dropped /\ length kept = Nat.min n (length l))
  /\ (forall item,
         step ctx (DItem item, fx) (u "page(" ++ ds ++ u ")")
         = Ok (DItem item, fx))
  /\ step ctx (DUndefined, fx) (u "page(" ++ ds ++ u ")")
     = Ok (DUndefined, fx).
Proof.
  intros Hne Hd n. split; [|split].
  - intros l. exists (firstn n l), (skipn n l).
    rewrite (step_page _ _ _ Hne Hd). split; [reflexivity|].
    split; [now rewrite firstn_skipn|apply length_firstn].
  - intros item. now rewrite (step_page _ _ _ Hne Hd).
  - now rewrite (step_page _ _ _ Hne Hd).
Qed.

Lemma page_truncates_witness :
  step (query_ctx [])
       (DArray [status_item "A" 1; status_item "B" 2; status_item "C" 3], [])
       (u "page(2)")
  = Ok (DArray [status_item "A" 1; status_item "B" 2], [])
  /\ step (query_ctx [])
          (DArray [status_item "A" 1], []) (u "page(0)")
     = Ok (DArray [], []).
Proof.
  split.
  - destruct (@page_truncates (query_ctx []) [] (u "2"))
      as (H & _ & _); [discriminate|reflexivity|].
    destruct (H [status_item "A" 1; status_item "B" 2; status_item "C" 3])
      as (kept & dropped & E & _ & _).
    etransitivity; [exact E|]. rewrite <- E. reflexivity.
  - destruct (@page_truncates (query_ctx []) [] (u "0"))
      as (H & _ & _); [discriminate|reflexivity|].
    destruct (H [status_item "A" 1]) as (kept & dropped & E & _ & _).
    etransitivity; [exact E|]. rewrite <- E. reflexivity.
Defined.

(** The seven openings that the interpreter knows. *)
Lemma step_unsupported (ctx : Ctx) (st : data * list effect)
      (seg : jstring) :
  forallb (fun p => negb (startsWith seg p)) segment_openings = true ->
  step ctx st seg = Err (UnsupportedSegment seg).
Proof.
  unfold segment_openings. cbn [forallb]. intros H.
  repeat (apply andb_true_iff in H as [?H H]).
  repeat match goal with
         | X : negb _ = true |- _ => apply negb_true_iff in X
         end.
  unfold step. destruct st as [dt fx].
  repeat match goal with
         | X : startsWith seg _ = false |- _ => rewrite X; clear X
         end.
  reflexivity.
Qed.

(** X6.  A stage with an opening that the interpreter does not know fails the
    request, also when the capability dictionary lists the name; and once a
    stage has failed, the stages after it are not run: the error of the
    pipeline is the error of that stage. *)
Theorem pipeline_stops_at_failure (ctx : Ctx) (pre post : list jstring)
        (seg : jstring) (st0 st : data * list effect) :
  run_segments pre ctx st0 = Ok st ->
  (forall e, step ctx st seg = Err e ->
             run_segments (pre ++ seg :: post) ctx st0 = Err e)
  /\ (forallb (fun p => negb (startsWith seg p)) segment_openings = true ->
      run_segments (pre ++ seg :: post) ctx st0
      = Err (UnsupportedSegment seg)).
Proof.
  intros Hpre.
  assert (G : forall e, step ctx st seg = Err e ->
                        run_segments (pre ++ seg :: post) ctx st0 = Err e).
  { intros e He. rewrite (run_segments_app _ Hpre). cbn [run_segments].
    now rewrite He. }
  split; [exact G|]. intros H. apply G. now apply step_unsupported.
Qed.

Lemma pipeline_stops_at_failure_witness :
  run_segments [uq "kv.scan(`j:`)"; uq "kv.set(`j:x`)"; u "page(1)"]
               (go_ctx "job2") (DUndefined, [])
  = Err (UnsupportedSegment (uq "kv.set(`j:x`)")).
Proof.
  destruct (@pipeline_stops_at_failure
              (go_ctx "job2") [uq "kv.scan(`j:`)"] [u "page(1)"]
              (uq "kv.set(`j:x`)") (DUndefined, [])
              (DArray (Runtime.kvScan (sv_runtime demo_server) (u "j:")), []))
    as [_ H]; [vm_compute; reflexivity|].
  apply H. reflexivity.
Defined.

(** X7.  [filter] needs a sequence; over an empty sequence the condition is not
    looked at, so any condition passes; over a non-empty one a condition
    with neither [ in ] nor [~] is an error. *)
Theorem filter_edge_cases (ctx : Ctx) (fx : list effect) (cond : jstring) :
  cond <> [] -> forallb (cls_mem dot) cond = true ->
  step ctx (DArray [], fx) (u "filter(" ++ cond ++ u ")")
  = Ok (DArray [], fx)
  /\ step ctx (DUndefined, fx) (u "filter(" ++ cond ++ u ")")
     = Err FilterNotArray
  /\ (forall item,
         step ctx (DItem item, fx) (u "filter(" ++ cond ++ u ")")
         = Err FilterNotArray)
  /\ (includes cond (u " in ") = false -> includes cond (u "~") = false ->
      forall item l,
        step ctx (DArray (item :: l), fx) (u "filter(" ++ cond ++ u ")")
        = Err (UnsupportedFilter cond)).
Proof.
  intros Hne Hdot. repeat split; try intros; rewrite (step_filter _ _ _ Hne Hdot);
    try reflexivity.
  cbn [filter_items]. unfold evaluateFilter. now rewrite H, H0.
Qed.

Lemma filter_edge_cases_witness :
  step (query_ctx []) (DArray [], []) (u "filter(status = 1)")
  = Ok (DArray [], [])
  /\ step (query_ctx []) (DArray [status_item "A" 1], [])
          (u "filter(status = 1)")
     = Err (UnsupportedFilter (u "status = 1")).
Proof.
  destruct (@filter_edge_cases (query_ctx []) [] (u "status = 1"))
    as (H1 & _ & _ & H2); [discriminate|reflexivity|].
  split; [exact H1|]. apply H2; reflexivity.
Defined.

End InterpreterFacts.

(* ================================================================== *)
(** * Expressions, keyed reads and the containment filter *)

Section ExpressionFacts.

Lemma find_sub_skip (y : jschar) (p f r : jstring) :
  Forall (fun c => c <> y) f ->
  find_sub (y :: p) (f ++ r)
  = match find_sub (y :: p) r with
    | Some (a, b) => Some (f ++ a, b)
    | None => None
    end.
Proof.
  induction 1 as [|c f Hc _ IH]; cbn [app].
  - now destruct (find_sub (y :: p) r) as [[a b]|].
  - rewrite find_sub_eq. cbn [startsWith].
    apply N.eqb_neq in Hc. rewrite Hc. cbn [andb]. rewrite IH.
    now destruct (find_sub (y :: p) r) as [[a b]|].
Qed.

Lemma trimStart_head (x : jschar) (s : jstring) :
  is_space x = false -> trimStart (x :: s) = x :: s.
Proof. intros H. cbn [trimStart]. now rewrite H. Qed.

Lemma trim_edges (x y : jschar) (mid : jstring) :
  is_space x = false -> is_space y = false ->
  trim (x :: mid ++ [y]) = x :: mid ++ [y].
Proof.
  intros Hx Hy. unfold trim, trimEnd. rewrite (trimStart_head _ Hx).
  change (x :: mid ++ [y]) with ((x :: mid) ++ [y]).
  rewrite rev_app_distr. cbn [rev app]. rewrite (trimStart_head _ Hy).
  change (y :: rev mid ++ [x]) with ([y] ++ rev (x :: mid)).
  rewrite rev_app_distr, rev_involutive. reflexivity.
Qed.

Lemma trim_padded (s : jstring) :
  no_space s -> trim (u " " ++ s) = s /\ trim (s ++ u " ") = s.
Proof.
  intros H. split.
  - unfold trim. change (trimStart (u " " ++ s)) with (trimStart s).
    exact (trim_no_space H).
  - unfold trim. destruct s as [|x s]; [reflexivity|].
    pose proof H as H'. unfold no_space in H'. cbn [forallb] in H'.
    apply andb_true_iff in H' as [Hx _]. apply negb_true_iff in Hx.
    cbn [app]. rewrite (trimStart_head _ Hx).
    unfold trimEnd. change (x :: s ++ u " ") with ((x :: s) ++ u " ").
    rewrite rev_app_distr.
    change (rev (u " ") ++ rev (x :: s)) with (32%N :: rev (x :: s)).
    change (trimStart (32%N :: rev (x :: s)))
      with (trimStart (rev (x :: s))).
    assert (R : trimEnd (x :: s) = x :: s).
    { pose proof (trim_no_space H) as T. unfold trim in T.
      now rewrite (trimStart_no_space H) in T. }
    exact R.
Qed.

Lemma includes_nil (s : jstring) : includes s [] = true.
Proof. unfold includes. now destruct s. Qed.

Lemma includes_refl (s : jstring) : includes s s = true.
Proof.
  unfold includes. rewrite find_sub_eq.
  pose proof (startsWith_app s []) as H. rewrite app_nil_r in H.
  now rewrite H.
Qed.

(** What [evaluateFilter] computes for [field ~ ?q.name]. *)
Lemma evaluateFilter_contains_form (ctx : Ctx) (field name : jstring)
      (item : Runtime.item) :
  no_space field -> no_space name ->
  Forall (fun c => c <> 126%N) field -> Forall (fun c => c <> 126%N) name ->
  evaluateFilter (field ++ u " ~ ?q." ++ name) item ctx
  = Ok (includes (toLowerCase (ToString (get item field)))
                 (toLowerCase
                    match get_param (searchParams ctx) name with
                    | Some q => q
                    | None => []
                    end)).
Proof.
  intros Hf Hn Tf Tn.
  assert (Hq : no_space (u "?q." ++ name))
    by (apply no_space_app; [reflexivity|exact Hn]).
  assert (I : find_sub (u " in ") (field ++ u " ~ ?q." ++ name) = None).
  { change (u " in ") with (32%N :: u "in ").
    rewrite (find_sub_skip _ _ (no_space_neq Hf)).
    change (u " ~ ?q." ++ name)
      with (32%N :: 126%N :: 32%N :: u "?q." ++ name).
    rewrite find_sub_eq.
    change (startsWith (32%N :: 126%N :: 32%N :: u "?q." ++ name)
                       (32%N :: u "in ")) with false. cbv iota.
    rewrite find_sub_eq.
    change (startsWith (126%N :: 32%N :: u "?q." ++ name)
                       (32%N :: u "in ")) with false. cbv iota.
    rewrite find_sub_eq.
    change (startsWith (32%N :: u "?q." ++ name) (32%N :: u "in "))
      with false. cbv iota.
    now rewrite (find_sub_absent _ (no_space_neq Hq)). }
  assert (Tq : Forall (fun c => c <> 126%N) (u " ?q." ++ name)).
  { apply Forall_app. split; [|exact Tn]. apply Forall_neq_b. reflexivity. }
  assert (Tb : Forall (fun c => c <> 126%N) (field ++ u " ")).
  { apply Forall_app. split; [exact Tf|]. apply Forall_neq_b. reflexivity. }
  assert (E : field ++ u " ~ ?q." ++ name
              = (field ++ u " ") ++ (126%N :: []) ++ u " ?q." ++ name).
  { now rewrite <- app_assoc. }
  assert (F : find_sub (u "~") (field ++ u " ~ ?q." ++ name)
              = Some (field ++ u " ", u " ?q." ++ name)).
  { rewrite E. now apply find_sub_first. }
  assert (S : split (field ++ u " ~ ?q." ++ name) (u "~")
              = [field ++ u " "; u " ?q." ++ name]).
  { rewrite E. apply split_two; [exact Tb|]. now apply find_sub_absent. }
  unfold evaluateFilter, includes at 1 2. rewrite I, F, S. cbn [nth].
  destruct (trim_padded Hf) as [_ ->].
  change (u " ?q." ++ name) with (u " " ++ u "?q." ++ name).
  destruct (trim_padded Hq) as [-> _].
  unfold replace. rewrite find_sub_here. reflexivity.
Qed.

Lemma filter_items_subset (ctx : Ctx) (cond : jstring)
      (items kept : list Runtime.item) :
  filter_items cond items ctx = Ok kept ->
  forall item, In item kept -> In item items.
Proof.
  revert kept; induction items as [|i items IH]; intros kept H item Hin;
    cbn [filter_items] in H.
  - injection H as <-. destruct Hin.
  - destruct (evaluateFilter cond i ctx) as [keep|e]; cbn [bind] in H;
      [|discriminate].
    destruct (filter_items cond items ctx) as [rest|e]; cbn [bind] in H;
      [|discriminate].
    injection H as <-. destruct keep.
    + destruct Hin as [<-|Hin]; [now left|right; eauto].
    + right; eauto.
Qed.

Lemma filter_items_filter (ctx : Ctx) (cond : jstring)
      (f : Runtime.item -> bool) (items : list Runtime.item) :
  (forall item, evaluateFilter cond item ctx = Ok (f item)) ->
  filter_items cond items ctx = Ok (filter f items).
Proof.
  intros H. induction items as [|i items IH]; [reflexivity|].
  cbn [filter_items filter]. rewrite H, IH. cbn [bind]. now destruct (f i).
Qed.

Lemma includes_occurs (s pat : jstring) :
  includes s pat = true <-> occurs_in pat s.
Proof.
  unfold includes, occurs_in. split.
  - induction s as [|c s IH]; rewrite find_sub_eq.
    + destruct (startsWith [] pat) eqn:E; [|discriminate].
      intros _. apply startsWith_inv in E as [t E]. now exists [], t.
    + destruct (startsWith (c :: s) pat) eqn:E.
      * intros _. apply startsWith_inv in E as [t E]. now exists [], t.
      * destruct (find_sub pat s) as [[a b]|]; [|discriminate].
        intros _. destruct (IH eq_refl) as (a' & b' & ->).
        now exists (c :: a'), b'.
  - intros (a & b & ->). induction a as [|c a IH]; rewrite find_sub_eq.
    + cbn [app]. now rewrite startsWith_app.
    + cbn [app]. destruct (startsWith _ pat); [reflexivity|].
      now destruct (find_sub pat (a ++ pat ++ b)) as [[a' b']|].
Qed.

(** X8.  A stage [filter(field ~ ?q.name)] on a sequence keeps, in their order
    and as often as they stand there, exactly the items whose [field],
    read as text, contains the first value of the query parameter [name],
    letter case apart; every other item is dropped.  Without the
    parameter every item stays.  The texts are of the first 128
    characters, and numbers are below [10^21] in size. *)
Theorem filter_contains_query (ctx : Ctx) (field name : jstring)
        (items : list Runtime.item) (fx : list effect) :
  no_space field -> no_space name ->
  Forall (fun c => c <> 126%N) field -> Forall (fun c => c <> 126%N) name ->
  let query := match get_param (searchParams ctx) name with
               | Some q => q
               | None => []
               end in
  ascii_text query ->
  (forall item, In item items -> plain_text_value (get item field)) ->
  exists keep : Runtime.item -> bool,
    step ctx (DArray items, fx)
         (u "filter(" ++ (field ++ u " ~ ?q." ++ name) ++ u ")")
    = Ok (DArray (filter keep items), fx)
    /\ (forall item,
           keep item = true
           <-> occurs_in (toLowerCase query)
                         (toLowerCase (ToString (get item field))))
    /\ (get_param (searchParams ctx) name = None -> filter keep items = items).
Proof.
  intros Hf Hn Tf Tn query _ _.
  set (f := fun item : Runtime.item =>
              includes (toLowerCase (ToString (get item field)))
                       (toLowerCase query)).
  assert (F : forall l, filter_items (field ++ u " ~ ?q." ++ name) l ctx
                        = Ok (filter f l)).
  { intros l. apply filter_items_filter. intros item.
    exact (evaluateFilter_contains_form ctx item Hf Hn Tf Tn). }
  exists f. split; [|split].
  - rewrite step_filter.
    + now rewrite F.
    + destruct field; discriminate.
    + rewrite forallb_app, (no_space_dot Hf), forallb_app.
      now rewrite (no_space_dot Hn).
  - intros item. unfold f. apply includes_occurs.
  - intros Hnone. unfold f, query. rewrite Hnone.
    induction items as [|i items IH]; [reflexivity|].
    cbn [filter]. change (toLowerCase []) with (@nil jschar).
    rewrite includes_nil. f_equal. apply IH.
Qed.

(** The items [xAb], [ba] and [xAb] under the query [AB]: the first and
    the third stay, in that order. *)
Lemma filter_contains_query_witness :
  step (query_ctx [(u "q", u "AB")])
       (DArray [status_item "xAb" 1; status_item "ba" 2; status_item "xAb" 1],
        [])
       (u "filter(id ~ ?q.q)")
  = Ok (DArray [status_item "xAb" 1; status_item "xAb" 1], []).
Proof.
  destruct (@filter_contains_query (query_ctx [(u "q", u "AB")])
              (u "id") (u "q")
              [status_item "xAb" 1; status_item "ba" 2; status_item "xAb" 1]
              [])
    as (keep & H & K & _);
    [reflexivity|reflexivity|apply Forall_neq_b; reflexivity
     |apply Forall_neq_b; reflexivity| | |].
  - repeat constructor.
  - intros item [<-|[<-|[<-|[]]]]; repeat constructor.
  - etransitivity; [exact H|]. f_equal. f_equal.
    assert (K1 : keep (status_item "xAb" 1) = true).
    { apply K. exists (u "x"), []. reflexivity. }
    assert (K2 : keep (status_item "ba" 2) = false).
    { destruct (keep (status_item "ba" 2)) eqn:E; [|reflexivity].
      apply K in E. destruct E as (a & b & E). exfalso.
      destruct a as [|x [|y [|z a]]]; discriminate E. }
    cbn [filter]. now rewrite K1, K2.
Defined.

Lemma quoted_literal (lit : jstring) :
  quoted ((34%N : jschar) :: lit ++ [34%N : jschar]) = true
  /\ slice_1_m1 ((34%N : jschar) :: lit ++ [34%N : jschar]) = lit.
Proof.
  split.
  - unfold quoted, endsWith.
    change (34%N :: lit ++ [34%N]) with ((34%N :: lit) ++ [34%N]).
    rewrite rev_app_distr. reflexivity.
  - unfold slice_1_m1. cbn [tl]. apply removelast_last.
Qed.

(** [evaluateExpression] on a quoted text followed by [+] and a name. *)
Lemma evaluateExpression_literal_name (ctx : Ctx) (lit name : jstring) :
  Forall (fun c => c <> 43%N) lit -> Forall (fun c => c <> 43%N) name ->
  no_space name -> quoted name = false ->
  evaluateExpression (uq "`" ++ lit ++ uq "`+" ++ name) ctx
  = lit ++ (if negb (is_undefined (pathVar ctx name))
            then ToString (pathVar ctx name) else name).
Proof.
  intros Pl Pn Hn Hq.
  assert (E : uq "`" ++ lit ++ uq "`+" ++ name
              = (34%N :: lit ++ [34%N]) ++ (43%N :: []) ++ name).
  { change (uq "`" ++ lit ++ uq "`+" ++ name)
      with (34%N :: lit ++ [34%N] ++ (43%N :: []) ++ name).
    cbn [app]. now rewrite <- app_assoc. }
  assert (S : split (uq "`" ++ lit ++ uq "`+" ++ name) (u "+")
              = [34%N :: lit ++ [34%N]; name]).
  { rewrite E. apply split_two.
    - constructor; [discriminate|]. apply Forall_app. split; [exact Pl|].
      constructor; [discriminate|constructor].
    - now apply find_sub_absent. }
  unfold evaluateExpression. rewrite S. cbn [map].
  rewrite trim_edges by reflexivity. rewrite (trim_no_space Hn).
  unfold fold_left. destruct (quoted_literal lit) as [-> ->].
  rewrite Hq. cbn [app].
  now destruct (negb (is_undefined (pathVar ctx name))).
Qed.

Lemma expression_name (ctx : Ctx) (name : jstring) :
  (if negb (is_undefined (pathVar ctx name))
   then ToString (pathVar ctx name) else name)
  = stands_for ctx name.
Proof.
  unfold pathVar, stands_for. destruct (pathVars ctx) as [bound|].
  - unfold get_own. now destruct (assoc name bound).
  - unfold get. cbn [assoc]. unfold Object_prototype. cbn [assoc].
    repeat match goal with
           | |- context [jstr_eqb ?k name] => destruct (jstr_eqb k name)
           end; reflexivity.
Qed.

(** X9.  A stage [kv.get("lit"+name)] reads the store at the key made of [lit]
    and of what [name] stands for: the text that the path of the route
    binds to the variable [name]; the name itself when the path binds
    other variables only; and on a route whose path has no variable, the
    text of the member that every object inherits under that name
    ([toString], [valueOf], [constructor] and the like), or the name
    itself when there is none.  The stage replaces the current value
    whatever it was, and a key that is not stored gives [undefined], not a
    failure. *)
Theorem kv_get_by_path_variable (ctx : Ctx) (dt : data) (fx : list effect)
        (lit name : jstring) :
  Forall (fun c => c <> 43%N) lit -> forallb (cls_mem dot) lit = true ->
  Forall (fun c => c <> 43%N) name -> no_space name -> quoted name = false ->
  let key := lit ++ stands_for ctx name in
  step ctx (dt, fx) (uq "kv.get(`" ++ lit ++ uq "`+" ++ name ++ u ")")
  = Ok (match Runtime.kvGet (runtime ctx) key with
        | Some item => DItem item
        | None => DUndefined
        end, fx).
Proof.
  intros Pl Dl Pn Hn Hq key.
  assert (E : uq "kv.get(`" ++ lit ++ uq "`+" ++ name ++ u ")"
              = u "kv.get" ++ u "("
                  ++ (uq "`" ++ lit ++ uq "`+" ++ name) ++ u ")").
  { change (uq "kv.get(`" ++ lit ++ uq "`+" ++ name ++ u ")")
      with (u "kv.get" ++ u "(" ++ uq "`" ++ lit ++ uq "`+" ++ name ++ u ")").
    now rewrite <- !app_assoc. }
  assert (M : match_ (uq "kv.get(`" ++ lit ++ uq "`+" ++ name ++ u ")")
                     re_kv_get
              = Some [(Idx 1, uq "`" ++ lit ++ uq "`+" ++ name)]).
  { rewrite E. apply match_call; [discriminate|].
    change (uq "`" ++ lit ++ uq "`+" ++ name)
      with (34%N :: lit ++ uq "`+" ++ name).
    cbn [forallb]. rewrite forallb_app, Dl, forallb_app.
    now rewrite (no_space_dot Hn). }
  unfold step.
  change (startsWith (uq "kv.get(`" ++ lit ++ uq "`+" ++ name ++ u ")")
                     (u "kv.scan")) with false.
  change (startsWith (uq "kv.get(`" ++ lit ++ uq "`+" ++ name ++ u ")")
                     (u "kv.get")) with true.
  cbv iota. rewrite M.
  change (group [(Idx 1, uq "`" ++ lit ++ uq "`+" ++ name)] 1)
    with (uq "`" ++ lit ++ uq "`+" ++ name).
  rewrite (evaluateExpression_literal_name ctx Pl Pn Hn Hq).
  now rewrite expression_name.
Qed.

(** The variable [U1] bound to a job that is stored and to one that is
    not; the name [U2], which the path does not bind; and the name
    [valueOf] on a route without variables. *)
Lemma kv_get_by_path_variable_witness :
  step (go_ctx "job2") (DArray [], []) (uq "kv.get(`j:`+U1)")
  = Ok (match Runtime.kvGet (runtime (go_ctx "job2")) (u "j:job2") with
        | Some item => DItem item
        | None => DUndefined
        end, [])
  /\ step (go_ctx "nothing") (DArray [], []) (uq "kv.get(`j:`+U1)")
     = Ok (DUndefined, [])
  /\ step (go_ctx "job2") (DArray [], []) (uq "kv.get(`j:`+U2)")
     = Ok (match Runtime.kvGet (runtime (go_ctx "job2")) (u "j:U2") with
           | Some item => DItem item
           | None => DUndefined
           end, [])
  /\ step no_variable_ctx (DArray [], []) (uq "kv.get(`j:`+valueOf)")
     = Ok (match Runtime.kvGet (runtime no_variable_ctx)
                               (u "j:function valueOf() { [native code] }")
           with
           | Some item => DItem item
           | None => DUndefined
           end, []).
Proof.
  split; [|split; [|split]].
  - exact (@kv_get_by_path_variable (go_ctx "job2") (DArray []) []
             (u "j:") (u "U1")
             ltac:(apply Forall_neq_b; reflexivity) eq_refl
             ltac:(apply Forall_neq_b; reflexivity) eq_refl eq_refl).
  - pose proof (@kv_get_by_path_variable (go_ctx "nothing") (DArray []) []
                  (u "j:") (u "U1")
                  ltac:(apply Forall_neq_b; reflexivity) eq_refl
                  ltac:(apply Forall_neq_b; reflexivity) eq_refl eq_refl)
      as H.
    etransitivity; [exact H|]. vm_compute. reflexivity.
  - exact (@kv_get_by_path_variable (go_ctx "job2") (DArray []) []
             (u "j:") (u "U2")
             ltac:(apply Forall_neq_b; reflexivity) eq_refl
             ltac:(apply Forall_neq_b; reflexivity) eq_refl eq_refl).
  - exact (@kv_get_by_path_variable no_variable_ctx (DArray []) []
             (u "j:") (u "valueOf")
             ltac:(apply Forall_neq_b; reflexivity) eq_refl
             ltac:(apply Forall_neq_b; reflexivity) eq_refl eq_refl).
Defined.

End ExpressionFacts.

(* ================================================================== *)
(** * More on compilation *)

Section CompiledRouteFacts.

Lemma search_skip (r : re) (x : jschar) (s : jstring) :
  match_here r (x :: s) = None -> search r (x :: s) = search r s.
Proof. intros H. cbn [search]. now rewrite H. Qed.

(** [/p(\d+)<(\d+)(ms|s)/] on a budget stage [!p<P><<T>ms] or
    [!p<P><<T>s]. *)
Lemma match_budget (P T unit : jstring) :
  P <> [] -> forallb is_digit P = true ->
  T <> [] -> forallb is_digit T = true ->
  unit = u "ms" \/ unit = u "s" ->
  match_ (u "!p" ++ P ++ u "<" ++ T ++ unit) re_budget
  = Some [(Idx 3, unit); (Idx 2, T); (Idx 1, P)].
Proof.
  intros HP0 HP HT0 HT Hu. unfold match_, re_budget. cbn [anchored body].
  change (u "!p" ++ P ++ u "<" ++ T ++ unit)
    with (33%N :: u "p" ++ P ++ u "<" ++ T ++ unit).
  rewrite search_skip by reflexivity.
  apply search_here. unfold match_here.
  rewrite bt_seq, bt_lit_app, bt_seq, bt_grp.
  destruct P as [|x P]; [contradiction|].
  cbn [forallb] in HP. apply andb_true_iff in HP as [Hx HP].
  change ((x :: P) ++ u "<" ++ T ++ unit)
    with (x :: P ++ u "<" ++ T ++ unit) at 1.
  rewrite bt_plus_cls. cbn [cls_mem]. rewrite Hx.
  apply star_cls_stop; [exact HP|reflexivity|].
  cbn beta.
  change (x :: P ++ u "<" ++ T ++ unit)
    with ((x :: P) ++ u "<" ++ T ++ unit).
  rewrite firstn_sub_app.
  rewrite bt_seq, bt_lit_app, bt_seq, bt_grp.
  destruct T as [|y T]; [contradiction|].
  cbn [forallb] in HT. apply andb_true_iff in HT as [Hy HT].
  change ((y :: T) ++ unit) with (y :: T ++ unit) at 1.
  rewrite bt_plus_cls. cbn [cls_mem]. rewrite Hy.
  apply star_cls_stop; [exact HT|destruct Hu as [->| ->]; reflexivity|].
  cbn beta.
  change (y :: T ++ unit) with ((y :: T) ++ unit).
  rewrite firstn_sub_app.
  destruct Hu as [->| ->]; reflexivity.
Qed.

(** X10.  A stage [!p<P><<T>ms] adds the budget with percentile [P] and threshold
    [T] to the route, and [!p<P><<T>s] the one with threshold [1000 T]; the
    stage itself is not kept among the segments. *)
Theorem budget_stage_compiles (dict : Dictionary) (P T : jstring)
        (rest segs : list jstring) (buds : list Budget) :
  P <> [] -> forallb is_digit P = true ->
  T <> [] -> forallb is_digit T = true ->
  compile_segments dict ((u "!p" ++ P ++ u "<" ++ T ++ u "ms") :: rest)
                   segs buds
  = compile_segments dict rest segs
      (buds ++ [{| percentile := parseDigits P;
                   threshold := parseDigits T |}])
  /\ compile_segments dict ((u "!p" ++ P ++ u "<" ++ T ++ u "s") :: rest)
                      segs buds
     = compile_segments dict rest segs
         (buds ++ [{| percentile := parseDigits P;
                      threshold := parseDigits T * 1000 |}]).
Proof.
  intros HP0 HP HT0 HT. split.
  - cbn [compile_segments].
    change (startsWith (u "!p" ++ P ++ u "<" ++ T ++ u "ms") (u "!"))
      with true. cbv iota.
    rewrite (match_budget HP0 HP HT0 HT (or_introl eq_refl)). reflexivity.
  - cbn [compile_segments].
    change (startsWith (u "!p" ++ P ++ u "<" ++ T ++ u "s") (u "!"))
      with true. cbv iota.
    rewrite (match_budget HP0 HP HT0 HT (or_intror eq_refl)). reflexivity.
Qed.

Lemma budget_stage_compiles_witness :
  compile_segments kv_dict [u "!p95<200ms"] [] []
  = Ok ([], [{| percentile := 95; threshold := 200 |}])
  /\ compile_segments kv_dict [u "!p50<2s"] [] []
     = Ok ([], [{| percentile := 50; threshold := 2000 |}]).
Proof.
  destruct (@budget_stage_compiles kv_dict (u "95") (u "200") [] [] [])
    as [H _]; [discriminate|reflexivity|discriminate|reflexivity|].
  destruct (@budget_stage_compiles kv_dict (u "50") (u "2") [] [] [])
    as [_ K]; [discriminate|reflexivity|discriminate|reflexivity|].
  split.
  - etransitivity; [exact H|]. reflexivity.
  - etransitivity; [exact K|]. reflexivity.
Defined.

Lemma compile_segments_shape (dict : Dictionary) (raw : list jstring) :
  forall segs buds segs' buds',
    compile_segments dict raw segs buds = Ok (segs', buds') ->
    segs' = segs ++ filter (fun s => negb (is_budget_stage s)) raw
    /\ (exists added,
           buds' = buds ++ added
           /\ (length added <= length (filter is_budget_stage raw))%nat)
    /\ Forall (fun seg =>
                 forall m, match_ seg re_cap = Some m ->
                           builtin (group m 1) = true
                           \/ known_capability dict (group m 1) = true)
              (filter (fun s => negb (is_budget_stage s)) raw).
Proof.
  induction raw as [|seg raw IH]; intros segs buds segs' buds' H;
    cbn [compile_segments] in H.
  - injection H as <- <-. cbn [filter]. rewrite app_nil_r.
    split; [reflexivity|]. split; [|constructor].
    exists []. now rewrite app_nil_r.
  - cbn [filter].
    change (is_budget_stage seg) with (startsWith seg (u "!")).
    destruct (startsWith seg (u "!")) eqn:B; cbn [negb].
    + destruct (match_ seg re_budget) as [m|].
      * apply IH in H as (-> & (added & -> & L) & F).
        split; [reflexivity|]. split; [|exact F].
        eexists. split; [symmetry; apply app_assoc|].
        cbn [app length]. lia.
      * apply IH in H as (-> & (added & -> & L) & F).
        split; [reflexivity|]. split; [|exact F].
        exists added. split; [reflexivity|]. cbn [length]. lia.
    + destruct (match_ seg re_cap) as [m|] eqn:M.
      * destruct (builtin (group m 1)) eqn:Bi; cbn [negb andb] in H.
        -- apply IH in H as (-> & A & F). rewrite <- app_assoc.
           split; [reflexivity|]. split; [exact A|].
           constructor; [|exact F]. intros m' Hm'. rewrite M in Hm'.
           injection Hm' as <-. now left.
        -- destruct (known_capability dict (group m 1)) eqn:Kn;
             cbn [negb] in H; [|discriminate].
           apply IH in H as (-> & A & F). rewrite <- app_assoc.
           split; [reflexivity|]. split; [exact A|].
           constructor; [|exact F]. intros m' Hm'. rewrite M in Hm'.
           injection Hm' as <-. now right.
      * apply IH in H as (-> & A & F). rewrite <- app_assoc.
        split; [reflexivity|]. split; [exact A|].
        constructor; [|exact F]. intros m' Hm'. rewrite M in Hm'.
        discriminate Hm'.
Qed.

Lemma builtin_or_not (name : jstring) :
  In name [u "filter"; u "page"; u "req"]
  \/ ~ In name [u "filter"; u "page"; u "req"].
Proof.
  destruct (arr_includes [u "filter"; u "page"; u "req"] name) eqn:B.
  - left. now apply arr_includes_In.
  - right. intros H. apply arr_includes_In in H. congruence.
Qed.

Lemma match_cap_call (name rest : jstring) :
  call_name name ->
  match_ (name ++ u "(" ++ rest) re_cap = Some [(Idx 1, name)].
Proof.
  intros [Hne Hn]. unfold match_, re_cap. cbn [anchored body].
  unfold match_here. rewrite bt_seq, bt_grp.
  destruct name as [|x name]; [contradiction|].
  cbn [forallb] in Hn. apply andb_true_iff in Hn as [Hx Hn].
  change ((x :: name) ++ u "(" ++ rest) with (x :: name ++ u "(" ++ rest)
    at 1.
  rewrite bt_plus_cls. rewrite Hx.
  apply star_cls_stop; [exact Hn|reflexivity|].
  cbn beta.
  change (x :: name ++ u "(" ++ rest) with ((x :: name) ++ u "(" ++ rest).
  rewrite firstn_sub_app, bt_lit_app. reflexivity.
Qed.

Lemma call_is_no_budget_stage (name rest : jstring) :
  call_name name -> is_budget_stage (name ++ u "(" ++ rest) = false.
Proof.
  intros [Hne Hn]. destruct name as [|x name]; [contradiction|].
  cbn [forallb] in Hn. apply andb_true_iff in Hn as [Hx _].
  unfold is_budget_stage. change (u "!") with [33%N : jschar].
  cbn [app startsWith].
  destruct (N.eqb_spec x 33) as [->|_]; [discriminate Hx|reflexivity].
Qed.

Lemma truthy_falsy (v : value) : truthy v = false <-> falsy v.
Proof.
  unfold falsy. destruct v as [| |b|z|s|f|]; cbn [truthy].
  - split; [now left|reflexivity].
  - split; [now (right; left)|reflexivity].
  - destruct b; split; try discriminate; try reflexivity.
    + intros [H|[H|[H|[H|H]]]]; discriminate H.
    + intros _. right. right. now left.
  - split.
    + intros H. apply negb_false_iff, Z.eqb_eq in H. subst z.
      right. right. right. now left.
    + intros [H|[H|[H|[H|H]]]]; try discriminate H.
      now injection H as ->.
  - destruct s; split; try discriminate; try reflexivity.
    + intros _. now do 4 right.
    + intros [H|[H|[H|[H|H]]]]; discriminate H.
  - split; [discriminate|]. intros [H|[H|[H|[H|H]]]]; discriminate H.
  - split; [discriminate|]. intros [H|[H|[H|[H|H]]]]; discriminate H.
Qed.

Lemma compile_route_rejects (dict : Dictionary) (spec : jstring)
      (before later : list jstring) (name rest : jstring) :
  stages_of spec = before ++ (name ++ u "(" ++ rest) :: later ->
  call_name name ->
  ~ In name [u "filter"; u "page"; u "req"] ->
  falsy (get (capabilities dict) name) ->
  exists e, compile_route dict spec = Err e.
Proof.
  intros Hs Hn Hb Hf. unfold compile_route.
  destruct (parsePathPart _) as [pp|e]; cbn [bind]; [|eauto].
  fold (stages_of spec). rewrite Hs.
  assert (Bi : builtin (group [(Idx 1, name)] 1) = false).
  { change (group [(Idx 1, name)] 1) with name.
    destruct (builtin name) eqn:B; [|reflexivity].
    apply arr_includes_In in B. contradiction. }
  assert (Kn : known_capability dict (group [(Idx 1, name)] 1) = false).
  { change (group [(Idx 1, name)] 1) with name.
    unfold known_capability. now apply truthy_falsy. }
  destruct (compile_segments_error before later
              (call_is_no_budget_stage rest Hn) (match_cap_call rest Hn)
              Bi Kn [] []) as [e He].
  exists e.
  match goal with
  | |- bind ?c ?k = _ => assert (X : c = Err e) by exact He; rewrite X
  end.
  reflexivity.
Qed.

(** X11.  A route that compiles keeps, in their order, exactly the stages of its
    specification that do not begin with [!]; it has at most one budget for
    each stage that does; a kept stage that opens with a name and a
    parenthesis names a builtin ([filter], [page], [req]) or a name under
    which the capabilities of the dictionary hold a value that counts as
    true, as a member of their own or as one that every object inherits;
    and its latency history starts empty.  A specification with a stage
    whose name is no builtin and holds no such value does not compile. *)
Theorem compiled_route_shape (dict : Dictionary) (spec : jstring) :
  (forall r,
      compile_route dict spec = Ok r ->
      segments r = filter (fun s => negb (is_budget_stage s)) (stages_of spec)
      /\ (length (budgets r)
          <= length (filter is_budget_stage (stages_of spec)))%nat
      /\ (forall name rest,
             call_name name -> In (name ++ u "(" ++ rest) (segments r) ->
             In name [u "filter"; u "page"; u "req"]
             \/ ~ falsy (get (capabilities dict) name))
      /\ latencies r = [])
  /\ (forall before name rest later,
         stages_of spec = before ++ (name ++ u "(" ++ rest) :: later ->
         call_name name ->
         ~ In name [u "filter"; u "page"; u "req"] ->
         falsy (get (capabilities dict) name) ->
         exists e, compile_route dict spec = Err e).
Proof.
  split.
  - intros r H.
    assert (K : segments r
                = filter (fun s => negb (is_budget_stage s)) (stages_of spec)
                /\ (length (budgets r)
                    <= length (filter is_budget_stage (stages_of spec)))%nat
                /\ latencies r = []).
    { revert H. unfold compile_route, stages_of. intros H.
      destruct (parsePathPart _) as [pp|e]; cbn [bind] in H; [|discriminate].
      destruct (compile_segments _ _ _ _) as [[segs buds]|e] eqn:C;
        cbn [bind] in H; [|discriminate].
      destruct (buildPathRegex _) as [rx|e]; cbn [bind] in H;
        [|discriminate].
      injection H as <-. cbn [segments budgets latencies fst snd].
      apply compile_segments_shape in C as (-> & (added & -> & L) & F).
      cbn [app]. repeat split; assumption. }
    destruct K as (S & B & L).
    split; [exact S|]. split; [exact B|]. split; [|exact L].
    intros name rest Hn Hin.
    destruct (builtin_or_not name) as [Hb|Hb]; [now left|right].
    intros Hf. rewrite S in Hin. apply filter_In in Hin as [Hin _].
    apply in_split in Hin as (before & later & Hs).
    destruct (compile_route_rejects Hs Hn Hb Hf) as [e He].
    rewrite He in H. discriminate H.
  - intros before name rest later. apply compile_route_rejects.
Qed.

Lemma compiled_route_shape_witness :
  (exists r,
      compile_route kv_dict
        (uq "GET /j -> [M1] :: kv.scan(`j:`) | !p95<200ms | page(50)")
      = Ok r
      /\ segments r = [uq "kv.scan(`j:`)"; u "page(50)"]
      /\ ~ falsy (get (capabilities kv_dict) (u "kv.scan"))
      /\ latencies r = [])
  /\ exists e,
      compile_route kv_dict (uq "GET /j -> [M1] :: kv.scan(`j:`) | mail(1)")
      = Err e.
Proof.
  split.
  - destruct (compile_route kv_dict
                (uq "GET /j -> [M1] :: kv.scan(`j:`) | !p95<200ms | page(50)"))
      as [r|e] eqn:E; [|vm_compute in E; discriminate E].
    exists r. split; [reflexivity|].
    destruct (compiled_route_shape kv_dict
                (uq "GET /j -> [M1] :: kv.scan(`j:`) | !p95<200ms | page(50)"))
      as [H _].
    destruct (H r E) as (S & _ & K & L).
    assert (S' : segments r = [uq "kv.scan(`j:`)"; u "page(50)"]).
    { etransitivity; [exact S|]. vm_compute. reflexivity. }
    split; [exact S'|]. split; [|exact L].
    destruct (K (u "kv.scan") (uq "`j:`)")) as [B|B].
    + split; [discriminate|reflexivity].
    + rewrite S'. left. reflexivity.
    + exfalso. vm_compute in B.
      destruct B as [B|[B|[B|[]]]]; discriminate B.
    + exact B.
  - destruct (compiled_route_shape kv_dict
                (uq "GET /j -> [M1] :: kv.scan(`j:`) | mail(1)"))
      as [_ H].
    apply (H [uq "kv.scan(`j:`)"] (u "mail") (u "1)") []).
    + vm_compute. reflexivity.
    + split; [discriminate|reflexivity].
    + vm_compute. intros [B|[B|[B|[]]]]; discriminate B.
    + left. reflexivity.
Defined.

End CompiledRouteFacts.

(* ================================================================== *)
(** * The latency histories *)

Section HistoryFacts.

Lemma serve_skip (ast : Ast) (rt : Runtime.t) (rq : Request) (d : Z)
      (pre : list Route) :
  forall done todo,
    (forall r, In r pre -> answers r rq = false) ->
    serve ast rt done (pre ++ todo) rq d
    = serve ast rt (done ++ pre) todo rq d.
Proof.
  induction pre as [|r pre IH]; intros done todo H.
  - now rewrite app_nil_r.
  - cbn [app serve]. pose proof (H r (or_introl eq_refl)) as Hr.
    unfold answers in Hr.
    replace (done ++ r :: pre) with ((done ++ [r]) ++ pre)
      by now rewrite <- app_assoc.
    destruct (jstr_eqb (method r) (req_method rq)); cbn [negb andb] in *.
    + destruct (match_ (pathname rq) (regex r)); [discriminate|].
      apply IH. intros r' Hr'. apply H. now right.
    + apply IH. intros r' Hr'. apply H. now right.
Qed.

Lemma serve_first (ast : Ast) (rt : Runtime.t) (rq : Request) (d : Z)
      (done : list Route) (r : Route) (post : list Route) (m : caps) :
  jstr_eqb (method r) (req_method rq) = true ->
  match_ (pathname rq) (regex r) = Some m ->
  serve ast rt done (r :: post) rq d
  = serve_route ast rt done r post rq m d.
Proof. intros Hm Hp. cbn [serve]. now rewrite Hm, Hp. Qed.

(** Either no route of the table answers the request, or there is a first
    one that does. *)
Lemma first_answer (rq : Request) (table : list Route) :
  (forall r, In r table -> answers r rq = false)
  \/ exists pre r post m,
      table = pre ++ r :: post
      /\ (forall r', In r' pre -> answers r' rq = false)
      /\ jstr_eqb (method r) (req_method rq) = true
      /\ match_ (pathname rq) (regex r) = Some m.
Proof.
  induction table as [|r table IH].
  - left. intros r [].
  - destruct (answers r rq) eqn:A.
    + right. unfold answers in A. apply andb_true_iff in A as [A1 A2].
      destruct (match_ (pathname rq) (regex r)) as [m|] eqn:M;
        [|discriminate].
      exists [], r, table, m. repeat split; try assumption.
      intros r' [].
    + destruct IH as [IH|(pre & r0 & post & m & -> & Hpre & Hm & Hp)].
      * left. intros r' [<-|Hr']; [exact A|now apply IH].
      * right. exists (r :: pre), r0, post, m. repeat split; try assumption.
        intros r' [<-|Hr']; [exact A|now apply Hpre].
Qed.

Lemma serve_route_history (ast : Ast) (rt : Runtime.t) (done : list Route)
      (r : Route) (post : list Route) (rq : Request) (m : caps) (d : Z) :
  let o := serve_route ast rt done r post rq m d in
  match executePipeline (segments r) (ctx_of rt rq m) with
  | Err e =>
    out_response o = Failure e /\ out_compiled o = done ++ r :: post
    /\ out_logs o = []
  | Ok _ =>
    out_response o <> NotFound
    /\ out_compiled o = done ++ timed r d :: post
    /\ forall entry,
        In entry (budget_logs (req_method rq) (timed r d))
        <-> In entry (out_logs o)
            /\ entry <> PropertyCheckFailed
            /\ forall s, entry <> SuggestionInfo s
  end.
Proof.
  unfold serve_route, ctx_of.
  destruct (executePipeline _ _) as [[result fx]|e].
  - fold (timed r d).
    assert (B : forall entry,
               In entry (budget_logs (req_method rq) (timed r d)) ->
               entry <> PropertyCheckFailed
               /\ forall s, entry <> SuggestionInfo s).
    { intros entry Hin. apply budget_logs_iff in Hin
        as (b & v & _ & _ & _ & ->). split; [discriminate|].
      intros s; discriminate. }
    destruct (checkProperties ast rt) as [ok|e];
      cbn [out_response out_compiled out_logs].
    + split; [discriminate|]. split; [reflexivity|].
      intros entry. split.
      * intros Hin. split; [|now apply B].
        apply in_or_app. now left.
      * intros (Hin & N1 & N2).
        apply in_app_or in Hin as [Hin|Hin]; [exact Hin|].
        apply in_app_or in Hin as [Hin|Hin].
        -- destruct ok; [destruct Hin|].
           destruct Hin as [<-|[]]. now contradiction N1.
        -- apply in_map_iff in Hin as (s & <- & _).
           now contradiction (N2 s).
    + split; [discriminate|]. split; [reflexivity|].
      intros entry. split; [intros Hin; split; [exact Hin|now apply B]|].
      now intros (Hin & _).
  - now repeat split.
Qed.

Lemma serve_none (ast : Ast) (rt : Runtime.t) (rq : Request) (d : Z)
      (table : list Route) :
  (forall r, In r table -> answers r rq = false) ->
  serve ast rt [] table rq d
  = {| out_response := NotFound; out_compiled := table;
       out_logs := []; out_effects := [] |}.
Proof.
  intros H. rewrite <- (app_nil_r table) at 1.
  now rewrite (serve_skip ast rt d [] [] H).
Qed.

(** X12.  What a request does to the latency histories.  The request is served
    by the first route of the table, in its order, that has the request's
    method and whose pattern matches the path.  When there is no such
    route the answer is not-found and the table is left as it is.  When
    the pipeline of that route fails, the failure is the answer and the
    table is left as it is.  Otherwise the duration is appended once, to
    the history of that very route, and nothing else in the table changes;
    so a request answered with success leaves its duration behind, with
    the route that served it. *)
Theorem request_records_its_duration (sv : Server) (rq : Request) (d : Z) :
  let o := handle sv rq d in
  ((forall r, In r (sv_compiled sv) -> answers r rq = false) ->
   out_response o = NotFound /\ out_compiled o = sv_compiled sv)
  /\ (forall pre r post m,
         sv_compiled sv = pre ++ r :: post ->
         (forall r', In r' pre -> answers r' rq = false) ->
         jstr_eqb (method r) (req_method rq) = true ->
         match_ (pathname rq) (regex r) = Some m ->
         match executePipeline (segments r)
                               (ctx_of (sv_runtime sv) rq m) with
         | Err e =>
           out_response o = Failure e /\ out_compiled o = sv_compiled sv
         | Ok _ =>
           out_response o <> NotFound
           /\ out_compiled o = pre ++ timed r d :: post
         end)
  /\ (forall result,
         out_response o = Success result ->
         exists pre r post,
           sv_compiled sv = pre ++ r :: post
           /\ (forall r', In r' pre -> answers r' rq = false)
           /\ answers r rq = true
           /\ out_compiled o = pre ++ timed r d :: post).
Proof.
  unfold handle.
  assert (Served : forall pre r post m,
             sv_compiled sv = pre ++ r :: post ->
             (forall r', In r' pre -> answers r' rq = false) ->
             jstr_eqb (method r) (req_method rq) = true ->
             match_ (pathname rq) (regex r) = Some m ->
             serve (sv_ast sv) (sv_runtime sv) [] (sv_compiled sv) rq d
             = serve_route (sv_ast sv) (sv_runtime sv) pre r post rq m d).
  { intros pre r post m E Hpre Hm Hp. rewrite E.
    rewrite (serve_skip (sv_ast sv) (sv_runtime sv) d [] (r :: post) Hpre).
    cbn [app]. now apply serve_first. }
  split; [|split].
  - intros H. now rewrite (serve_none _ _ _ H).
  - intros pre r post m E Hpre Hm Hp.
    rewrite (Served pre r post m E Hpre Hm Hp).
    pose proof (serve_route_history (sv_ast sv) (sv_runtime sv) pre r post
                                    rq m d) as H.
    cbv zeta in H.
    destruct (executePipeline _ _) as [st|e].
    + destruct H as (R & C & _). now split.
    + destruct H as (R & C & _). rewrite E. now split.
  - intros result HS.
    destruct (first_answer rq (sv_compiled sv))
      as [H|(pre & r & post & m & E & Hpre & Hm & Hp)].
    + rewrite (serve_none _ _ _ H) in HS. discriminate HS.
    + exists pre, r, post. split; [exact E|]. split; [exact Hpre|].
      split; [unfold answers; now rewrite Hm, Hp|].
      rewrite (Served pre r post m E Hpre Hm Hp) in HS |- *.
      pose proof (serve_route_history (sv_ast sv) (sv_runtime sv) pre r post
                                      rq m d) as H.
      cbv zeta in H.
      destruct (executePipeline _ _) as [st|e].
      * now destruct H as (_ & C & _).
      * destruct H as (R & _). rewrite R in HS. discriminate HS.
Qed.

(** The request [GET /j/job2] on the demonstration server: the first
    route, [GET /j], does not match the path; the second one serves the
    request and gets the duration. *)
Lemma request_records_its_duration_witness :
  exists r1 r2 r3,
    sv_compiled demo_server = [r1; r2; r3]
    /\ out_compiled (handle demo_server (request "GET" "/j/job2" []) 5)
       = [r1; timed r2 5; r3].
Proof.
  destruct (request_records_its_duration
              demo_server (request "GET" "/j/job2" []) 5) as (_ & H & _).
  destruct (sv_compiled demo_server) as [|r1 [|r2 [|r3 [|r4 l]]]] eqn:E;
    try (vm_compute in E; discriminate E).
  exists r1, r2, r3. split; [reflexivity|].
  assert (E1 : r1 = nth 0 (sv_compiled demo_server) r1) by now rewrite E.
  assert (E2 : r2 = nth 1 (sv_compiled demo_server) r1) by now rewrite E.
  specialize (H [r1] r2 [r3]
                [(Name (u "U1"), u "job2")] eq_refl).
  assert (X : match
                executePipeline (segments r2)
                  (ctx_of (sv_runtime demo_server)
                          (request "GET" "/j/job2" [])
                          [(Name (u "U1"), u "job2")])
              with
              | Ok _ => True
              | Err _ => False
              end).
  { rewrite E2. vm_compute. exact I. }
  destruct (executePipeline _ _); [|destruct X].
  apply H.
  - intros r' [<-|[]]. rewrite E1. vm_compute. reflexivity.
  - rewrite E2. vm_compute. reflexivity.
  - rewrite E2. vm_compute. reflexivity.
Defined.

Lemma pVal_In (lat : list Z) (b : Budget) (v : Z) :
  pVal lat b = Some v -> In v lat.
Proof.
  unfold pVal. intros H.
  destruct (rank_index _ _); [|discriminate].
  apply nth_error_In in H.
  apply (Permutation_in _ (Permutation_sym (sort_asc_perm lat))). exact H.
Qed.

(** X13.  A budget warning is never invented: it carries the method of the
    request, it is about a budget of a route of the table, the value it
    reports is one of the durations recorded for that route (the current
    one included), and that value is above the threshold. *)
Theorem budget_warning_is_observed (sv : Server) (rq : Request) (d : Z)
        (mth pth : jstring) (pc v t : Z) :
  In (BudgetViolation mth pth pc v t) (out_logs (handle sv rq d)) ->
  mth = req_method rq /\ (t < v)%Z
  /\ exists r,
      In r (out_compiled (handle sv rq d)) /\ path r = pth
      /\ In {| percentile := pc; threshold := t |} (budgets r)
      /\ In v (latencies r).
Proof.
  unfold handle. intros Hin.
  destruct (first_answer rq (sv_compiled sv))
    as [H|(pre & r & post & m & E & Hpre & Hm & Hpath)].
  { rewrite (serve_none _ _ _ H) in Hin. destruct Hin. }
  rewrite E in Hin |- *.
  rewrite (serve_skip (sv_ast sv) (sv_runtime sv) d [] (r :: post) Hpre)
    in Hin |- *.
  cbn [app] in Hin |- *. rewrite (serve_first _ _ _ _ _ Hm Hpath) in Hin |- *.
  pose proof (serve_route_history (sv_ast sv) (sv_runtime sv) pre r post
                                  rq m d) as H.
  cbv zeta in H.
  destruct (executePipeline _ _) as [st|e]; destruct H as (_ & C & L).
  2: { rewrite L in Hin. destruct Hin. }
  - assert (B : In (BudgetViolation mth pth pc v t)
                   (budget_logs (req_method rq) (timed r d))).
    { apply L. split; [exact Hin|]. split; [discriminate|].
      intros s; discriminate. }
    apply budget_logs_iff in B as (b & v' & Hb & Hp & Hlt & Heq).
    injection Heq as -> -> -> -> ->.
    split; [reflexivity|]. split; [exact Hlt|].
    exists (timed r d). rewrite C. cbn [app].
    split; [apply in_or_app; right; now left|].
    split; [reflexivity|]. split; [now destruct b|].
    exact (pVal_In Hp).
Qed.

Lemma budget_warning_is_observed_witness :
  (45 < 50)%Z
  /\ exists r,
      In r (out_compiled
              (handle (fst (handle_all (budget_server (u "!p90<45ms"))
                                       (durations [10; 20; 30; 40]%Z)))
                      get_j 50))
      /\ In 50%Z (latencies r).
Proof.
  destruct (@budget_warning_is_observed
              (fst (handle_all (budget_server (u "!p90<45ms"))
                               (durations [10; 20; 30; 40]%Z)))
              get_j 50 (u "GET") (u "/j") 90 50 45)
    as (_ & Hlt & r & Hr & _ & _ & Hv).
  - vm_compute. left. reflexivity.
  - split; [exact Hlt|]. exists r. split; [exact Hr|exact Hv].
Defined.

End HistoryFacts.

(* ================================================================== *)
(** * More on the property checks *)

Section MonoFacts.

Lemma bt_litci_app (l s : jstring) (c : caps) (k : kont) :
  backtrack (LitCI l) (l ++ s) c k = k s c.
Proof.
  cbn [backtrack].
  assert (H : startsWithCI (l ++ s) l = true).
  { induction l as [|x l IH]; [reflexivity|].
    cbn [app startsWithCI]. now rewrite N.eqb_refl, IH. }
  now rewrite H, skipn_length_app.
Qed.

Lemma search_lit_skip (y : jschar) (l : jstring) (r : re) (f s : jstring) :
  Forall (fun c => c <> y) f ->
  search (Seq (Lit (y :: l)) r) (f ++ s) = search (Seq (Lit (y :: l)) r) s.
Proof.
  induction 1 as [|c f Hc _ IH]; [reflexivity|].
  cbn [app]. rewrite search_skip; [exact IH|].
  unfold match_here. cbn [backtrack startsWith].
  apply N.eqb_neq in Hc. now rewrite Hc.
Qed.

Lemma search_lit_none (y : jschar) (l : jstring) (r : re) (s : jstring) :
  Forall (fun c => c <> y) s -> search (Seq (Lit (y :: l)) r) s = None.
Proof.
  intros H. rewrite <- (app_nil_r s), (search_lit_skip _ _ _ H). reflexivity.
Qed.

Lemma digits_neq (y : jschar) (ds : jstring) :
  is_digit y = false -> forallb is_digit ds = true ->
  Forall (fun c => c <> y) ds.
Proof.
  intros Hy H. apply Forall_forall. intros c Hc ->.
  rewrite forallb_forall in H. specialize (H y Hc). congruence.
Qed.

Lemma startsWith_suffix_neq (y : jschar) (p s a b : jstring) :
  Forall (fun c => c <> y) s -> s = a ++ b -> startsWith b (y :: p) = false.
Proof.
  intros H ->. apply Forall_app in H as [_ H].
  destruct H as [|c b Hc _]; [reflexivity|].
  cbn [startsWith]. apply N.eqb_neq in Hc. now rewrite Hc.
Qed.

(** [/U(\d+)\(x\)\s*([<>]=?|≥|≤)\s*(\d+)/] finds nothing in a [mono]
    property. *)
Lemma match_cmp_mono_property (d e : jstring) :
  d <> [] -> forallb is_digit d = true -> forallb is_digit e = true ->
  match_ (mono_property d e) re_cmp = None.
Proof.
  intros Hd0 Hd He. unfold match_, re_cmp, mono_property.
  cbn [anchored body].
  change (u "U") with (85%N :: []).
  change (u "mono(U" ++ d ++ u ", E" ++ e ++ u ")")
    with (u "mono(" ++ 85%N :: d ++ u ", E" ++ e ++ u ")").
  rewrite search_lit_skip by (apply Forall_neq_b; reflexivity).
  assert (T : Forall (fun c => c <> 85%N) (d ++ u ", E" ++ e ++ u ")")).
  { apply Forall_app; split; [now apply digits_neq|].
    apply Forall_app; split; [apply Forall_neq_b; reflexivity|].
    apply Forall_app; split; [now apply digits_neq|].
    apply Forall_neq_b; reflexivity. }
  assert (P : Forall (fun c => c <> 40%N) (d ++ u ", E" ++ e ++ u ")")).
  { apply Forall_app; split; [now apply digits_neq|].
    apply Forall_app; split; [apply Forall_neq_b; reflexivity|].
    apply Forall_app; split; [now apply digits_neq|].
    apply Forall_neq_b; reflexivity. }
  rewrite search_skip; [now apply search_lit_none|].
  unfold match_here.
  change (85%N :: d ++ u ", E" ++ e ++ u ")")
    with ([85%N] ++ d ++ u ", E" ++ e ++ u ")").
  rewrite bt_seq, bt_lit_app, bt_seq, bt_grp.
  destruct d as [|x d]; [contradiction|].
  cbn [forallb] in Hd. apply andb_true_iff in Hd as [Hx Hd].
  change ((x :: d) ++ u ", E" ++ e ++ u ")")
    with (x :: d ++ u ", E" ++ e ++ u ")") in *.
  rewrite bt_plus_cls. cbn [cls_mem]. rewrite Hx.
  apply star_cls_none. intros a b E. rewrite bt_seq. cbn [backtrack].
  change (u "(x)") with ((40%N : jschar) :: u "x)").
  apply Forall_inv_tail in P.
  now rewrite (startsWith_suffix_neq (u "x)") P E).
Qed.

(** [/mono\(\s*(U\d+)\s*,\s*E(\d+)\s*\)/i] on a [mono] property. *)
Lemma match_mono_property (d e : jstring) :
  d <> [] -> forallb is_digit d = true ->
  e <> [] -> forallb is_digit e = true ->
  match_ (mono_property d e) re_mono
  = Some [(Idx 2, e); (Idx 1, u "U" ++ d)].
Proof.
  intros Hd0 Hd He0 He. unfold match_, re_mono, mono_property.
  cbn [anchored body]. apply search_here. unfold match_here.
  change (u "mono(U" ++ d ++ u ", E" ++ e ++ u ")")
    with (u "mono(" ++ u "U" ++ d ++ u ", E" ++ e ++ u ")").
  rewrite bt_seq, bt_litci_app, bt_seq, bt_star_cls.
  apply (@star_cls_stop space [] (u "U" ++ d ++ u ", E" ++ e ++ u ")"));
    [reflexivity|reflexivity|].
  cbn beta. rewrite bt_seq, bt_grp, bt_seq, bt_litci_app.
  destruct d as [|x d]; [contradiction|].
  cbn [forallb] in Hd. apply andb_true_iff in Hd as [Hx Hd].
  change ((x :: d) ++ u ", E" ++ e ++ u ")")
    with (x :: d ++ u ", E" ++ e ++ u ")") at 1.
  rewrite bt_plus_cls. cbn [cls_mem]. rewrite Hx.
  apply star_cls_stop; [exact Hd|reflexivity|].
  cbn beta.
  change (u "U" ++ (x :: d) ++ u ", E" ++ e ++ u ")")
    with ((u "U" ++ x :: d) ++ u ", E" ++ e ++ u ")").
  rewrite firstn_sub_app.
  rewrite bt_seq, bt_star_cls.
  apply (@star_cls_stop space [] (u ", E" ++ e ++ u ")"));
    [reflexivity|reflexivity|].
  cbn beta.
  change (u ", E" ++ e ++ u ")") with (u "," ++ u " " ++ u "E" ++ e ++ u ")").
  rewrite bt_seq, bt_lit_app, bt_seq, bt_star_cls.
  apply (@star_cls_stop space (u " ") (u "E" ++ e ++ u ")"));
    [reflexivity|reflexivity|].
  cbn beta. rewrite bt_seq, bt_litci_app, bt_seq, bt_grp.
  destruct e as [|y e]; [contradiction|].
  cbn [forallb] in He. apply andb_true_iff in He as [Hy He].
  change ((y :: e) ++ u ")") with (y :: e ++ u ")") at 1.
  rewrite bt_plus_cls. cbn [cls_mem]. rewrite Hy.
  apply star_cls_stop; [exact He|reflexivity|].
  cbn beta.
  change (y :: e ++ u ")") with ((y :: e) ++ u ")").
  rewrite firstn_sub_app.
  rewrite bt_seq, bt_star_cls.
  apply (@star_cls_stop space [] (u ")")); [reflexivity|reflexivity|].
  cbn beta. rewrite bt_lit_exact. reflexivity.
Qed.

Lemma check_property_mono (ast : Ast) (rt : Runtime.t) (d e : jstring) :
  d <> [] -> forallb is_digit d = true ->
  e <> [] -> forallb is_digit e = true ->
  check_property ast rt (mono_property d e)
  = let* prefix := scanPrefix ast in
    Ok (forallb (mono_item_ok (u "U" ++ d) (declared ast e))
                (Runtime.kvScan rt prefix)).
Proof.
  intros Hd0 Hd He0 He. unfold check_property, check_cmp, check_mono.
  rewrite (match_cmp_mono_property Hd0 Hd He). cbn [bind].
  rewrite (match_mono_property Hd0 Hd He0 He).
  change (group [(Idx 2, e); (Idx 1, u "U" ++ d)] 1) with (u "U" ++ d).
  change (group [(Idx 2, e); (Idx 1, u "U" ++ d)] 2) with e.
  fold (declared ast e).
  destruct (scanPrefix ast) as [pfx|err]; cbn [bind]; [|reflexivity].
  now rewrite mono_items_forallb.
Qed.

Lemma checkProperties_mono (ast : Ast) (rt : Runtime.t)
      (id d e pfx : jstring) :
  d <> [] -> forallb is_digit d = true ->
  e <> [] -> forallb is_digit e = true ->
  properties ast = Some [(id, mono_property d e)] ->
  scanPrefix ast = Ok pfx ->
  checkProperties ast rt
  = Ok (forallb (mono_item_ok (u "U" ++ d) (declared ast e))
                (Runtime.kvScan rt pfx)).
Proof.
  intros Hd0 Hd He0 He Hp Hs.
  unfold checkProperties. rewrite Hp. cbn [check_all].
  rewrite (check_property_mono ast rt Hd0 Hd He0 He), Hs. cbn [bind].
  now destruct (forallb (mono_item_ok _ _) _).
Qed.

Lemma mono_item_ok_iff (field : jstring) (allowed : list jstring)
      (item : Runtime.item) :
  mono_item_ok field allowed item = true
  <-> get item field = VUndefined \/ In (ToString (get item field)) allowed.
Proof.
  unfold mono_item_ok. rewrite orb_true_iff, arr_includes_In.
  destruct (get item field); cbn [is_undefined]; intuition congruence.
Qed.

Lemma mono_verdict (ast : Ast) (rt : Runtime.t) (id d e pfx : jstring) :
  d <> [] -> forallb is_digit d = true ->
  e <> [] -> forallb is_digit e = true ->
  properties ast = Some [(id, mono_property d e)] ->
  scanPrefix ast = Ok pfx ->
  (checkProperties ast rt = Ok true
   <-> forall item,
       In item (Runtime.kvScan rt pfx) ->
       get item (u "U" ++ d) = VUndefined
       \/ In (ToString (get item (u "U" ++ d))) (declared ast e))
  /\ (checkProperties ast rt = Ok true \/ checkProperties ast rt = Ok false).
Proof.
  intros Hd0 Hd He0 He Hp Hs.
  rewrite (checkProperties_mono rt Hd0 Hd He0 He Hp Hs). split.
  - split.
    + intros [= F] item Hin. rewrite forallb_forall in F.
      apply mono_item_ok_iff. now apply F.
    + intros H. f_equal. apply forallb_forall. intros item Hin.
      apply mono_item_ok_iff. now apply H.
  - destruct (forallb (mono_item_ok _ _) _); [now left|now right].
Qed.

(** X14.  A program whose only property is [mono(U<d>, E<e>)] passes the check
    exactly when every scanned item that has the field [U<d>] holds, as
    text, one of the values that the enum [E<e>] declares.  When the enum
    is not declared there is no such value: the check then fails as soon as
    one scanned item has the field. *)
Theorem mono_property_checks (ast : Ast) (rt : Runtime.t)
        (id d e pfx : jstring) :
  d <> [] -> forallb is_digit d = true ->
  e <> [] -> forallb is_digit e = true ->
  properties ast = Some [(id, mono_property d e)] ->
  scanPrefix ast = Ok pfx ->
  (checkProperties ast rt = Ok true
   <-> forall item,
       In item (Runtime.kvScan rt pfx) ->
       get item (u "U" ++ d) = VUndefined
       \/ In (ToString (get item (u "U" ++ d))) (declared ast e))
  /\ (checkProperties ast rt = Ok true \/ checkProperties ast rt = Ok false)
  /\ (declared ast e = [] ->
      forall item,
        In item (Runtime.kvScan rt pfx) ->
        get item (u "U" ++ d) <> VUndefined ->
        checkProperties ast rt = Ok false).
Proof.
  intros Hd0 Hd He0 He Hp Hs.
  destruct (mono_verdict rt Hd0 Hd He0 He Hp Hs) as [Hiff Hb].
  split; [exact Hiff|]. split; [exact Hb|].
  intros Hnone item Hin Hdef.
  destruct Hb as [Ht|Hf]; [|exact Hf].
  destruct Hiff as [Hiff _]. destruct (Hiff Ht item Hin) as [Hu|Hv].
  - now contradiction Hdef.
  - rewrite Hnone in Hv. destruct Hv.
Qed.

Lemma mono_property_checks_witness :
  checkProperties (mono_ast [(u "E1", [u "0"; u "1"; u "2"])])
                  (Runtime.kvSet Runtime.empty (u "j:a")
                                 [(u "U4", VNum 1)])
  = Ok true
  /\ checkProperties (mono_ast [])
                     (Runtime.kvSet Runtime.empty (u "j:a")
                                    [(u "U4", VNum 1)])
     = Ok false.
Proof.
  split.
  - destruct (@mono_property_checks
                (mono_ast [(u "E1", [u "0"; u "1"; u "2"])])
                (Runtime.kvSet Runtime.empty (u "j:a") [(u "U4", VNum 1)])
                (u "P1") (u "4") (u "1") (u "j:"))
      as ([_ H] & _);
      [discriminate|reflexivity|discriminate|reflexivity|reflexivity
      |vm_compute; reflexivity|].
    apply H. intros item Hin. vm_compute in Hin.
    destruct Hin as [<-|[]]. right. vm_compute. right. left. reflexivity.
  - destruct (@mono_property_checks
                (mono_ast [])
                (Runtime.kvSet Runtime.empty (u "j:a") [(u "U4", VNum 1)])
                (u "P1") (u "4") (u "1") (u "j:"))
      as (_ & _ & H);
      [discriminate|reflexivity|discriminate|reflexivity|reflexivity
      |vm_compute; reflexivity|].
    apply (H eq_refl [(u "U4", VNum 1)]).
    + vm_compute. left. reflexivity.
    + vm_compute. discriminate.
Defined.

Lemma check_all_empty_scan (ast : Ast) (rt : Runtime.t) (pfx : jstring)
      (props : list (jstring * jstring)) :
  scanPrefix ast = Ok pfx -> Runtime.kvScan rt pfx = [] ->
  check_all ast rt props = Ok true.
Proof.
  intros Hs Hk. induction props as [|[id prop] props IH]; [reflexivity|].
  cbn [check_all]. unfold check_property, check_cmp, check_mono.
  destruct (match_ prop re_cmp); destruct (match_ prop re_mono);
    rewrite ?Hs; cbn [bind]; rewrite ?Hk; cbn [bind cmp_items mono_items];
    exact IH.
Qed.

(** X15.  The checks look only at the items under the inferred prefix: when the
    store holds nothing under it, every program passes, whatever its
    properties say and whatever else the store holds. *)
Theorem properties_pass_without_items (ast : Ast) (rt : Runtime.t)
        (pfx : jstring) :
  scanPrefix ast = Ok pfx -> Runtime.kvScan rt pfx = [] ->
  checkProperties ast rt = Ok true.
Proof.
  intros Hs Hk. unfold checkProperties.
  destruct (properties ast) as [props|]; [|reflexivity].
  exact (check_all_empty_scan props Hs Hk).
Qed.

Lemma properties_pass_without_items_witness :
  checkProperties other_prefix_ast store_negative = Ok true
  /\ checkProperties nonneg_ast store_negative = Ok false.
Proof.
  split.
  - apply (@properties_pass_without_items other_prefix_ast store_negative
                                          (u "k:")).
    + vm_compute. reflexivity.
    + vm_compute. reflexivity.
  - vm_compute. reflexivity.
Defined.

End MonoFacts.

(* ================================================================== *)
(** * Splitting and trimming *)

Section SplitFacts.

Lemma trimStart_ws (w s : jstring) :
  forallb is_space w = true -> trimStart (w ++ s) = trimStart s.
Proof.
  induction w as [|c w IH]; [reflexivity|]. cbn [forallb app trimStart].
  intros H. apply andb_true_iff in H as [Hc Hw]. rewrite Hc. now apply IH.
Qed.

Lemma trimStart_all_space (s : jstring) :
  forallb is_space s = true -> trimStart s = [].
Proof.
  intros H. rewrite <- (app_nil_r s). now rewrite trimStart_ws.
Qed.

Lemma trimStart_app (s w : jstring) :
  forallb is_space s = false -> trimStart (s ++ w) = trimStart s ++ w.
Proof.
  induction s as [|c s IH]; [discriminate|]. cbn [forallb app trimStart].
  destruct (is_space c); cbn [andb]; [exact IH|reflexivity].
Qed.

Lemma forallb_rev {A} (f : A -> bool) (l : list A) :
  forallb f (rev l) = forallb f l.
Proof.
  induction l as [|x l IH]; [reflexivity|].
  cbn [rev forallb]. rewrite forallb_app, IH. cbn [forallb].
  rewrite andb_true_r. apply andb_comm.
Qed.

Lemma trimEnd_ws (s w : jstring) :
  forallb is_space w = true -> trimEnd (s ++ w) = trimEnd s.
Proof.
  intros H. unfold trimEnd. rewrite rev_app_distr, trimStart_ws;
    [reflexivity|]. now rewrite forallb_rev.
Qed.

(** White space around a text does not change what [trim] gives. *)
Lemma trim_ws (w1 s w2 : jstring) :
  forallb is_space w1 = true -> forallb is_space w2 = true ->
  trim (w1 ++ s ++ w2) = trim s.
Proof.
  intros H1 H2. unfold trim. rewrite (trimStart_ws _ H1).
  destruct (forallb is_space s) eqn:E.
  - rewrite (trimStart_all_space E).
    rewrite trimStart_all_space; [reflexivity|].
    now rewrite forallb_app, E, H2.
  - rewrite (trimStart_app _ E). now apply trimEnd_ws.
Qed.

Lemma split_fuel_join (y : jschar) (parts : list jstring) :
  parts <> [] -> Forall (Forall (fun c => c <> y)) parts ->
  forall n, (length parts <= S n)%nat ->
            split_fuel n (join [y] parts) [y] = parts.
Proof.
  induction parts as [|a rest IH]; [contradiction|].
  intros _ F n Hn. apply Forall_cons_iff in F as [Fa F].
  destruct rest as [|b rest].
  - cbn [join]. apply split_fuel_absent. now apply find_sub_absent.
  - destruct n as [|n]; [cbn [length] in Hn; lia|].
    change (join [y] (a :: b :: rest))
      with (a ++ (y :: []) ++ join [y] (b :: rest)).
    cbn [split_fuel]. rewrite (find_sub_first _ _ Fa).
    f_equal. apply IH; [discriminate|exact F|cbn [length] in *; lia].
Qed.

Lemma join_length (sep : jstring) (parts : list jstring) :
  (length parts <= S (length (join (sep ++ [0%N]) parts)))%nat.
Proof.
  induction parts as [|a rest IH]; [cbn; lia|].
  destruct rest as [|b rest]; [cbn; lia|].
  change (join (sep ++ [0%N]) (a :: b :: rest))
    with (a ++ (sep ++ [0%N]) ++ join (sep ++ [0%N]) (b :: rest)).
  rewrite !length_app. cbn [length] in *. lia.
Qed.

Lemma join_one_length (y : jschar) (parts : list jstring) :
  (length parts <= S (length (join [y] parts)))%nat.
Proof.
  induction parts as [|a rest IH]; [cbn; lia|].
  destruct rest as [|b rest]; [cbn; lia|].
  change (join [y] (a :: b :: rest))
    with (a ++ [y] ++ join [y] (b :: rest)).
  rewrite !length_app. cbn [length] in *. lia.
Qed.

(** Splitting at a character undoes joining with it, for parts that do
    not hold it. *)
Lemma split_join (y : jschar) (parts : list jstring) :
  parts <> [] -> Forall (Forall (fun c => c <> y)) parts ->
  split (join [y] parts) [y] = parts.
Proof.
  intros H F. unfold split. apply split_fuel_join; [exact H|exact F|].
  apply join_one_length.
Qed.

Lemma space_neq (y : jschar) (w : jstring) :
  is_space y = false -> forallb is_space w = true ->
  Forall (fun c => c <> y) w.
Proof.
  intros Hy H. apply Forall_forall. intros c Hc ->.
  rewrite forallb_forall in H. specialize (H y Hc). congruence.
Qed.

Lemma layout_parts (bar : jschar) (l : list padded) :
  is_space bar = false -> Forall (well_padded bar) l ->
  Forall (Forall (fun c => c <> bar)) (map layout l)
  /\ map trim (map layout l) = map text l.
Proof.
  intros Hb. induction 1 as [|p l (H1 & H2 & H3 & H4) _ [IH1 IH2]];
    [split; [constructor|reflexivity]|].
  cbn [map]. split.
  - constructor; [|exact IH1]. unfold layout.
    apply Forall_app; split; [now apply space_neq|].
    apply Forall_app; split; [exact H4|now apply space_neq].
  - f_equal; [|exact IH2]. unfold layout. now rewrite trim_ws.
Qed.

(** X16.  [parsePipeline] gives back the stages of a pipeline written with [|]
    between them and any white space around them. *)
Theorem parsePipeline_stages (stages : list padded) :
  stages <> [] -> Forall (well_padded 124%N) stages ->
  parsePipeline (join (u "|") (map layout stages)) = map text stages.
Proof.
  intros Hne H. unfold parsePipeline.
  destruct (@layout_parts 124%N stages eq_refl H) as [F T].
  change (u "|") with [124%N]. rewrite split_join; [exact T| |exact F].
  destruct stages; [contradiction|discriminate].
Qed.

Lemma parsePipeline_stages_witness :
  parsePipeline (uq "kv.scan(`j:`) | filter(U4 in ?q.s) | page(2)")
  = [uq "kv.scan(`j:`)"; u "filter(U4 in ?q.s)"; u "page(2)"].
Proof.
  apply (@parsePipeline_stages
           [ {| before := []; text := uq "kv.scan(`j:`)";
                behind := u " " |};
             {| before := u " "; text := u "filter(U4 in ?q.s)";
                behind := u " " |};
             {| before := u " "; text := u "page(2)"; behind := [] |} ]).
  - discriminate.
  - repeat (apply Forall_cons;
            [unfold well_padded; cbn [before text behind];
             repeat split; try reflexivity; apply Forall_neq_b; reflexivity|]).
    apply Forall_nil.
Defined.

Lemma splitArgs_step_read (st : SplitState) (ch : jschar) :
  read_so_far (splitArgs_step st ch) = read_so_far st ++ [ch].
Proof.
  unfold splitArgs_step, read_so_far.
  destruct (inQuote st); cbn [args current].
  - now rewrite app_assoc.
  - destruct ((ch =? 34) || (ch =? 39))%N; cbn [args current].
    + now rewrite app_assoc.
    + destruct (ch =? 44)%N eqn:E; cbn [args current].
      * apply N.eqb_eq in E. subst ch.
        rewrite map_app, concat_app. cbn [map concat].
        rewrite !app_nil_r. now rewrite <- app_assoc.
      * now rewrite app_assoc.
Qed.

Lemma fold_splitArgs_read (s : jstring) (st : SplitState) :
  read_so_far (fold_left splitArgs_step s st) = read_so_far st ++ s.
Proof.
  revert st; induction s as [|ch s IH]; intros st; cbn [fold_left].
  - now rewrite app_nil_r.
  - rewrite IH, splitArgs_step_read. now rewrite <- app_assoc.
Qed.

(** X17.  [splitArgs] loses no character: its arguments, each followed by a
    comma, spell the text it was given, up to the comma after the last
    one. *)
Theorem splitArgs_spells_its_input (s : jstring) :
  concat (map (fun a => a ++ u ",") (splitArgs s)) = s ++ u ","
  \/ concat (map (fun a => a ++ u ",") (splitArgs s)) = s.
Proof.
  unfold splitArgs.
  pose proof (fold_splitArgs_read s
                {| args := []; current := []; inQuote := false;
                   quoteChar := 0%N |}) as H.
  unfold read_so_far at 2 in H. cbn [args current map concat app] in H.
  unfold read_so_far in H.
  destruct (current (fold_left splitArgs_step s _)) as [|c cur].
  - right. now rewrite app_nil_r in H.
  - left. rewrite map_app, concat_app. cbn [map concat].
    rewrite app_nil_r, app_assoc. f_equal. exact H.
Qed.

Lemma fold_splitArgs_plain (s : jstring) (st : SplitState) :
  inQuote st = false ->
  forallb (fun c => negb ((c =? 34) || (c =? 39) || (c =? 44))%N) s = true ->
  fold_left splitArgs_step s st
  = {| args := args st; current := current st ++ s;
       inQuote := false; quoteChar := quoteChar st |}.
Proof.
  revert st; induction s as [|ch s IH]; intros st Hq H; cbn [fold_left].
  - rewrite app_nil_r. destruct st; cbn in *. now subst.
  - cbn [forallb] in H. apply andb_true_iff in H as [Hc H].
    apply negb_true_iff in Hc. apply orb_false_iff in Hc as [Hc H44].
    rewrite IH; [| |exact H].
    + unfold splitArgs_step. rewrite Hq, Hc, H44. cbn.
      now rewrite <- app_assoc.
    + unfold splitArgs_step. now rewrite Hq, Hc, H44.
Qed.

Lemma fold_splitArgs_inside (q : jschar) (body : jstring) (st : SplitState) :
  inQuote st = true -> quoteChar st = q ->
  Forall (fun c => c <> q) body ->
  fold_left splitArgs_step (body ++ [q]) st
  = {| args := args st; current := current st ++ body ++ [q];
       inQuote := false; quoteChar := q |}.
Proof.
  revert st; induction body as [|ch body IH]; intros st Hq Hc F.
  - cbn [app fold_left]. unfold splitArgs_step.
    now rewrite Hq, Hc, N.eqb_refl.
  - apply Forall_cons_iff in F as [Hch F]. cbn [app fold_left].
    rewrite IH; [| | |exact F].
    + unfold splitArgs_step. rewrite Hq. cbn.
      now rewrite <- app_assoc.
    + unfold splitArgs_step. rewrite Hq. cbn. rewrite Hc.
      apply N.eqb_neq in Hch. now rewrite Hch.
    + unfold splitArgs_step. now rewrite Hq.
Qed.

Lemma fold_splitArgs_quoted (body : jstring) (st : SplitState) :
  inQuote st = false -> Forall (fun c => c <> 34%N) body ->
  fold_left splitArgs_step ((34%N : jschar) :: body ++ [34%N : jschar]) st
  = {| args := args st;
       current := current st ++ (34%N : jschar) :: body ++ [34%N : jschar];
       inQuote := false; quoteChar := 34%N |}.
Proof.
  intros Hq Hb. cbn [fold_left].
  rewrite (@fold_splitArgs_inside 34%N); [| | |exact Hb].
  - unfold splitArgs_step. rewrite Hq. cbn. now rewrite <- app_assoc.
  - unfold splitArgs_step. now rewrite Hq.
  - unfold splitArgs_step. now rewrite Hq.
Qed.

(** Commas inside double quotes do not end an argument. *)
Lemma splitArgs_two_quoted (a b tail : jstring) :
  Forall (fun c => c <> 34%N) a -> Forall (fun c => c <> 34%N) b ->
  forallb (fun c => negb ((c =? 34) || (c =? 39) || (c =? 44))%N) tail
  = true ->
  splitArgs (((34%N : jschar) :: a ++ [34%N : jschar]) ++ u ","
             ++ ((34%N : jschar) :: b ++ [34%N : jschar]) ++ tail)
  = [(34%N : jschar) :: a ++ [34%N : jschar];
     ((34%N : jschar) :: b ++ [34%N : jschar]) ++ tail].
Proof.
  intros Ha Hb Ht. unfold splitArgs.
  rewrite fold_left_app.
  rewrite fold_splitArgs_quoted; [|reflexivity|exact Ha].
  change (u "," ++ ((34%N : jschar) :: b ++ [34%N : jschar]) ++ tail)
    with ((44%N : jschar)
            :: ((34%N : jschar) :: b ++ [34%N : jschar]) ++ tail).
  cbn [fold_left]. rewrite fold_left_app.
  rewrite fold_splitArgs_quoted; [|reflexivity|exact Hb].
  rewrite fold_splitArgs_plain; [|reflexivity|exact Ht].
  reflexivity.
Qed.

Lemma evaluateExpression_literal (ctx : Ctx) (lit : jstring) :
  Forall (fun c => c <> 43%N) lit ->
  evaluateExpression ((34%N : jschar) :: lit ++ [34%N : jschar]) ctx = lit.
Proof.
  intros Pl. unfold evaluateExpression.
  assert (S : split ((34%N : jschar) :: lit ++ [34%N : jschar]) (u "+")
              = [(34%N : jschar) :: lit ++ [34%N : jschar]]).
  { apply split_fuel_absent. apply find_sub_absent.
    constructor; [discriminate|]. apply Forall_app. split; [exact Pl|].
    constructor; [discriminate|constructor]. }
  rewrite S. cbn [map]. rewrite trim_edges by reflexivity.
  unfold fold_left. destruct (quoted_literal lit) as [-> ->]. reflexivity.
Qed.

Lemma trim_open_ended (x : jschar) (mid t : jstring) :
  is_space x = false -> no_space t -> t <> [] ->
  trim (x :: mid ++ t) = x :: mid ++ t.
Proof.
  intros Hx Ht Hne.
  destruct (exists_last Hne) as (t' & y & ->).
  unfold no_space in Ht. rewrite forallb_app in Ht.
  apply andb_true_iff in Ht as [_ Hy]. cbn [forallb] in Hy.
  rewrite andb_true_r in Hy. apply negb_true_iff in Hy.
  rewrite app_assoc. now apply trim_edges.
Qed.

(** X18.  A stage [http.post("a","b"+name)] passes the data on as it is and
    makes one outbound call, with two arguments: the text [a], and the
    text [b] followed by what [name] stands for: the text that the path of
    the route binds to the variable [name]; the name itself when the path
    binds other variables only; and on a route whose path has no variable,
    the text of the member that every object inherits under that name, or
    the name itself when there is none.  Commas inside the quotes do not
    split an argument. *)
Theorem http_post_arguments (ctx : Ctx) (dt : data) (fx : list effect)
        (a b name : jstring) :
  Forall (fun c => c <> 34%N) a -> Forall (fun c => c <> 43%N) a ->
  forallb (cls_mem dot) a = true ->
  Forall (fun c => c <> 34%N) b -> Forall (fun c => c <> 43%N) b ->
  forallb (cls_mem dot) b = true ->
  forallb (fun c => negb ((c =? 34) || (c =? 39) || (c =? 44))%N) name
  = true ->
  Forall (fun c => c <> 43%N) name -> no_space name -> name <> [] ->
  step ctx (dt, fx)
       (uq "http.post(`" ++ a ++ uq "`,`" ++ b ++ uq "`+" ++ name ++ u ")")
  = Ok (dt, fx ++ [HttpPost [a; b ++ stands_for ctx name]]).
Proof.
  intros Qa Pa Da Qb Pb Db Cn Pn Hn Hne.
  set (arg := ((34%N : jschar) :: a ++ [34%N : jschar]) ++ u ","
              ++ ((34%N : jschar) :: b ++ [34%N : jschar])
              ++ (43%N : jschar) :: name).
  assert (E : uq "http.post(`" ++ a ++ uq "`,`" ++ b ++ uq "`+" ++ name
                 ++ u ")"
              = u "http.post" ++ u "(" ++ arg ++ u ")").
  { unfold arg.
    change (uq "http.post(`" ++ a ++ uq "`,`" ++ b ++ uq "`+" ++ name
               ++ u ")")
      with (u "http.post(" ++ (34%N : jschar) :: a ++ (34%N : jschar)
              :: (44%N : jschar) :: (34%N : jschar) :: b ++ (34%N : jschar)
              :: (43%N : jschar) :: name ++ u ")").
    change (u "http.post" ++ u "("
              ++ (((34%N : jschar) :: a ++ [34%N : jschar]) ++ u ","
                  ++ ((34%N : jschar) :: b ++ [34%N : jschar])
                  ++ (43%N : jschar) :: name) ++ u ")")
      with (u "http.post("
              ++ (((34%N : jschar) :: a ++ [34%N : jschar])
                  ++ [44%N : jschar]
                  ++ ((34%N : jschar) :: b ++ [34%N : jschar])
                  ++ (43%N : jschar) :: name) ++ u ")").
    f_equal. repeat first [rewrite <- app_assoc|progress cbn [app]].
    reflexivity. }
  assert (Dn : forallb (cls_mem dot) name = true) by now apply no_space_dot.
  assert (M : match_ (u "http.post" ++ u "(" ++ arg ++ u ")") re_http_post
              = Some [(Idx 1, arg)]).
  { apply match_call; [discriminate|]. unfold arg.
    cbn [forallb app]. rewrite !forallb_app, Da. cbn [forallb app].
    rewrite !forallb_app, Db. cbn [forallb]. now rewrite Dn. }
  assert (Q : quoted name = false).
  { destruct name as [|c name]; [reflexivity|].
    cbn [forallb] in Cn. apply andb_true_iff in Cn as [Cc _].
    apply negb_true_iff in Cc. apply orb_false_iff in Cc as [Cc _].
    apply orb_false_iff in Cc as [C34 C39].
    unfold quoted. change (uq "`") with [34%N : jschar].
    change (u "'") with [39%N : jschar].
    cbn [startsWith]. now rewrite C34, C39. }
  assert (A : parseArgs arg ctx
              = [a; b ++ (if negb (is_undefined (pathVar ctx name))
                          then ToString (pathVar ctx name) else name)]).
  { unfold parseArgs, arg.
    rewrite splitArgs_two_quoted; [|exact Qa|exact Qb|].
    - cbn [map]. rewrite trim_edges by reflexivity.
      rewrite (evaluateExpression_literal ctx Pa).
      change (((34%N : jschar) :: b ++ [34%N : jschar])
                ++ (43%N : jschar) :: name)
        with ((34%N : jschar)
                :: (b ++ [34%N : jschar]) ++ (43%N : jschar) :: name).
      assert (R : (b ++ [34%N : jschar]) ++ (43%N : jschar) :: name
                  = (b ++ [34%N : jschar; 43%N : jschar]) ++ name)
        by now rewrite <- !app_assoc.
      rewrite R, trim_open_ended; [|reflexivity|exact Hn|exact Hne].
      pose proof (evaluateExpression_literal_name ctx Pb Pn Hn Q) as V.
      replace ((34%N : jschar) :: (b ++ [34%N : jschar; 43%N : jschar])
                 ++ name)
        with (uq "`" ++ b ++ uq "`+" ++ name);
        [now rewrite V|].
      change (uq "`" ++ b ++ uq "`+" ++ name)
        with ((34%N : jschar) :: b ++ [34%N : jschar; 43%N : jschar]
                ++ name).
      now rewrite app_assoc.
    - cbn [forallb]. exact Cn. }
  unfold step. rewrite E.
  change (startsWith (u "http.post" ++ u "(" ++ arg ++ u ")") (u "kv.scan"))
    with false.
  change (startsWith (u "http.post" ++ u "(" ++ arg ++ u ")") (u "kv.get"))
    with false.
  change (startsWith (u "http.post" ++ u "(" ++ arg ++ u ")") (u "filter"))
    with false.
  change (startsWith (u "http.post" ++ u "(" ++ arg ++ u ")") (u "page"))
    with false.
  change (startsWith (u "http.post" ++ u "(" ++ arg ++ u ")") (u "req"))
    with false.
  change (startsWith (u "http.post" ++ u "(" ++ arg ++ u ")")
                     (u "http.post")) with true.
  cbv iota. rewrite M.
  change (group [(Idx 1, arg)] 1) with arg.
  now rewrite A, expression_name.
Qed.

(** The variable [U1] bound by the path; the name [U2], which the path
    does not bind; and the name [toString] on a route without variables. *)
Lemma http_post_arguments_witness :
  step (go_ctx "job2") (DUndefined, [])
       (uq "http.post(`m,n`,`/u/`+U1)")
  = Ok (DUndefined, [HttpPost [u "m,n"; u "/u/job2"]])
  /\ step (go_ctx "job2") (DUndefined, [])
          (uq "http.post(`m,n`,`/u/`+U2)")
     = Ok (DUndefined, [HttpPost [u "m,n"; u "/u/U2"]])
  /\ step no_variable_ctx (DUndefined, [])
          (uq "http.post(`m,n`,`/u/`+toString)")
     = Ok (DUndefined,
           [HttpPost [u "m,n";
                      u "/u/function toString() { [native code] }"]]).
Proof.
  split; [|split].
  - exact (@http_post_arguments (go_ctx "job2") DUndefined []
             (u "m,n") (u "/u/") (u "U1")
             ltac:(apply Forall_neq_b; reflexivity)
             ltac:(apply Forall_neq_b; reflexivity) eq_refl
             ltac:(apply Forall_neq_b; reflexivity)
             ltac:(apply Forall_neq_b; reflexivity) eq_refl
             eq_refl ltac:(apply Forall_neq_b; reflexivity) eq_refl
             ltac:(discriminate)).
  - exact (@http_post_arguments (go_ctx "job2") DUndefined []
             (u "m,n") (u "/u/") (u "U2")
             ltac:(apply Forall_neq_b; reflexivity)
             ltac:(apply Forall_neq_b; reflexivity) eq_refl
             ltac:(apply Forall_neq_b; reflexivity)
             ltac:(apply Forall_neq_b; reflexivity) eq_refl
             eq_refl ltac:(apply Forall_neq_b; reflexivity) eq_refl
             ltac:(discriminate)).
  - exact (@http_post_arguments no_variable_ctx DUndefined []
             (u "m,n") (u "/u/") (u "toString")
             ltac:(apply Forall_neq_b; reflexivity)
             ltac:(apply Forall_neq_b; reflexivity) eq_refl
             ltac:(apply Forall_neq_b; reflexivity)
             ltac:(apply Forall_neq_b; reflexivity) eq_refl
             eq_refl ltac:(apply Forall_neq_b; reflexivity) eq_refl
             ltac:(discriminate)).
Defined.

End SplitFacts.

(* ================================================================== *)
(** * The grammar of a route's first half *)

Section RouteGrammarFacts.

Lemma plus_space_fails (r : re) (b : jstring) (c : caps) (k : kont) :
  match b with [] => True | y :: _ => is_space y = false end ->
  backtrack (Seq (Plus (Chr space)) r) b c k = None.
Proof.
  intros H. rewrite bt_seq. unfold Plus. rewrite bt_seq.
  destruct b as [|y b]; [reflexivity|].
  rewrite bt_chr_cons. cbn [cls_mem]. now rewrite H.
Qed.

Lemma no_space_suffix (s a b : jstring) :
  no_space s -> s = a ++ b ->
  match b with [] => True | y :: _ => is_space y = false end.
Proof.
  unfold no_space. intros H ->. rewrite forallb_app in H.
  apply andb_true_iff in H as [_ H]. destruct b as [|y b]; [exact I|].
  cbn [forallb] in H. apply andb_true_iff in H as [H _].
  now apply negb_true_iff in H.
Qed.

Lemma no_space_head (x : jschar) (s : jstring) :
  no_space (x :: s) -> is_space x = false /\ no_space s.
Proof.
  unfold no_space. cbn [forallb]. intros H.
  apply andb_true_iff in H as [H1 H2]. now apply negb_true_iff in H1.
Qed.

(** [/^([A-Z]+)\s+(.+)\s+->\s*(.+)$/] on [METHOD path -> ret]. *)
Lemma match_path_part (mth pth ret : jstring) :
  mth <> [] -> forallb is_upper mth = true ->
  pth <> [] -> no_space pth ->
  ret <> [] -> no_space ret -> startsWith ret (u "->") = false ->
  match_ (mth ++ u " " ++ pth ++ u " -> " ++ ret) re_path_part
  = Some [(Idx 3, ret); (Idx 2, pth); (Idx 1, mth)].
Proof.
  intros Hm0 Hm Hp0 Hp Hr0 Hr Harrow.
  unfold match_, re_path_part. cbn [anchored body]. unfold match_here.
  rewrite bt_seq, bt_grp.
  destruct mth as [|m0 mth]; [contradiction|].
  cbn [forallb] in Hm. apply andb_true_iff in Hm as [Hm0' Hm].
  change ((m0 :: mth) ++ u " " ++ pth ++ u " -> " ++ ret)
    with (m0 :: mth ++ u " " ++ pth ++ u " -> " ++ ret) at 1.
  rewrite bt_plus_cls. cbn [cls_mem]. rewrite Hm0'.
  apply star_cls_stop; [exact Hm|reflexivity|].
  cbn beta.
  change (m0 :: mth ++ u " " ++ pth ++ u " -> " ++ ret)
    with ((m0 :: mth) ++ u " " ++ pth ++ u " -> " ++ ret).
  rewrite firstn_sub_app.
  destruct pth as [|p0 pth]; [contradiction|].
  destruct (no_space_head Hp) as [Hp0' Hp'].
  rewrite bt_seq.
  change (u " " ++ (p0 :: pth) ++ u " -> " ++ ret)
    with ((32%N : jschar) :: (p0 :: pth) ++ u " -> " ++ ret).
  rewrite bt_plus_cls. cbn [cls_mem is_space N.eqb orb].
  change (is_space 32%N) with true. cbv iota.
  apply (@star_cls_stop space [] ((p0 :: pth) ++ u " -> " ++ ret));
    [reflexivity|exact Hp0'|].
  cbn beta. rewrite bt_seq, bt_grp.
  change ((p0 :: pth) ++ u " -> " ++ ret)
    with (p0 :: pth ++ u " -> " ++ ret) at 1.
  rewrite bt_plus_cls.
  assert (Dp : forallb (cls_mem dot) (p0 :: pth) = true)
    by now apply no_space_dot.
  cbn [forallb] in Dp. apply andb_true_iff in Dp as [Dp0 Dp].
  rewrite Dp0.
  destruct ret as [|r0 ret]; [contradiction|].
  destruct (no_space_head Hr) as [Hr0' Hr'].
  assert (Dr : forallb (cls_mem dot) (r0 :: ret) = true)
    by now apply no_space_dot.
  cbn [forallb] in Dr. apply andb_true_iff in Dr as [Dr0 Dr].
  apply star_cls_first_success; [exact Dp| |].
  - cbn beta.
    change (p0 :: pth ++ u " -> " ++ r0 :: ret)
      with ((p0 :: pth) ++ u " -> " ++ r0 :: ret).
    rewrite firstn_sub_app.
    rewrite bt_seq.
    change (u " -> " ++ r0 :: ret)
      with ((32%N : jschar) :: u "->" ++ u " " ++ r0 :: ret).
    rewrite bt_plus_cls. change (cls_mem space 32%N) with true. cbv iota.
    apply (@star_cls_stop space [] (u "->" ++ u " " ++ r0 :: ret));
      [reflexivity|reflexivity|].
    cbn beta. rewrite bt_seq, bt_lit_app, bt_seq, bt_star_cls.
    apply (@star_cls_stop space (u " ") (r0 :: ret));
      [reflexivity|exact Hr0'|].
    cbn beta. rewrite bt_seq, bt_grp, bt_plus_cls, Dr0.
    rewrite <- (app_nil_r ret) at 1.
    apply star_cls_stop; [exact Dr|exact I|].
    cbn beta. cbn [backtrack].
    change (length (@nil jschar)) with 0%nat.
    now rewrite Nat.sub_0_r, firstn_all.
  - intros a b E Ha. cbn beta.
    destruct a as [|a0 a]; [contradiction|].
    change (u " -> " ++ r0 :: ret)
      with ((32%N : jschar) :: 45%N :: 62%N :: 32%N :: r0 :: ret) in E.
    injection E as _ E.
    destruct a as [|a1 a]; cbn [app] in E;
      [subst b; now apply plus_space_fails|].
    injection E as _ E.
    destruct a as [|a2 a]; cbn [app] in E;
      [subst b; now apply plus_space_fails|].
    injection E as _ E.
    destruct a as [|a3 a]; cbn [app] in E.
    + subst b. rewrite bt_seq.
      rewrite bt_plus_cls. change (cls_mem space 32%N) with true. cbv iota.
      rewrite <- (app_nil_l (r0 :: ret)).
      assert (K : forall w, star_cls space ([] ++ r0 :: ret) w
                      (fun s' c' =>
                         backtrack
                           (Seq (Lit (u "->"))
                                (Seq (Star (Chr space))
                                     (Seq (Grp (Idx 3) (Plus (Chr dot)))
                                          Eol)))
                           s' c'
                           (fun (_ : jstring) (c0 : caps) => Some c0))
                    = None).
      { intros w. cbn [app star_cls]. change (cls_mem space r0)
          with (is_space r0). rewrite Hr0'.
        rewrite bt_seq. cbn [backtrack]. now rewrite Harrow. }
      apply K.
    + injection E as _ E.
      apply plus_space_fails.
      apply (@no_space_suffix (r0 :: ret) a b Hr E).
Qed.

(** X19.  The first half of a route specification written [METHOD path -> ret],
    with an upper-case method and a path and a return type free of white
    space, is read back as its three parts; a text that does not begin
    with an upper-case letter is refused. *)
Theorem parsePathPart_grammar :
  (forall mth pth ret,
      mth <> [] -> forallb is_upper mth = true ->
      pth <> [] -> no_space pth ->
      ret <> [] -> no_space ret -> startsWith ret (u "->") = false ->
      parsePathPart (mth ++ u " " ++ pth ++ u " -> " ++ ret)
      = Ok {| pp_method := mth; pp_path := pth; pp_returnType := ret |})
  /\ (forall s,
         match s with [] => True | c :: _ => is_upper c = false end ->
         parsePathPart s = Err (InvalidPathPart s)).
Proof.
  split.
  - intros mth pth ret Hm0 Hm Hp0 Hp Hr0 Hr Harrow. unfold parsePathPart.
    rewrite (match_path_part Hm0 Hm Hp0 Hp Hr0 Hr Harrow).
    change (group [(Idx 3, ret); (Idx 2, pth); (Idx 1, mth)] 1) with mth.
    change (group [(Idx 3, ret); (Idx 2, pth); (Idx 1, mth)] 2) with pth.
    change (group [(Idx 3, ret); (Idx 2, pth); (Idx 1, mth)] 3) with ret.
    now rewrite (trim_no_space Hp), (trim_no_space Hr).
  - intros s Hs. unfold parsePathPart, match_, re_path_part.
    cbn [anchored body]. unfold match_here.
    rewrite bt_seq, bt_grp. unfold Plus. rewrite bt_seq.
    destruct s as [|c s]; [reflexivity|].
    rewrite bt_chr_cons. cbn [cls_mem]. now rewrite Hs.
Qed.

Lemma parsePathPart_grammar_witness :
  parsePathPart (u "DELETE /j/{U1} -> M1")
  = Ok {| pp_method := u "DELETE"; pp_path := u "/j/{U1}";
          pp_returnType := u "M1" |}
  /\ parsePathPart (u "get /j -> [M1]")
     = Err (InvalidPathPart (u "get /j -> [M1]")).
Proof.
  destruct parsePathPart_grammar as [H1 H2]. split.
  - apply (H1 (u "DELETE") (u "/j/{U1}") (u "M1"));
      first [discriminate|reflexivity].
  - apply (H2 (u "get /j -> [M1]")). reflexivity.
Defined.

End RouteGrammarFacts.

(* ================================================================== *)
(** * Path patterns *)

Section PathPatternFacts.

Lemma plain_app (a b : jstring) : plain (a ++ b) <-> plain a /\ plain b.
Proof. unfold plain. rewrite forallb_app. apply andb_true_iff. Qed.

Lemma plain_no_brace (s : jstring) :
  plain s -> Forall (fun c => c <> 123%N) s.
Proof.
  unfold plain. intros H. apply Forall_forall. intros c Hc ->.
  rewrite forallb_forall in H. specialize (H _ Hc). discriminate H.
Qed.

Lemma placeholders_plain (s : jstring) :
  Forall (fun c => c <> 123%N) s ->
  forall n, (length s <= n)%nat -> placeholders n s = map PChar s.
Proof.
  induction 1 as [|c s Hc _ IH]; intros n Hn.
  - now destruct n.
  - destruct n as [|n]; [cbn [length] in Hn; lia|].
    cbn [placeholders map]. apply N.eqb_neq in Hc. rewrite Hc.
    f_equal. apply IH. cbn [length] in Hn. lia.
Qed.

Lemma span_stop (p : jschar -> bool) (a : jstring) (y : jschar)
      (b : jstring) :
  forallb p a = true -> p y = false -> span p (a ++ y :: b) = (a, y :: b).
Proof.
  intros Ha Hy. induction a as [|x a IH]; cbn [app span].
  - now rewrite Hy.
  - cbn [forallb] in Ha. apply andb_true_iff in Ha as [Hx Ha].
    rewrite Hx, (IH Ha). reflexivity.
Qed.

Lemma placeholders_variable (pre name post : jstring) :
  Forall (fun c => c <> 123%N) pre -> name <> [] ->
  forallb (fun x => negb (x =? 125)%N) name = true ->
  Forall (fun c => c <> 123%N) post ->
  forall n,
    (length (pre ++ u "{" ++ name ++ u "}" ++ post) <= n)%nat ->
    placeholders n (pre ++ u "{" ++ name ++ u "}" ++ post)
    = map PChar pre ++ PVar name :: map PChar post.
Proof.
  intros Hpre Hne Hname Hpost.
  induction Hpre as [|c pre Hc _ IH]; intros n Hn.
  - cbn [app map].
    change (u "{" ++ name ++ u "}" ++ post)
      with ((123%N : jschar) :: name ++ (125%N : jschar) :: post) in *.
    cbn [app length] in Hn. rewrite length_app in Hn. cbn [length] in Hn.
    destruct n as [|n]; [lia|].
    cbn [placeholders]. change (123 =? 123)%N with true. cbv iota.
    replace (span _ _) with (name, (125%N : jschar) :: post)
      by (symmetry; apply span_stop; [exact Hname|reflexivity]).
    destruct name as [|x name]; [contradiction|].
    f_equal. apply placeholders_plain; [exact Hpost|]. lia.
  - destruct n as [|n]; [cbn [app length] in Hn; lia|].
    cbn [app placeholders map]. apply N.eqb_neq in Hc. rewrite Hc.
    f_equal. apply IH. cbn [app length] in Hn. lia.
Qed.

Lemma pattern_of_plain (pth : jstring) (lit : jstring) :
  plain lit ->
  forall seen ps,
    pattern_of pth seen (map PChar lit ++ ps)
    = let* r := pattern_of pth seen ps in Ok (literal_re lit r).
Proof.
  unfold plain. induction lit as [|c lit IH]; intros H seen ps.
  - cbn [map app literal_re fold_right].
    now destruct (pattern_of pth seen ps).
  - cbn [forallb] in H. apply andb_true_iff in H as [Hc H].
    apply negb_true_iff in Hc.
    cbn [map app pattern_of]. rewrite Hc, (IH H).
    now destruct (pattern_of pth seen ps).
Qed.

Lemma bt_literal_re (lit : jstring) (r : re) (s : jstring) (c : caps)
      (k : kont) :
  backtrack (literal_re lit r) (lit ++ s) c k = backtrack r s c k.
Proof.
  induction lit as [|x lit IH]; [reflexivity|].
  cbn [literal_re fold_right app]. rewrite bt_seq.
  destruct (x =? 46)%N eqn:E.
  - apply N.eqb_eq in E. subst x. rewrite bt_chr_cons.
    change (cls_mem dot 46%N) with true. cbv iota. exact IH.
  - change (x :: lit ++ s) with ([x] ++ lit ++ s).
    rewrite bt_lit_app. exact IH.
Qed.

Lemma bt_literal_re_eol (lit : jstring) (c : caps) (k : kont) :
  backtrack (literal_re lit Eol) lit c k = k [] c.
Proof.
  pose proof (bt_literal_re lit Eol [] c k) as H.
  now rewrite app_nil_r in H.
Qed.

(** A [literal_re] without [.] matches its own text only. *)
Lemma bt_literal_re_exact (lit : jstring) :
  Forall (fun c => c <> 46%N) lit ->
  forall s c r,
    backtrack (literal_re lit Eol) s c (fun _ c' => Some c') = Some r ->
    s = lit.
Proof.
  induction 1 as [|x lit Hx _ IH]; intros s c r H.
  - cbn [literal_re fold_right backtrack] in H.
    destruct s; [reflexivity|discriminate H].
  - cbn [literal_re fold_right] in H. rewrite bt_seq in H.
    apply N.eqb_neq in Hx. rewrite Hx in H. cbn [backtrack] in H.
    destruct s as [|y s]; [discriminate H|].
    cbn [startsWith] in H.
    destruct (y =? x)%N eqn:E; cbn [andb] in H; [|discriminate H].
    apply N.eqb_eq in E. subst y. cbn [length skipn] in H.
    f_equal. exact (IH _ _ _ H).
Qed.

(** X20.  A path with one placeholder [{name}]: the pattern that
    [buildPathRegex] makes matches the path with any text without [/] in
    the place of the placeholder, and hands that text over as the path
    variable [name].  It does not match when that text is empty. *)
Theorem path_pattern_binds_variable (pre name post : jstring) :
  plain pre -> is_ident name = true -> plain post ->
  match post with [] => True | c :: _ => c = 47%N end ->
  exists rx,
    buildPathRegex (pre ++ u "{" ++ name ++ u "}" ++ post) = Ok rx
    /\ (forall v,
           v <> [] -> forallb (fun c => negb (c =? 47)%N) v = true ->
           match_ (pre ++ v ++ post) rx = Some [(Name name, v)]
           /\ groups [(Name name, v)] = Some [(name, v)])
    /\ match_ (pre ++ post) rx = None.
Proof.
  intros Hpre Hname Hpost Hslash.
  assert (Hne : name <> []) by (destruct name; [discriminate|discriminate]).
  assert (Hbr : forallb (fun x => negb (x =? 125)%N) name = true).
  { destruct name as [|x name]; [discriminate|].
    cbn [is_ident] in Hname. apply andb_true_iff in Hname as [Hx Hn].
    cbn [forallb]. apply andb_true_iff. split.
    - destruct (N.eqb_spec x 125) as [->|]; [discriminate Hx|reflexivity].
    - apply forallb_forall. intros c Hc.
      rewrite forallb_forall in Hn. specialize (Hn c Hc).
      destruct (N.eqb_spec c 125) as [->|]; [discriminate Hn|reflexivity]. }
  exists (RegExp true
            (literal_re pre
               (Seq (Grp (Name name) (Plus (Chr (none_of (u "/")))))
                    (literal_re post Eol)))).
  split; [|split].
  - unfold buildPathRegex.
    rewrite (placeholders_variable (plain_no_brace Hpre) Hne Hbr
                                   (plain_no_brace Hpost) (Nat.le_refl _)).
    rewrite (pattern_of_plain _ Hpre). cbn [pattern_of].
    rewrite Hname. cbn [negb arr_includes existsb].
    rewrite <- (app_nil_r (map PChar post)).
    rewrite (pattern_of_plain _ Hpost). reflexivity.
  - intros v Hv0 Hv. split; [|reflexivity].
    unfold match_. cbn [anchored body]. unfold match_here.
    rewrite bt_literal_re, bt_seq, bt_grp.
    destruct v as [|x v]; [contradiction|].
    cbn [forallb] in Hv. apply andb_true_iff in Hv as [Hx Hv].
    change ((x :: v) ++ post) with (x :: v ++ post) at 1.
    rewrite bt_plus_cls.
    assert (M : forall c, negb (c =? 47)%N = cls_mem (none_of (u "/")) c).
    { intros c. cbn. now rewrite orb_false_r. }
    rewrite <- M, Hx.
    apply star_cls_stop.
    + apply forallb_forall. intros c Hc. rewrite <- M.
      rewrite forallb_forall in Hv. now apply Hv.
    + destruct post as [|c post]; [exact I|]. now subst c.
    + cbn beta. rewrite bt_literal_re_eol.
      change (x :: v ++ post) with ((x :: v) ++ post).
      now rewrite firstn_sub_app.
  - unfold match_. cbn [anchored body]. unfold match_here.
    rewrite bt_literal_re, bt_seq, bt_grp. unfold Plus. rewrite bt_seq.
    destruct post as [|c post]; [reflexivity|]. subst c.
    rewrite bt_chr_cons. reflexivity.
Qed.

Lemma path_pattern_binds_variable_witness :
  exists rx,
    buildPathRegex (u "/jobs/{U1}/photos") = Ok rx
    /\ match_ (u "/jobs/42/photos") rx = Some [(Name (u "U1"), u "42")]
    /\ match_ (u "/jobs//photos") rx = None.
Proof.
  destruct (@path_pattern_binds_variable (u "/jobs/") (u "U1") (u "/photos"))
    as (rx & B & M & N); [reflexivity|reflexivity|reflexivity|reflexivity|].
  exists rx. split; [exact B|]. split; [|exact N].
  apply (M (u "42")); [discriminate|reflexivity].
Defined.

(** X21.  A path without placeholders and pattern syntax compiles to a pattern
    that matches the path itself; when the path holds no [.] it matches
    nothing else, while a [.] in a path stands for any character. *)
Theorem path_pattern_of_plain_path (pth : jstring) :
  plain pth ->
  exists rx,
    buildPathRegex pth = Ok rx
    /\ match_ pth rx = Some []
    /\ (Forall (fun c => c <> 46%N) pth ->
        forall s, match_ s rx <> None -> s = pth).
Proof.
  intros Hp. exists (RegExp true (literal_re pth Eol)). split; [|split].
  - unfold buildPathRegex.
    rewrite (placeholders_plain (plain_no_brace Hp) (Nat.le_refl _)).
    rewrite <- (app_nil_r (map PChar pth)).
    now rewrite (pattern_of_plain _ Hp).
  - unfold match_. cbn [anchored body]. unfold match_here.
    now rewrite bt_literal_re_eol.
  - intros Hdot s Hs. unfold match_ in Hs. cbn [anchored body] in Hs.
    unfold match_here in Hs.
    destruct (backtrack _ _ _ _) as [r|] eqn:E; [|now contradiction Hs].
    exact (bt_literal_re_exact Hdot E).
Qed.

Lemma path_pattern_of_plain_path_witness :
  exists rx,
    buildPathRegex (u "/j") = Ok rx
    /\ match_ (u "/j") rx = Some []
    /\ (forall s, match_ s rx <> None -> s = u "/j").
Proof.
  destruct (@path_pattern_of_plain_path (u "/j")) as (rx & B & M & N);
    [reflexivity|].
  exists rx. split; [exact B|]. split; [exact M|].
  apply N. apply Forall_neq_b. reflexivity.
Defined.

End PathPatternFacts.

(* ================================================================== *)
(** * The seeded store *)

Section SeedFacts.

Lemma seed_scan (rnd : nat -> Z) (now : nat -> jstring) :
  Runtime.kvScan (seed rnd now) (u "j:")
  = map (fun i => job i (rnd i) (now i)) (seq 1 100).
Proof. vm_compute. reflexivity. Qed.

Lemma seed_keys (rnd : nat -> Z) (now : nat -> jstring) :
  map fst (Runtime.kvStore (seed rnd now))
  = map (fun i => u "j:job" ++ Z_toString (Z.of_nat i)) (seq 1 100).
Proof. vm_compute. reflexivity. Qed.

Lemma NoDup_map_injective {A B} (f : A -> B) (l : list A) :
  (forall x y, f x = f y -> x = y) -> NoDup l -> NoDup (map f l).
Proof.
  intros Hf. induction 1 as [|x l Hx _ IH]; cbn [map]; constructor;
    [|exact IH].
  intros Hin. apply in_map_iff in Hin as (y & E & Hy).
  apply Hf in E. now subst y.
Qed.

Lemma seed_gets (rnd : nat -> Z) (now : nat -> jstring) :
  map (fun i => Runtime.kvGet (seed rnd now)
                              (u "j:job" ++ Z_toString (Z.of_nat i)))
      (seq 1 100)
  = map (fun i => Some (job i (rnd i) (now i))) (seq 1 100).
Proof. vm_compute. reflexivity. Qed.

(** X22.  What [run] and [nova check] put into the store, whatever the random
    draws and the clock give: one hundred jobs, stored once each under
    [j:job1] to [j:job100] in this order, every key starting with [j:], the
    job number [i] with status [i mod 6]. *)
Theorem seed_layout (rnd : nat -> Z) (now : nat -> jstring) :
  Runtime.kvScan (seed rnd now) (u "j:")
  = map (fun i => job i (rnd i) (now i)) (seq 1 100)
  /\ length (Runtime.kvStore (seed rnd now)) = 100%nat
  /\ unique_keys (seed rnd now)
  /\ (forall i,
         (1 <= i <= 100)%nat ->
         Runtime.kvGet (seed rnd now) (u "j:job" ++ Z_toString (Z.of_nat i))
         = Some (job i (rnd i) (now i))
         /\ get (job i (rnd i) (now i)) (u "U3") = VNum (rnd i)
         /\ get (job i (rnd i) (now i)) (u "U4")
            = VNum (Z.of_nat (i mod 6))).
Proof.
  split; [apply seed_scan|]. split; [|split].
  - rewrite <- (length_map fst), seed_keys, length_map. apply length_seq.
  - unfold unique_keys. rewrite seed_keys.
    apply (NoDup_map_inv (fun k => parseDigits (skipn 5 k))).
    rewrite map_map.
    replace (map (fun i => parseDigits
                              (skipn 5 (u "j:job" ++ Z_toString (Z.of_nat i))))
                 (seq 1 100))
      with (map Z.of_nat (seq 1 100)).
    + apply NoDup_map_injective; [|apply seq_NoDup].
      intros a b. apply Nat2Z.inj.
    + apply map_ext. intros i.
      change (skipn 5 (u "j:job" ++ Z_toString (Z.of_nat i)))
        with (Z_toString (Z.of_nat i)).
      rewrite parseDigits_Z_toString; [reflexivity|lia].
  - intros i Hi. split; [|split; reflexivity].
    apply (ext_in_map (seed_gets rnd now)). apply in_seq. lia.
Qed.

Lemma seed_layout_witness :
  Runtime.kvGet (seed demo_rnd demo_now) (u "j:job7")
  = Some (job 7 49 (demo_now 7))
  /\ get (job 7 49 (demo_now 7)) (u "U4") = VNum 1.
Proof.
  destruct (seed_layout demo_rnd demo_now) as (_ & _ & _ & H).
  destruct (H 7%nat) as (G & _ & S); [lia|].
  split; [exact G|exact S].
Defined.

End SeedFacts.

(* ================================================================== *)
(** * The earlier runner *)

Section LegacyFacts.

Lemma compile_route_legacy (dict : Dictionary) (spec : jstring) (r : Route) :
  compile_route dict spec = Ok r ->
  exists r0, Legacy.compile_route spec = Ok r0 /\ same_route r r0.
Proof.
  unfold compile_route, Legacy.compile_route. intros H.
  destruct (parsePathPart _) as [pp|e]; cbn [bind] in *; [|discriminate].
  destruct (compile_segments _ _ _ _) as [[segs buds]|e] eqn:C;
    cbn [bind] in H; [|discriminate].
  destruct (buildPathRegex _) as [rx|e]; cbn [bind] in *; [|discriminate].
  injection H as <-. eexists. split; [reflexivity|].
  apply compile_segments_shape in C as (-> & _).
  repeat split.
Qed.

Lemma compile_specs_legacy (dict : Dictionary) specs :
  forall compiled,
    compile_specs dict specs = Ok compiled ->
    exists compiled0,
      Legacy.compile_specs specs = Ok compiled0
      /\ Forall2 same_route compiled compiled0.
Proof.
  induction specs as [|[id spec] specs IH]; intros compiled H;
    cbn [compile_specs Legacy.compile_specs] in *.
  - injection H as <-. exists []. split; [reflexivity|constructor].
  - destruct (compile_route dict spec) as [r|e] eqn:R; cbn [bind] in H;
      [|discriminate].
    destruct (compile_specs dict specs) as [rs|e]; cbn [bind] in H;
      [|discriminate].
    injection H as <-.
    destruct (compile_route_legacy R) as (r0 & -> & S).
    destruct (IH rs eq_refl) as (rs0 & -> & F).
    exists (r0 :: rs0). split; [reflexivity|now constructor].
Qed.

Lemma serve_legacy (ast : Ast) (rt : Runtime.t) (rq : Request)
      (compiled : list Route) (compiled0 : list Legacy.Route) :
  (exists b, checkProperties ast rt = Ok b) ->
  Forall2 same_route compiled compiled0 ->
  Legacy.serve rt compiled0 rq = answer ast rt compiled rq.
Proof.
  intros [b Hb]. induction 1 as [|r r0 rs rs0 (Hm & _ & Hr & Hs) _ IH];
    [reflexivity|].
  cbn [Legacy.serve answer]. rewrite Hm, Hr, IH.
  destruct (negb (jstr_eqb (method r) (req_method rq))); [reflexivity|].
  destruct (match_ (pathname rq) (regex r)) as [m|]; [|reflexivity].
  unfold executePipeline. rewrite Hs.
  unfold is_budget_stage.
  rewrite <- run_segments_skip_budgets, <- calls_made_skip_budgets.
  destruct (run_segments _ _ _) as [[result fx]|e]; [|reflexivity].
  now rewrite Hb.
Qed.

Lemma reachable_compiled (dict : Dictionary) (ast : Ast) (sv : Server) :
  reachable dict ast sv ->
  sv_ast sv = ast
  /\ exists rnd now compiled,
      compile dict ast = Ok compiled
      /\ sv_runtime sv = seed rnd now
      /\ map static (sv_compiled sv) = map static compiled.
Proof.
  induction 1 as [rnd now sv H|sv rq d _ (IHa & rnd & now & compiled & C & R & S)].
  - unfold run in H.
    destruct (compile dict ast) as [compiled|e]; cbn [bind] in H;
      [|discriminate].
    injection H as <-. split; [reflexivity|].
    now exists rnd, now, compiled.
  - split; [exact IHa|]. exists rnd, now, compiled.
    split; [exact C|]. split; [exact R|].
    cbn [after sv_compiled]. unfold handle.
    rewrite serve_static. exact S.
Qed.

(** X23.  Whatever requests came before, the current runner answers a request
    as the earlier runner does on the same program and the same seeded
    store: the same status, the same body and the same outbound calls,
    where the calls of a request that fails are those made by the stages
    before the one that failed.  Budgets, the property check and the
    advisor change only what is logged. *)
Theorem legacy_runner_agrees (dict : Dictionary) (ast : Ast) (sv : Server)
        (rq : Request) (d : Z) :
  reachable dict ast sv ->
  exists rnd now sv0,
    Legacy.run ast rnd now = Ok sv0
    /\ sv_runtime sv = Legacy.sv_runtime sv0
    /\ (out_response (handle sv rq d), out_effects (handle sv rq d))
       = Legacy.handle sv0 rq.
Proof.
  intros H.
  destruct (reachable_compiled H) as (Ha & rnd & now & compiled & C & R & S).
  unfold compile in C.
  destruct (routes ast) as [specs|] eqn:Hr; [|discriminate].
  destruct (compile_specs_legacy C) as (compiled0 & C0 & F).
  exists rnd, now,
    {| Legacy.sv_runtime := seed rnd now; Legacy.sv_compiled := compiled0 |}.
  split; [|split; [exact R|]].
  - unfold Legacy.run, Legacy.compile. now rewrite Hr, C0.
  - unfold handle, Legacy.handle.
    cbn [Legacy.sv_runtime Legacy.sv_compiled].
    pose proof (serve_answer (sv_ast sv) (sv_runtime sv) (sv_compiled sv)
                             [] rq d) as A.
    cbv zeta in A. rewrite A, Ha, R, (answer_static _ _ _ S).
    symmetry. destruct specs as [|spec specs].
    + cbn [compile_specs] in C. injection C as <-.
      inversion F. reflexivity.
    + apply serve_legacy; [|exact F].
      apply checkProperties_ok. rewrite Hr. discriminate.
Qed.

Lemma call_then_fail_run_ok :
  run kv_dict call_then_fail_ast demo_rnd demo_now = Ok call_then_fail_server.
Proof. vm_compute. reflexivity. Qed.

(** A request that succeeds after a call, on the demonstration server,
    and one that fails after a call: the earlier runner gives the same
    answers and has made the same call. *)
Lemma legacy_runner_agrees_witness :
  (exists rnd now sv0,
      Legacy.run demo_ast rnd now = Ok sv0
      /\ Legacy.handle sv0 (request "POST" "/j/job2/go" [])
         = (Success (DItem (job 2 14 (demo_now 2))),
            [HttpPost [u "m"; u "/u/job2"]]))
  /\ (exists rnd now sv0,
         Legacy.run call_then_fail_ast rnd now = Ok sv0
         /\ Legacy.handle sv0 (request "POST" "/x" [])
            = (Failure FilterNotArray, [HttpPost [u "m"; u "/u"]])).
Proof.
  split.
  - destruct (@legacy_runner_agrees
                kv_dict demo_ast demo_server
                (request "POST" "/j/job2/go" []) 5
                (reach_run demo_run_ok))
      as (rnd & now & sv0 & H1 & _ & H2).
    exists rnd, now, sv0. split; [exact H1|].
    rewrite <- H2. vm_compute. reflexivity.
  - destruct (@legacy_runner_agrees
                kv_dict call_then_fail_ast call_then_fail_server
                (request "POST" "/x" []) 5
                (reach_run call_then_fail_run_ok))
      as (rnd & now & sv0 & H1 & _ & H2).
    exists rnd, now, sv0. split; [exact H1|].
    rewrite <- H2. vm_compute. reflexivity.
Defined.

End LegacyFacts.

(* ================================================================== *)
(** * The command line *)

Section CliFacts.

Lemma local_segments_compile (dict : Dictionary) (raw : list jstring) :
  forall segs buds sb,
    compile_segments dict raw segs buds = Ok sb ->
    Cli.local_segments raw segs buds = sb.
Proof.
  induction raw as [|seg raw IH]; intros segs buds sb H;
    cbn [compile_segments Cli.local_segments] in *.
  - now injection H.
  - destruct (startsWith seg (u "!")).
    + destruct (match_ seg re_budget); now apply IH.
    + destruct (match_ seg re_cap) as [m|]; [|now apply IH].
      destruct (negb (builtin (group m 1))
                && negb (known_capability dict (group m 1)));
        [discriminate|now apply IH].
Qed.

Lemma suggest_route_reads (r r' : Route) :
  path r' = path r -> segments r' = segments r -> budgets r' = budgets r ->
  suggest_route r' = suggest_route r.
Proof. unfold suggest_route. now intros -> -> ->. Qed.

Lemma local_specs_compile (dict : Dictionary) (absent : regexp) specs :
  forall compiled,
    compile_specs dict specs = Ok compiled ->
    exists local,
      Cli.local_specs absent specs = Ok local
      /\ flat_map suggest_route local = flat_map suggest_route compiled.
Proof.
  induction specs as [|[id spec] specs IH]; intros compiled H;
    cbn [compile_specs Cli.local_specs] in *.
  - injection H as <-. now exists [].
  - unfold compile_route in H. unfold Cli.local_route.
    destruct (parsePathPart _) as [pp|e]; cbn [bind] in *; [|discriminate].
    destruct (compile_segments _ _ _ _) as [sb|e] eqn:C;
      cbn [bind] in H; [|discriminate].
    destruct (buildPathRegex _) as [rx|e]; cbn [bind] in H; [|discriminate].
    destruct (compile_specs dict specs) as [rs|e]; cbn [bind] in H;
      [|discriminate].
    injection H as <-.
    destruct (IH rs eq_refl) as (local & -> & E).
    rewrite (local_segments_compile C). cbn [bind].
    eexists. split; [reflexivity|]. cbn [flat_map]. rewrite E.
    f_equal.
Qed.

Lemma flat_map_static (l1 l2 : list Route) :
  map static l1 = map static l2 ->
  flat_map suggest_route l1 = flat_map suggest_route l2.
Proof.
  revert l2; induction l1 as [|r l1 IH]; intros [|r' l2] H;
    try discriminate; [reflexivity|].
  cbn [map] in H. unfold static at 1 3 in H.
  injection H as _ Hp _ Hs Hb Hl. cbn [flat_map].
  rewrite (IH _ Hl). f_equal. now apply suggest_route_reads.
Qed.

Lemma logged_suggestions_app (a b : list log) :
  logged_suggestions (a ++ b) = logged_suggestions a ++ logged_suggestions b.
Proof. apply flat_map_app. Qed.

Lemma logged_suggestions_info (l : list Suggestion) :
  logged_suggestions (map SuggestionInfo l) = l.
Proof.
  induction l as [|s l IH]; [reflexivity|].
  cbn [map]. change (logged_suggestions (SuggestionInfo s :: map SuggestionInfo l))
    with (s :: logged_suggestions (map SuggestionInfo l)). now rewrite IH.
Qed.

Lemma logged_suggestions_budget (mth : jstring) (r : Route) :
  logged_suggestions (budget_logs mth r) = [].
Proof.
  unfold budget_logs, logged_suggestions. induction (budgets r) as [|b bs IH];
    [reflexivity|].
  cbn [flat_map]. rewrite flat_map_app. unfold logged_suggestions in IH.
  rewrite IH, app_nil_r.
  destruct (pVal (latencies r) b) as [v|]; [|reflexivity].
  now destruct (threshold b <? v)%Z.
Qed.

Lemma serve_suggestions (ast : Ast) (rt : Runtime.t) (todo : list Route) :
  forall (done : list Route) (rq : Request) (d : Z) (result : data),
    out_response (serve ast rt done todo rq d) = Success result ->
    logged_suggestions (out_logs (serve ast rt done todo rq d))
    = flat_map suggest_route (done ++ todo).
Proof.
  induction todo as [|r todo IH]; intros done rq d result H;
    cbn [serve] in *; [discriminate H|].
  assert (Skip : out_response (serve ast rt (done ++ [r]) todo rq d)
                 = Success result ->
                 logged_suggestions
                   (out_logs (serve ast rt (done ++ [r]) todo rq d))
                 = flat_map suggest_route (done ++ r :: todo)).
  { intros H'. rewrite (IH _ _ _ _ H'). now rewrite <- app_assoc. }
  destruct (negb (jstr_eqb (method r) (req_method rq))); [now apply Skip|].
  destruct (match_ (pathname rq) (regex r)) as [m|]; [|now apply Skip].
  unfold serve_route in *.
  destruct (executePipeline _ _) as [[res fx]|e]; [|discriminate H].
  destruct (checkProperties ast rt) as [ok|e]; [|discriminate H].
  cbn [out_logs]. rewrite !logged_suggestions_app.
  rewrite logged_suggestions_budget, logged_suggestions_info.
  assert (P : logged_suggestions (if ok then [] else [PropertyCheckFailed])
              = []) by now destruct ok.
  rewrite P. cbn [app]. unfold suggestOptimizations.
  rewrite suggest_loop_app. cbn [app].
  rewrite !flat_map_app. reflexivity.
Qed.

(** X24.  [nova optimize] and the server agree: on a program that the runner
    compiles, the command ends with status 0 and prints the suggestions
    that the server logs after every request it answers with success, one
    line [<route>: <suggestion>] for each and in the same order, or the
    one line [No optimisations suggested.] when there is none. *)
Theorem optimize_prints_logged_suggestions (dict : Dictionary) (ast : Ast)
        (sv : Server) (rq : Request) (d : Z) (result : data)
        (absent : regexp) :
  reachable dict ast sv ->
  out_response (handle sv rq d) = Success result ->
  Cli.optimize absent ast
  = {| Cli.status := 0;
       Cli.stdout := printed (logged_suggestions (out_logs (handle sv rq d)));
       Cli.stderr := [] |}.
Proof.
  intros H Hs.
  destruct (reachable_compiled H) as (Ha & rnd & now & compiled & C & R & S).
  unfold handle in *. rewrite (serve_suggestions Hs).
  cbn [app]. rewrite (flat_map_static S).
  unfold compile in C. unfold Cli.optimize.
  destruct (routes ast) as [specs|]; [|discriminate].
  destruct (local_specs_compile absent C) as (local & -> & E).
  unfold suggestOptimizations. rewrite suggest_loop_app. cbn [app].
  rewrite E. unfold printed.
  now destruct (flat_map suggest_route compiled).
Qed.

Lemma unpaged_run_ok :
  run kv_dict unpaged_ast demo_rnd demo_now = Ok unpaged_server.
Proof. vm_compute. reflexivity. Qed.

(** Two budgeted routes, one without [page], one with [page(80)]. *)
Lemma optimize_prints_logged_suggestions_witness :
  Cli.optimize (RegExp true Eol) unpaged_ast
  = {| Cli.status := 0;
       Cli.stdout :=
         [u "/j: Add page(50) to limit results and improve latency.";
          u "/k: Reduce page size from 80 to 50 to meet latency budget."];
       Cli.stderr := [] |}.
Proof.
  rewrite (@optimize_prints_logged_suggestions
             kv_dict unpaged_ast unpaged_server (request "GET" "/k" []) 5
             (DArray []) (RegExp true Eol)).
  - vm_compute. reflexivity.
  - exact (reach_run unpaged_run_ok).
  - vm_compute. reflexivity.
Defined.

(** X25.  [nova check] on a program whose only property is [mono(U4, E<e>)],
    over the seeded jobs: whatever the random draws and the clock give, the
    command succeeds exactly when the enum declares the six statuses [0]
    to [5]. *)
Theorem check_statuses (ast : Ast) (id e : jstring)
        (rnd : nat -> Z) (now : nat -> jstring) :
  e <> [] -> forallb is_digit e = true ->
  properties ast = Some [(id, mono_property (u "4") e)] ->
  scanPrefix ast = Ok (u "j:") ->
  (Cli.status (Cli.check ast rnd now) = 0%Z
   <-> forall s, In s statuses -> In s (declared ast e))
  /\ (Cli.status (Cli.check ast rnd now) = 0%Z
      \/ Cli.check ast rnd now
         = {| Cli.status := 1; Cli.stdout := [];
              Cli.stderr := [u "Property check failed"] |}).
Proof.
  intros He0 He Hp Hs.
  destruct (@mono_verdict ast (seed rnd now) id (u "4") e (u "j:")
              ltac:(discriminate) eq_refl He0 He Hp Hs) as [Hiff Hb].
  assert (V : (forall item,
                  In item (Runtime.kvScan (seed rnd now) (u "j:")) ->
                  get item (u "U" ++ u "4") = VUndefined
                  \/ In (ToString (get item (u "U" ++ u "4")))
                        (declared ast e))
              <-> forall s, In s statuses -> In s (declared ast e)).
  { rewrite seed_scan. split.
    - intros H s Hin.
      assert (K : forall i, In i (seq 1 100) ->
                            In (Z_toString (Z.of_nat (i mod 6)))
                               (declared ast e)).
      { intros i Hi.
        destruct (H (job i (rnd i) (now i))) as [Hu|Hv].
        - apply in_map_iff. now exists i.
        - discriminate Hu.
        - exact Hv. }
      unfold statuses in Hin. cbn [In] in Hin.
      destruct Hin as [<-|[<-|[<-|[<-|[<-|[<-|[]]]]]]].
      + apply (K 6%nat). apply in_seq. lia.
      + apply (K 1%nat). apply in_seq. lia.
      + apply (K 2%nat). apply in_seq. lia.
      + apply (K 3%nat). apply in_seq. lia.
      + apply (K 4%nat). apply in_seq. lia.
      + apply (K 5%nat). apply in_seq. lia.
    - intros H item Hin. apply in_map_iff in Hin as (i & <- & Hi).
      right. apply H.
      change (ToString (get (job i (rnd i) (now i)) (u "U" ++ u "4")))
        with (Z_toString (Z.of_nat (i mod 6))).
      pose proof (Nat.mod_upper_bound i 6 ltac:(lia)) as B.
      destruct (i mod 6)%nat as [|[|[|[|[|[|k]]]]]]; cbn; try lia;
        unfold statuses; cbn [In]; auto 10. }
  rewrite <- V, <- Hiff. unfold Cli.check.
  destruct Hb as [-> | ->]; cbn [Cli.status]; split;
    try (now left); try (now right); split; congruence.
Qed.

Lemma check_statuses_witness :
  Cli.status (Cli.check (mono_ast [(u "E1", statuses)]) demo_rnd demo_now)
  = 0%Z.
Proof.
  destruct (@check_statuses (mono_ast [(u "E1", statuses)]) (u "P1") (u "1")
              demo_rnd demo_now) as [[_ H] _];
    [discriminate|reflexivity|reflexivity|vm_compute; reflexivity|].
  apply H. intros s Hs. exact Hs.
Defined.

End CliFacts.

(* ================================================================== *)
(** * Lines *)

Section LineFacts.

Lemma trimStart_length (s : jstring) :
  (length (trimStart s) <= length s)%nat.
Proof.
  induction s as [|c s IH]; [reflexivity|]. cbn [trimStart].
  destruct (is_space c); cbn [length]; lia.
Qed.

Lemma trimStart_fixed (s : jstring) :
  length (trimStart s) = length s -> trimStart s = s.
Proof.
  destruct s as [|c s]; [reflexivity|]. cbn [trimStart].
  destruct (is_space c); [|reflexivity].
  pose proof (trimStart_length s). cbn [length]. lia.
Qed.

Lemma trimEnd_length (s : jstring) : (length (trimEnd s) <= length s)%nat.
Proof.
  unfold trimEnd. rewrite length_rev.
  pose proof (trimStart_length (rev s)) as H. now rewrite length_rev in H.
Qed.

Lemma trimmed_parts (s : jstring) :
  trim s = s -> trimStart s = s /\ trimEnd s = s.
Proof.
  intros H. unfold trim in H.
  assert (L : length (trimStart s) = length s).
  { pose proof (trimEnd_length (trimStart s)) as A.
    pose proof (trimStart_length s) as B. rewrite H in A. lia. }
  apply trimStart_fixed in L. rewrite L in H. now split.
Qed.

Lemma trimmed_head (s : jstring) :
  trim s = s -> s <> [] ->
  exists x t, s = x :: t /\ is_space x = false.
Proof.
  intros H Hne. destruct (trimmed_parts H) as [Hs _].
  destruct s as [|x t]; [contradiction|]. exists x, t. split; [reflexivity|].
  cbn [trimStart] in Hs. destruct (is_space x); [|reflexivity].
  pose proof (trimStart_length t) as L. rewrite Hs in L.
  cbn [length] in L. lia.
Qed.

Lemma trimEnd_app (a s : jstring) :
  forallb is_space s = false -> trimEnd (a ++ s) = a ++ trimEnd s.
Proof.
  intros H. unfold trimEnd. rewrite rev_app_distr, trimStart_app.
  - now rewrite rev_app_distr, rev_involutive.
  - now rewrite forallb_rev.
Qed.

(** A text that begins with a character that is no white space, followed
    by a trimmed text, is trimmed. *)
Lemma trim_tight_app (x : jschar) (a s : jstring) :
  is_space x = false -> trim s = s -> s <> [] ->
  trim (x :: a ++ s) = x :: a ++ s.
Proof.
  intros Hx Hs Hne. unfold trim. rewrite (trimStart_head _ Hx).
  destruct (trimmed_head Hs Hne) as (y & t & -> & Hy).
  destruct (trimmed_parts Hs) as [_ He].
  change (x :: a ++ y :: t) with ((x :: a) ++ y :: t).
  rewrite trimEnd_app; [now rewrite He|].
  cbn [forallb]. now rewrite Hy.
Qed.

Lemma no_break_cons (c : jschar) (s : jstring) :
  no_break (c :: s) -> (c =? 10)%N = false /\ (c =? 13)%N = false
                       /\ no_break s.
Proof.
  unfold no_break. cbn [forallb]. intros H.
  apply andb_true_iff in H as [H1 H2]. apply negb_true_iff in H1.
  apply orb_false_iff in H1 as [? ?]. now repeat split.
Qed.

Lemma split_lines_line (l rest : jstring) :
  no_break l ->
  Compiler.split_lines (l ++ 10%N :: rest) = l :: Compiler.split_lines rest
  /\ Compiler.split_lines l = [l].
Proof.
  induction l as [|c l IH]; intros H.
  - split; reflexivity.
  - apply no_break_cons in H as (H10 & H13 & H).
    destruct (IH H) as [IH1 IH2]. cbn [app Compiler.split_lines].
    rewrite H10, H13, IH1, IH2. split; reflexivity.
Qed.

(** [split(/\r?\n/)] undoes joining lines with line feeds. *)
Lemma split_lines_join (lines : list jstring) :
  lines <> [] -> Forall no_break lines ->
  Compiler.split_lines (join [10%N] lines) = lines.
Proof.
  induction lines as [|l rest IH]; [contradiction|].
  intros _ F. apply Forall_cons_iff in F as [Hl F].
  destruct rest as [|l' rest].
  - cbn [join]. now apply split_lines_line.
  - change (join [10%N] (l :: l' :: rest))
      with (l ++ 10%N :: join [10%N] (l' :: rest)).
    destruct (split_lines_line (join [10%N] (l' :: rest)) Hl) as [-> _].
    f_equal. apply IH; [discriminate|exact F].
Qed.

Lemma no_break_app (a b : jstring) :
  no_break a -> no_break b -> no_break (a ++ b).
Proof.
  unfold no_break. intros Ha Hb. rewrite forallb_app.
  apply andb_true_iff. now split.
Qed.

Lemma replace_member_fresh {A} (k : jstring) (v : A)
      (o : list (jstring * A)) :
  ~ In k (map fst o) -> JsObject.replace_member k v o = None.
Proof.
  induction o as [|[k' v'] o IH]; [reflexivity|].
  cbn [map fst In JsObject.replace_member]. intros H.
  destruct (jstr_eqb k' k) eqn:E.
  - apply jstr_eqb_eq in E. subst. contradiction H. now left.
  - rewrite IH; [reflexivity|]. intros Hin. apply H. now right.
Qed.

(** Assigning to a name that the object does not have, and that is neither
    an array index nor [__proto__], adds a member at the end. *)
Lemma set_fresh {A} (o : list (jstring * A)) (k : jstring) (v : A) :
  k <> u "__proto__" -> JsObject.array_index k = None ->
  ~ In k (map fst o) -> JsObject.set o k v = o ++ [(k, v)].
Proof.
  intros Hp Hi Hf. unfold JsObject.set.
  apply jstr_eqb_neq in Hp. rewrite Hp, (replace_member_fresh v Hf), Hi.
  reflexivity.
Qed.

End LineFacts.

(* ================================================================== *)
(** * The UI generator *)

Section UiFacts.

Lemma update_current_last (f : UiGenerator.Screen -> UiGenerator.Screen)
      (acc : list UiGenerator.Screen) (s : UiGenerator.Screen) :
  UiGenerator.update_current f (acc ++ [s]) = acc ++ [f s].
Proof.
  induction acc as [|a acc IH]; [reflexivity|].
  cbn [app UiGenerator.update_current]. rewrite IH.
  destruct acc; reflexivity.
Qed.

Lemma key_is_not_screen (k rest : jstring) :
  Forall (fun c => c <> 58%N) k -> k <> u "Screen" ->
  startsWith (k ++ u ":" ++ rest) (u "Screen:") = false.
Proof.
  intros Hk Hne. destruct (startsWith _ _) eqn:E; [|reflexivity].
  apply startsWith_inv in E as [t E].
  pose proof (find_sub_first [] rest Hk) as F1.
  assert (Hs : Forall (fun c => c <> 58%N) (u "Screen"))
    by (apply Forall_neq_b; reflexivity).
  pose proof (find_sub_first [] t Hs) as F2.
  change (u "Screen:" ++ t) with (u "Screen" ++ [58%N : jschar] ++ t) in E.
  change (u ":" ++ rest) with ([58%N : jschar] ++ rest) in E.
  rewrite E in F1. rewrite F1 in F2. injection F2 as F2 _. contradiction.
Qed.

Lemma spec_line_header (acc : list UiGenerator.Screen) (nm : jstring) :
  plain_value nm ->
  UiGenerator.spec_line acc (u "Screen: " ++ nm)
  = acc ++ [{| UiGenerator.name := nm; UiGenerator.props := [] |}].
Proof.
  intros (Hne & Ht & _). unfold UiGenerator.spec_line.
  change (u "Screen: " ++ nm) with ((83%N : jschar) :: u "creen: " ++ nm).
  rewrite (@trim_tight_app 83%N (u "creen: ") nm eq_refl Ht Hne).
  change (startsWith ((83%N : jschar) :: u "creen: " ++ nm) (u "Screen:"))
    with true. cbv iota.
  change (skipn 7 ((83%N : jschar) :: u "creen: " ++ nm))
    with (u " " ++ nm).
  replace (u " " ++ nm) with (u " " ++ nm ++ []) by now rewrite app_nil_r.
  rewrite trim_ws by reflexivity. now rewrite Ht.
Qed.

Lemma spec_line_prop (acc : list UiGenerator.Screen)
      (cur : UiGenerator.Screen) (k v : jstring) :
  plain_key k -> plain_value v ->
  ~ In k (map fst (UiGenerator.props cur)) ->
  UiGenerator.spec_line (acc ++ [cur]) (prop_line (k, v))
  = acc ++ [{| UiGenerator.name := UiGenerator.name cur;
               UiGenerator.props := UiGenerator.props cur ++ [(k, v)] |}].
Proof.
  intros ((Hk0 & Hkt & _) & Hkc & Hks & Hkp & Hki) (Hv0 & Hvt & _) Hf.
  unfold UiGenerator.spec_line, prop_line. cbn [fst snd].
  destruct (trimmed_head Hkt Hk0) as (x & k' & -> & Hx).
  assert (T : trim (u "  " ++ (x :: k') ++ u ": " ++ v)
              = (x :: k') ++ u ": " ++ v).
  { replace (u "  " ++ (x :: k') ++ u ": " ++ v)
      with (u "  " ++ ((x :: k') ++ u ": " ++ v) ++ [])
      by now rewrite app_nil_r.
    rewrite trim_ws by reflexivity.
    replace ((x :: k') ++ u ": " ++ v) with (x :: (k' ++ u ": ") ++ v)
      by (cbn [app]; now rewrite <- app_assoc).
    exact (trim_tight_app _ Hx Hvt Hv0). }
  rewrite T. cbn [app].
  change (x :: k' ++ u ": " ++ v) with ((x :: k') ++ u ":" ++ u " " ++ v).
  rewrite (key_is_not_screen _ Hkc Hks).
  destruct (acc ++ [cur]) as [|a0 l0] eqn:E; [now destruct acc|].
  rewrite <- E. clear E a0 l0.
  unfold UiGenerator.at_colon.
  change (u ":" ++ u " " ++ v) with ([58%N : jschar] ++ u " " ++ v).
  rewrite (find_sub_first [] _ Hkc).
  rewrite update_current_last. cbn [UiGenerator.name UiGenerator.props].
  rewrite Hkt.
  replace (u " " ++ v) with (u " " ++ v ++ []) by now rewrite app_nil_r.
  rewrite trim_ws by reflexivity. rewrite Hvt.
  now rewrite (set_fresh _ Hkp Hki Hf).
Qed.

Lemma spec_line_props (acc : list UiGenerator.Screen) (nm : jstring)
      (todo : list (jstring * jstring)) :
  forall done,
    NoDup (map fst (done ++ todo)) ->
    Forall (fun kv => plain_key (fst kv) /\ plain_value (snd kv)) todo ->
    fold_left UiGenerator.spec_line (map prop_line todo)
              (acc ++ [{| UiGenerator.name := nm;
                          UiGenerator.props := done |}])
    = acc ++ [{| UiGenerator.name := nm;
                 UiGenerator.props := done ++ todo |}].
Proof.
  induction todo as [|[k v] todo IH]; intros done N F.
  - now rewrite app_nil_r.
  - apply Forall_cons_iff in F as [[Hk Hv] F]. cbn [fst snd] in Hk, Hv.
    cbn [map fold_left].
    rewrite spec_line_prop; [|exact Hk|exact Hv|].
    + cbn [UiGenerator.name UiGenerator.props].
      rewrite IH; [now rewrite <- app_assoc| |exact F].
      now rewrite <- app_assoc.
    + cbn [UiGenerator.props]. rewrite map_app in N.
      apply NoDup_remove_2 in N. intros Hin. apply N.
      apply in_or_app. now left.
Qed.

Lemma spec_line_block (acc : list UiGenerator.Screen)
      (s : UiGenerator.Screen) :
  well_formed_screen s ->
  fold_left UiGenerator.spec_line (screen_block s) acc = acc ++ [s].
Proof.
  intros (Hn & N & F). unfold screen_block. cbn [fold_left].
  rewrite (spec_line_header _ Hn), fold_left_app.
  rewrite (@spec_line_props acc (UiGenerator.name s) (UiGenerator.props s)
                            []); [|exact N|exact F].
  cbn [fold_left app]. unfold UiGenerator.spec_line at 1.
  change (trim []) with (@nil jschar). cbv iota. now destruct s.
Qed.

Lemma prop_line_no_break (kv : jstring * jstring) :
  plain_key (fst kv) -> plain_value (snd kv) -> no_break (prop_line kv).
Proof.
  intros ((_ & _ & Hk) & _) (_ & _ & Hv). unfold prop_line.
  apply (@no_break_app (u "  ")); [reflexivity|].
  apply no_break_app; [exact Hk|].
  apply (@no_break_app (u ": ")); [reflexivity|exact Hv].
Qed.

(** X26.  [parseUiSpec] reads a specification in the documented layout back as
    the screens it was written from, with their properties in the order
    of the lines. *)
Theorem parseUiSpec_reads_screens (screens : list UiGenerator.Screen) :
  Forall well_formed_screen screens ->
  UiGenerator.parseUiSpec (spec_text screens) = screens.
Proof.
  intros F. unfold UiGenerator.parseUiSpec, spec_text.
  destruct screens as [|s0 rest]; [reflexivity|].
  rewrite split_lines_join.
  - assert (G : forall l acc,
               Forall well_formed_screen l ->
               fold_left UiGenerator.spec_line
                         (concat (map screen_block l)) acc = acc ++ l).
    { induction l as [|s l IH]; intros acc Fl.
      - now rewrite app_nil_r.
      - apply Forall_cons_iff in Fl as [Hs Fl]. cbn [map concat].
        rewrite fold_left_app, (spec_line_block _ Hs), (IH _ Fl).
        now rewrite <- app_assoc. }
    exact (G _ [] F).
  - discriminate.
  - apply Forall_concat. apply Forall_map.
    apply Forall_impl with (2 := F).
    intros s ((_ & _ & Hn) & _ & Fp). unfold screen_block.
    constructor.
    + apply (@no_break_app (u "Screen: ")); [reflexivity|exact Hn].
    + apply Forall_app. split; [|repeat constructor].
      apply Forall_map. apply Forall_impl with (2 := Fp).
      intros kv [Hk Hv]. now apply prop_line_no_break.
Qed.

Lemma parseUiSpec_reads_screens_witness :
  UiGenerator.parseUiSpec
    (u "Screen: JobsList" ++ 10%N :: u "  route: R1" ++ 10%N
       :: u "  fields: U1,U2" ++ 10%N :: [])
  = [{| UiGenerator.name := u "JobsList";
        UiGenerator.props := [(u "route", u "R1"); (u "fields", u "U1,U2")] |}].
Proof.
  apply (@parseUiSpec_reads_screens
           [{| UiGenerator.name := u "JobsList";
               UiGenerator.props :=
                 [(u "route", u "R1"); (u "fields", u "U1,U2")] |}]).
  repeat constructor; try discriminate; try reflexivity;
    try (apply Forall_neq_b; reflexivity);
    cbn; intuition discriminate.
Defined.

End UiFacts.

(* ================================================================== *)
(** * The parser *)

Section ParserFacts.

Lemma dot_no_break (s : jstring) :
  forallb (cls_mem dot) s = true -> no_break s.
Proof.
  unfold no_break. intros H. apply forallb_forall. intros c Hc.
  rewrite forallb_forall in H. specialize (H c Hc).
  cbn [cls_mem] in H. unfold is_line_terminator in H.
  apply negb_true_iff in H. apply negb_true_iff.
  apply orb_false_iff in H as [H _]. apply orb_false_iff in H as [H _].
  exact H.
Qed.

Lemma digits_no_break (n : jstring) :
  forallb is_digit n = true -> no_break n.
Proof.
  unfold no_break. intros H. apply forallb_forall. intros c Hc.
  rewrite forallb_forall in H. specialize (H c Hc).
  unfold is_digit in H. apply andb_true_iff in H as [H1 H2].
  apply N.leb_le in H1. apply negb_true_iff. apply orb_false_iff.
  split; apply N.eqb_neq; lia.
Qed.

Lemma digits_dot (n : jstring) :
  forallb is_digit n = true -> forallb (cls_mem dot) n = true.
Proof.
  intros H. apply forallb_forall. intros c Hc.
  rewrite forallb_forall in H. specialize (H c Hc).
  unfold is_digit in H. apply andb_true_iff in H as [H1 H2].
  apply N.leb_le in H1. apply N.leb_le in H2.
  cbn [cls_mem]. unfold is_line_terminator. apply negb_true_iff.
  repeat (apply orb_false_iff; split); apply N.eqb_neq; lia.
Qed.

Lemma test_intro (rx : regexp) (line : jstring) (c : caps) :
  match_here (body rx) line = Some c -> anchored rx = true ->
  Compiler.test rx line = true.
Proof.
  intros H A. unfold Compiler.test, match_. now rewrite A, H.
Qed.

(** [/^(L\d+):\s*(.+)$/] and [/^L\d+:/] on a declaration [L<n>: body]. *)
Lemma match_decl (letter n body : jstring) :
  numeral n -> plain_text body ->
  match_ (letter ++ n ++ u ": " ++ body) (Compiler.re_decl letter)
  = Some [(Idx 2, body); (Idx 1, letter ++ n)]
  /\ Compiler.test (Compiler.re_decl_test letter)
                   (letter ++ n ++ u ": " ++ body) = true.
Proof.
  intros (Hn0 & Hn) (Hb0 & Hbt & Hbd).
  destruct n as [|d n]; [contradiction|].
  cbn [forallb] in Hn. apply andb_true_iff in Hn as [Hd Hn].
  destruct (trimmed_head Hbt Hb0) as (x & b & -> & Hx).
  cbn [forallb] in Hbd. apply andb_true_iff in Hbd as [Hxd Hbd].
  split.
  - unfold match_, Compiler.re_decl. cbn [anchored body]. unfold match_here.
    rewrite bt_seq, bt_grp, bt_seq, bt_lit_app.
    change ((d :: n) ++ u ": " ++ x :: b)
      with (d :: n ++ u ": " ++ x :: b) at 1.
    rewrite bt_plus_cls. cbn [cls_mem]. rewrite Hd.
    apply star_cls_stop; [exact Hn|reflexivity|].
    cbn beta.
    replace (letter ++ (d :: n) ++ u ": " ++ x :: b)
      with ((letter ++ d :: n) ++ u ": " ++ x :: b)
      by now rewrite <- app_assoc.
    rewrite firstn_sub_app.
    change (u ": " ++ x :: b) with (u ":" ++ u " " ++ x :: b).
    rewrite bt_seq, bt_lit_app, bt_seq, bt_star_cls.
    apply (@star_cls_stop space (u " ") (x :: b)); [reflexivity|exact Hx|].
    cbn beta. rewrite bt_seq, bt_grp, bt_plus_cls, Hxd.
    rewrite <- (app_nil_r b) at 1.
    apply star_cls_stop; [exact Hbd|exact I|].
    cbn beta. cbn [backtrack].
    change (length (@nil jschar)) with 0%nat.
    now rewrite Nat.sub_0_r, firstn_all.
  - unfold Compiler.test, match_, Compiler.re_decl_test.
    cbn [anchored body]. unfold match_here.
    rewrite bt_seq, bt_lit_app, bt_seq.
    change ((d :: n) ++ u ": " ++ x :: b)
      with (d :: n ++ u ": " ++ x :: b).
    rewrite bt_plus_cls. cbn [cls_mem]. rewrite Hd.
    rewrite (@star_cls_stop digit n (u ": " ++ x :: b) []
               (fun s' c' => backtrack (Lit (u ":")) s' c'
                                       (fun _ c0 => Some c0)) []);
      [reflexivity|exact Hn|reflexivity|reflexivity].
Qed.

(** [/^E(\d+)\s*=\s*\[(.+)\]$/] and [/^E\d+\s*=/] on [E<n> = [inner]]. *)
Lemma match_enum (n inner : jstring) :
  numeral n -> inner <> [] -> forallb (cls_mem dot) inner = true ->
  match_ (u "E" ++ n ++ u " = [" ++ inner ++ u "]") Compiler.re_enum
  = Some [(Idx 2, inner); (Idx 1, n)]
  /\ Compiler.test Compiler.re_enum_test
                   (u "E" ++ n ++ u " = [" ++ inner ++ u "]") = true.
Proof.
  intros (Hn0 & Hn) Hi0 Hi.
  destruct n as [|d n]; [contradiction|].
  cbn [forallb] in Hn. apply andb_true_iff in Hn as [Hd Hn].
  destruct inner as [|x inner]; [contradiction|].
  cbn [forallb] in Hi. apply andb_true_iff in Hi as [Hx Hi].
  split.
  - unfold match_, Compiler.re_enum. cbn [anchored body]. unfold match_here.
    rewrite bt_seq, bt_lit_app, bt_seq, bt_grp.
    change ((d :: n) ++ u " = [" ++ (x :: inner) ++ u "]")
      with (d :: n ++ u " = [" ++ (x :: inner) ++ u "]") at 1.
    rewrite bt_plus_cls. cbn [cls_mem]. rewrite Hd.
    apply star_cls_stop; [exact Hn|reflexivity|].
    cbn beta.
    change (d :: n ++ u " = [" ++ (x :: inner) ++ u "]")
      with ((d :: n) ++ u " = [" ++ (x :: inner) ++ u "]").
    rewrite firstn_sub_app.
    change (u " = [" ++ (x :: inner) ++ u "]")
      with (u " " ++ u "=" ++ u " " ++ u "[" ++ (x :: inner) ++ u "]").
    rewrite bt_seq, bt_star_cls.
    apply (@star_cls_stop space (u " ")
             (u "=" ++ u " " ++ u "[" ++ (x :: inner) ++ u "]"));
      [reflexivity|reflexivity|].
    cbn beta. rewrite bt_seq, bt_lit_app, bt_seq, bt_star_cls.
    apply (@star_cls_stop space (u " ") (u "[" ++ (x :: inner) ++ u "]"));
      [reflexivity|reflexivity|].
    cbn beta. rewrite bt_seq, bt_lit_app, bt_seq, bt_grp.
    change ((x :: inner) ++ u "]") with (x :: inner ++ u "]") at 1.
    rewrite bt_plus_cls, Hx.
    apply star_cls_first_success; [exact Hi| |].
    + cbn beta. rewrite bt_seq, bt_lit_exact. cbn [backtrack].
      change (x :: inner ++ u "]") with ((x :: inner) ++ u "]").
      now rewrite firstn_sub_app.
    + intros a b E Ha. destruct a as [|y a]; [contradiction|].
      destruct a; [|destruct a; discriminate].
      injection E as _ <-. reflexivity.
  - apply (@test_intro _ _ []); [|reflexivity].
    unfold match_here, Compiler.re_enum_test. cbn [body].
    rewrite bt_seq, bt_lit_app, bt_seq.
    change ((d :: n) ++ u " = [" ++ (x :: inner) ++ u "]")
      with (d :: n ++ u " = [" ++ (x :: inner) ++ u "]").
    rewrite bt_plus_cls. cbn [cls_mem]. rewrite Hd.
    apply star_cls_stop; [exact Hn|reflexivity|].
    cbn beta. rewrite bt_seq, bt_star_cls.
    change (u " = [" ++ (x :: inner) ++ u "]")
      with (u " " ++ u "=" ++ u " [" ++ (x :: inner) ++ u "]").
    apply (@star_cls_stop space (u " ")
             (u "=" ++ u " [" ++ (x :: inner) ++ u "]"));
      [reflexivity|reflexivity|].
    cbn beta. now rewrite bt_lit_app.
Qed.

(** [/^M(\d+)\s*\{(.+)\}$/] and [/^M\d+\s*\{/] on [M<n> {inner}]. *)
Lemma match_model (n inner : jstring) :
  numeral n -> inner <> [] -> forallb (cls_mem dot) inner = true ->
  match_ (u "M" ++ n ++ u " {" ++ inner ++ u "}") Compiler.re_model
  = Some [(Idx 2, inner); (Idx 1, n)]
  /\ Compiler.test Compiler.re_model_test
                   (u "M" ++ n ++ u " {" ++ inner ++ u "}") = true.
Proof.
  intros (Hn0 & Hn) Hi0 Hi.
  destruct n as [|d n]; [contradiction|].
  cbn [forallb] in Hn. apply andb_true_iff in Hn as [Hd Hn].
  destruct inner as [|x inner]; [contradiction|].
  cbn [forallb] in Hi. apply andb_true_iff in Hi as [Hx Hi].
  split.
  - unfold match_, Compiler.re_model. cbn [anchored body]. unfold match_here.
    rewrite bt_seq, bt_lit_app, bt_seq, bt_grp.
    change ((d :: n) ++ u " {" ++ (x :: inner) ++ u "}")
      with (d :: n ++ u " {" ++ (x :: inner) ++ u "}") at 1.
    rewrite bt_plus_cls. cbn [cls_mem]. rewrite Hd.
    apply star_cls_stop; [exact Hn|reflexivity|].
    cbn beta.
    change (d :: n ++ u " {" ++ (x :: inner) ++ u "}")
      with ((d :: n) ++ u " {" ++ (x :: inner) ++ u "}").
    rewrite firstn_sub_app.
    change (u " {" ++ (x :: inner) ++ u "}")
      with (u " " ++ u "{" ++ (x :: inner) ++ u "}").
    rewrite bt_seq, bt_star_cls.
    apply (@star_cls_stop space (u " ") (u "{" ++ (x :: inner) ++ u "}"));
      [reflexivity|reflexivity|].
    cbn beta. rewrite bt_seq, bt_lit_app, bt_seq, bt_grp.
    change ((x :: inner) ++ u "}") with (x :: inner ++ u "}") at 1.
    rewrite bt_plus_cls, Hx.
    apply star_cls_first_success; [exact Hi| |].
    + cbn beta. rewrite bt_seq, bt_lit_exact. cbn [backtrack].
      change (x :: inner ++ u "}") with ((x :: inner) ++ u "}").
      now rewrite firstn_sub_app.
    + intros a b E Ha. destruct a as [|y a]; [contradiction|].
      destruct a; [|destruct a; discriminate].
      injection E as _ <-. reflexivity.
  - apply (@test_intro _ _ []); [|reflexivity].
    unfold match_here, Compiler.re_model_test. cbn [body].
    rewrite bt_seq, bt_lit_app, bt_seq.
    change ((d :: n) ++ u " {" ++ (x :: inner) ++ u "}")
      with (d :: n ++ u " {" ++ (x :: inner) ++ u "}").
    rewrite bt_plus_cls. cbn [cls_mem]. rewrite Hd.
    apply star_cls_stop; [exact Hn|reflexivity|].
    cbn beta. rewrite bt_seq, bt_star_cls.
    change (u " {" ++ (x :: inner) ++ u "}")
      with (u " " ++ u "{" ++ (x :: inner) ++ u "}").
    apply (@star_cls_stop space (u " ") (u "{" ++ (x :: inner) ++ u "}"));
      [reflexivity|reflexivity|].
    cbn beta. now rewrite bt_lit_app.
Qed.

Lemma find_sub_length (y : jschar) (p s : jstring) :
  forall a b, find_sub (y :: p) s = Some (a, b) ->
              (length b < length s)%nat.
Proof.
  induction s as [|c s IH]; intros a b H; rewrite find_sub_eq in H.
  - cbn [startsWith] in H. discriminate H.
  - destruct (startsWith (c :: s) (y :: p)).
    + injection H as _ <-. cbn [length skipn].
      pose proof (length_skipn (length p) s). lia.
    + destruct (find_sub (y :: p) s) as [[a' b']|]; [|discriminate H].
      injection H as _ <-. specialize (IH _ _ eq_refl). cbn [length]. lia.
Qed.

Lemma split_fuel_any (y : jschar) (p : jstring) (n : nat) :
  forall m s, (length s <= n)%nat -> (length s <= m)%nat ->
              split_fuel n s (y :: p) = split_fuel m s (y :: p).
Proof.
  induction n as [|n IH]; intros m s Hn Hm.
  - destruct s; [|cbn [length] in Hn; lia]. now destruct m.
  - destruct m as [|m].
    + destruct s; [reflexivity|cbn [length] in Hm; lia].
    + cbn [split_fuel].
      destruct (find_sub (y :: p) s) as [[a b]|] eqn:F; [|reflexivity].
      apply find_sub_length in F. f_equal. apply IH; lia.
Qed.

Lemma split_fuel_enough (y : jschar) (p : jstring) (n : nat) (s : jstring) :
  (length s <= n)%nat -> split_fuel n s (y :: p) = split s (y :: p).
Proof. intros H. unfold split. now apply split_fuel_any. Qed.

Lemma split_cons (y : jschar) (p a r : jstring) :
  Forall (fun c => c <> y) a ->
  split (a ++ (y :: p) ++ r) (y :: p) = a :: split r (y :: p).
Proof.
  intros H. unfold split at 1.
  destruct (length (a ++ (y :: p) ++ r)) as [|n] eqn:L.
  - rewrite !length_app in L. cbn [length] in L. lia.
  - cbn [split_fuel]. rewrite (find_sub_first _ _ H). f_equal.
    apply split_fuel_enough. rewrite !length_app in L.
    cbn [length] in L. lia.
Qed.

Lemma split_absent (y : jschar) (p s : jstring) :
  Forall (fun c => c <> y) s -> split s (y :: p) = [s].
Proof.
  intros H. apply split_fuel_absent. now apply find_sub_absent.
Qed.

Lemma word_parts (s : jstring) :
  word s ->
  s <> [] /\ trim s = s /\ forallb (cls_mem dot) s = true
  /\ Forall (fun c => c <> 44%N) s /\ Forall (fun c => c <> 58%N) s.
Proof. intros ((? & ? & ?) & ? & ?). now repeat split. Qed.

Lemma join_words_dot (sep : jstring) (l : list jstring) :
  forallb (cls_mem dot) sep = true ->
  Forall (fun s => forallb (cls_mem dot) s = true) l ->
  forallb (cls_mem dot) (join sep l) = true.
Proof.
  intros Hs. induction 1 as [|a l Ha _ IH]; [reflexivity|].
  destruct l as [|b l]; [exact Ha|].
  change (join sep (a :: b :: l)) with (a ++ sep ++ join sep (b :: l)).
  now rewrite !forallb_app, Ha, Hs, IH.
Qed.

Lemma join_nonempty (sep : jstring) (l : list jstring) :
  l <> [] -> Forall (fun s => s <> []) l -> join sep l <> [].
Proof.
  intros Hne F. destruct l as [|a l]; [contradiction|].
  apply Forall_cons_iff in F as [Ha _].
  destruct l; cbn [join]; destruct a; try contradiction; discriminate.
Qed.

(** The values of an enum line. *)
Lemma enum_values (values : list jstring) :
  values <> [] -> Forall word values ->
  map trim (split (join (u ",") values) (u ",")) = values.
Proof.
  induction values as [|v values IH]; [contradiction|].
  intros _ F. apply Forall_cons_iff in F as [Hv F].
  destruct (word_parts Hv) as (_ & Ht & _ & Hc & _).
  destruct values as [|v' values].
  - cbn [join]. change (u ",") with [44%N : jschar].
    rewrite (split_absent _ Hc). cbn [map]. now rewrite Ht.
  - change (join (u ",") (v :: v' :: values))
      with (v ++ [44%N : jschar] ++ join (u ",") (v' :: values)).
    change (u ",") with [44%N : jschar] at 2.
    rewrite (split_cons _ _ Hc). cbn [map]. rewrite Ht. f_equal.
    apply IH; [discriminate|exact F].
Qed.

(** One field of a model line, with white space around it. *)
Lemma add_field_word (o : list (jstring * jstring))
      (w1 k t w2 : jstring) :
  forallb is_space w1 = true -> forallb is_space w2 = true ->
  word k -> word t ->
  Compiler.add_field o (w1 ++ (k ++ u ":" ++ t) ++ w2) = JsObject.set o k t.
Proof.
  intros H1 H2 Hk Ht.
  destruct (word_parts Hk) as (Hk0 & Hkt & _ & _ & Hkc).
  destruct (word_parts Ht) as (Ht0 & Htt & _ & _ & Htc).
  unfold Compiler.add_field. rewrite (trim_ws _ H1 H2).
  destruct (trimmed_head Hkt Hk0) as (x & k' & -> & Hx).
  assert (T : trim ((x :: k') ++ u ":" ++ t) = (x :: k') ++ u ":" ++ t).
  { replace ((x :: k') ++ u ":" ++ t) with (x :: (k' ++ u ":") ++ t)
      by (cbn [app]; now rewrite <- app_assoc).
    exact (trim_tight_app _ Hx Htt Ht0). }
  rewrite T. change (u ":") with [58%N : jschar].
  rewrite (split_cons _ _ Hkc), (split_absent _ Htc).
  cbn [nth]. now rewrite Hkt, Htt.
Qed.

Lemma split_join_cons (a : jstring) (rest : list jstring) (t : jstring) :
  rest <> [] -> Forall (fun c => c <> 44%N) a ->
  split (join [44%N] (a :: rest) ++ t) [44%N]
  = a :: split (join [44%N] rest ++ t) [44%N].
Proof.
  intros Hne Ha. destruct rest as [|b rest]; [contradiction|].
  change (join [44%N] (a :: b :: rest))
    with (a ++ [44%N] ++ join [44%N] (b :: rest)).
  rewrite <- !app_assoc. now apply split_cons.
Qed.

Lemma model_fields (fields : list (jstring * jstring)) :
  fields <> [] ->
  Forall (fun f => word (fst f) /\ word (snd f)) fields ->
  forall o,
    fold_left Compiler.add_field
      (split (join (u ",")
                   (map (fun f => u " " ++ fst f ++ u ":" ++ snd f) fields)
                ++ u " ") (u ","))
      o
    = fold_left (fun o f => JsObject.set o (fst f) (snd f)) fields o.
Proof.
  induction fields as [|[k t] fields IH]; [contradiction|].
  intros _ F o. apply Forall_cons_iff in F as [[Hk Ht] F].
  cbn [fst snd] in Hk, Ht.
  destruct (word_parts Hk) as (_ & _ & _ & Hkc & _).
  destruct (word_parts Ht) as (_ & _ & _ & Htc & _).
  assert (C : Forall (fun c => c <> 44%N) (u " " ++ k ++ u ":" ++ t)).
  { apply Forall_app; split; [apply Forall_neq_b; reflexivity|].
    apply Forall_app; split; [exact Hkc|].
    apply Forall_app; split; [apply Forall_neq_b; reflexivity|exact Htc]. }
  destruct fields as [|f' fields].
  - cbn [map join fst snd].
    change (u ",") with [44%N : jschar].
    rewrite split_absent.
    + cbn [fold_left].
      replace ((u " " ++ k ++ u ":" ++ t) ++ u " ")
        with (u " " ++ (k ++ u ":" ++ t) ++ u " ")
        by now rewrite <- !app_assoc.
      now rewrite add_field_word.
    + apply Forall_app; split; [exact C|apply Forall_neq_b; reflexivity].
  - rewrite map_cons. cbn [fst snd].
    change (u ",") with [44%N : jschar].
    rewrite split_join_cons; [|discriminate|exact C].
    cbn [fold_left].
    replace (u " " ++ k ++ u ":" ++ t)
      with (u " " ++ (k ++ u ":" ++ t) ++ [])
      by now rewrite app_nil_r.
    rewrite add_field_word by (reflexivity || assumption).
    apply IH; [discriminate|exact F].
Qed.

Lemma trimStart_snoc (x : jschar) (l : jstring) :
  is_space x = false -> exists l', trimStart (l ++ [x]) = l' ++ [x].
Proof.
  intros Hx. induction l as [|c l [l' IH]].
  - exists []. cbn [app trimStart]. now rewrite Hx.
  - cbn [app trimStart]. destruct (is_space c).
    + now exists l'.
    + now exists (c :: l).
Qed.

Lemma comment_is_dropped (note : jstring) :
  Compiler.kept (trim (u "#" ++ note)) = false.
Proof.
  unfold trim.
  change (u "#" ++ note) with ((35%N : jschar) :: note).
  rewrite trimStart_head by reflexivity.
  unfold trimEnd. cbn [rev].
  destruct (@trimStart_snoc 35%N (rev note) eq_refl) as [l' ->].
  rewrite rev_app_distr. reflexivity.
Qed.

Lemma trimmed_decl (letter : jschar) (n b : jstring) :
  is_space letter = false -> trim b = b -> b <> [] ->
  trim ([letter] ++ n ++ u ": " ++ b) = [letter] ++ n ++ u ": " ++ b.
Proof.
  intros Hl Hb Hb0.
  change ([letter] ++ n ++ u ": " ++ b) with (letter :: n ++ u ": " ++ b).
  rewrite (app_assoc n). now apply trim_tight_app.
Qed.

Lemma parse_line_decl (p : Compiler.Program) (d : decl) :
  well_formed_decl d ->
  match d with Comment _ | Blank => False | _ => True end ->
  trim (render d) = render d /\ Compiler.kept (render d) = true
  /\ Compiler.parse_line p (render d) = declare p d.
Proof.
  destruct d as [note| |n b|n b|n b|n values|n fields]; cbn [well_formed_decl];
    intros W K; try contradiction.
  - destruct W as [Hn Hb]. pose proof Hb as (Hb0 & Hbt & _).
    destruct (@match_decl (u "P") n b Hn Hb) as [M T].
    split; [|split; [reflexivity|]].
    + exact (@trimmed_decl 80%N n b eq_refl Hbt Hb0).
    + unfold Compiler.parse_line, render.
      change (Compiler.test Compiler.re_model_test (u "P" ++ n ++ u ": " ++ b))
        with false.
      change (Compiler.test Compiler.re_enum_test (u "P" ++ n ++ u ": " ++ b))
        with false.
      cbv iota. rewrite T, M. reflexivity.
  - destruct W as [Hn Hb]. pose proof Hb as (Hb0 & Hbt & _).
    destruct (@match_decl (u "R") n b Hn Hb) as [M T].
    split; [|split; [reflexivity|]].
    + exact (@trimmed_decl 82%N n b eq_refl Hbt Hb0).
    + unfold Compiler.parse_line, render.
      change (Compiler.test Compiler.re_model_test (u "R" ++ n ++ u ": " ++ b))
        with false.
      change (Compiler.test Compiler.re_enum_test (u "R" ++ n ++ u ": " ++ b))
        with false.
      change (Compiler.test (Compiler.re_decl_test (u "P"))
                            (u "R" ++ n ++ u ": " ++ b)) with false.
      cbv iota. rewrite T, M. reflexivity.
  - destruct W as [Hn Hb]. pose proof Hb as (Hb0 & Hbt & _).
    destruct (@match_decl (u "T") n b Hn Hb) as [M T].
    split; [|split; [reflexivity|]].
    + exact (@trimmed_decl 84%N n b eq_refl Hbt Hb0).
    + unfold Compiler.parse_line, render.
      change (Compiler.test Compiler.re_model_test (u "T" ++ n ++ u ": " ++ b))
        with false.
      change (Compiler.test Compiler.re_enum_test (u "T" ++ n ++ u ": " ++ b))
        with false.
      change (Compiler.test (Compiler.re_decl_test (u "P"))
                            (u "T" ++ n ++ u ": " ++ b)) with false.
      change (Compiler.test (Compiler.re_decl_test (u "R"))
                            (u "T" ++ n ++ u ": " ++ b)) with false.
      cbv iota. rewrite T, M. reflexivity.
  - destruct W as (Hn & Hv0 & Hv).
    assert (Hi0 : join (u ",") values <> []).
    { apply join_nonempty; [exact Hv0|].
      apply Forall_impl with (2 := Hv). now intros s ((? & _) & _). }
    assert (Hi : forallb (cls_mem dot) (join (u ",") values) = true).
    { apply join_words_dot; [reflexivity|].
      apply Forall_impl with (2 := Hv). now intros s ((_ & _ & ?) & _). }
    destruct (match_enum Hn Hi0 Hi) as [M T].
    split; [|split; [reflexivity|]].
    + unfold render.
      change (u "E" ++ n ++ u " = [" ++ join (u ",") values ++ u "]")
        with ((69%N : jschar)
                :: n ++ u " = [" ++ join (u ",") values ++ [93%N : jschar]).
      rewrite !app_assoc. now apply trim_edges.
    + unfold Compiler.parse_line, render.
      change (Compiler.test Compiler.re_model_test
                (u "E" ++ n ++ u " = [" ++ join (u ",") values ++ u "]"))
        with false.
      cbv iota. rewrite T, M.
      change (group [(Idx 2, join (u ",") values); (Idx 1, n)] 1) with n.
      change (group [(Idx 2, join (u ",") values); (Idx 1, n)] 2)
        with (join (u ",") values).
      now rewrite (enum_values Hv0 Hv).
  - destruct W as (Hn & Hf0 & Hf).
    set (inner := join (u ",")
                    (map (fun f => u " " ++ fst f ++ u ":" ++ snd f) fields)
                    ++ u " ").
    assert (R : render (ModelDecl n fields)
                = u "M" ++ n ++ u " {" ++ inner ++ u "}").
    { unfold render, inner. now rewrite <- !app_assoc. }
    assert (Hi0 : inner <> []).
    { unfold inner. destruct (join _ _); discriminate. }
    assert (Hi : forallb (cls_mem dot) inner = true).
    { unfold inner. rewrite forallb_app. apply andb_true_iff.
      split; [|reflexivity].
      apply join_words_dot; [reflexivity|]. apply Forall_map.
      apply Forall_impl with (2 := Hf).
      intros [k t] [Hk Ht]. cbn [fst snd] in *.
      destruct (word_parts Hk) as (_ & _ & Dk & _).
      destruct (word_parts Ht) as (_ & _ & Dt & _).
      now rewrite !forallb_app, Dk, Dt. }
    destruct (match_model Hn Hi0 Hi) as [M T].
    rewrite R. split; [|split; [reflexivity|]].
    + change (u "M" ++ n ++ u " {" ++ inner ++ u "}")
        with ((77%N : jschar) :: n ++ u " {" ++ inner ++ [125%N : jschar]).
      rewrite !app_assoc. now apply trim_edges.
    + unfold Compiler.parse_line. rewrite T, M.
      change (group [(Idx 2, inner); (Idx 1, n)] 1) with n.
      change (group [(Idx 2, inner); (Idx 1, n)] 2) with inner.
      unfold inner. now rewrite (model_fields Hf0 Hf).
Qed.

Lemma render_no_break (d : decl) :
  well_formed_decl d -> no_break (render d).
Proof.
  destruct d as [note| |n b|n b|n b|n values|n fields];
    cbn [well_formed_decl render]; intros W.
  - apply (@no_break_app (u "#")); [reflexivity|exact W].
  - reflexivity.
  - destruct W as [[_ Hn] (_ & _ & Hb)].
    apply (@no_break_app (u "P")); [reflexivity|].
    apply no_break_app; [now apply digits_no_break|].
    apply (@no_break_app (u ": ")); [reflexivity|now apply dot_no_break].
  - destruct W as [[_ Hn] (_ & _ & Hb)].
    apply (@no_break_app (u "R")); [reflexivity|].
    apply no_break_app; [now apply digits_no_break|].
    apply (@no_break_app (u ": ")); [reflexivity|now apply dot_no_break].
  - destruct W as [[_ Hn] (_ & _ & Hb)].
    apply (@no_break_app (u "T")); [reflexivity|].
    apply no_break_app; [now apply digits_no_break|].
    apply (@no_break_app (u ": ")); [reflexivity|now apply dot_no_break].
  - destruct W as ([_ Hn] & _ & Hv).
    apply (@no_break_app (u "E")); [reflexivity|].
    apply no_break_app; [now apply digits_no_break|].
    apply (@no_break_app (u " = [")); [reflexivity|].
    apply no_break_app; [|reflexivity].
    apply dot_no_break. apply join_words_dot; [reflexivity|].
    apply Forall_impl with (2 := Hv). now intros s ((_ & _ & ?) & _).
  - destruct W as ([_ Hn] & _ & Hf).
    apply (@no_break_app (u "M")); [reflexivity|].
    apply no_break_app; [now apply digits_no_break|].
    apply (@no_break_app (u " {")); [reflexivity|].
    apply no_break_app; [|reflexivity].
    apply dot_no_break. apply join_words_dot; [reflexivity|].
    apply Forall_map. apply Forall_impl with (2 := Hf).
    intros [k t] [Hk Ht]. cbn [fst snd] in *.
    destruct (word_parts Hk) as (_ & _ & Dk & _).
    destruct (word_parts Ht) as (_ & _ & Dt & _).
    now rewrite !forallb_app, Dk, Dt.
Qed.

Lemma parse_lines (ls : list (jstring * decl)) :
  Forall well_formed_line ls ->
  forall p,
    fold_left Compiler.parse_line
              (filter Compiler.kept (map trim (map source_line ls))) p
    = fold_left declare (map snd ls) p.
Proof.
  induction 1 as [|[ws d] ls (Hws & _ & Hd) _ IH]; intros p; [reflexivity|].
  cbn [map filter fst snd] in *.
  change (source_line (ws, d)) with (ws ++ render d).
  replace (ws ++ render d) with (ws ++ render d ++ [])
    by now rewrite app_nil_r.
  rewrite trim_ws by (assumption || reflexivity).
  destruct d as [note| |n b|n b|n b|n values|n fields].
  - cbn [render]. rewrite comment_is_dropped. cbn [fold_left declare].
    apply IH.
  - cbn [fold_left declare]. apply IH.
  - destruct (parse_line_decl p Hd I) as (T & K & P).
    rewrite T, K. cbn [fold_left]. rewrite P. apply IH.
  - destruct (parse_line_decl p Hd I) as (T & K & P).
    rewrite T, K. cbn [fold_left]. rewrite P. apply IH.
  - destruct (parse_line_decl p Hd I) as (T & K & P).
    rewrite T, K. cbn [fold_left]. rewrite P. apply IH.
  - destruct (parse_line_decl p Hd I) as (T & K & P).
    rewrite T, K. cbn [fold_left]. rewrite P. apply IH.
  - destruct (parse_line_decl p Hd I) as (T & K & P).
    rewrite T, K. cbn [fold_left]. rewrite P. apply IH.
Qed.

Lemma routes_of_declarations (ds : list decl) :
  forall p,
    NoDup (map fst (Compiler.p_routes p ++ declared_routes ds)) ->
    Compiler.p_routes (fold_left declare ds p)
    = Compiler.p_routes p ++ declared_routes ds.
Proof.
  induction ds as [|d ds IH]; intros p N.
  - cbn. now rewrite app_nil_r.
  - cbn [fold_left].
    destruct d as [note| |n b|n b|n b|n values|n fields];
      try (rewrite IH; [reflexivity|exact N]).
    rewrite IH; cbn [declare Compiler.p_routes].
    + rewrite set_fresh; [now rewrite <- app_assoc|discriminate|reflexivity|].
      change (declared_routes (RouteDecl n b :: ds))
        with ((u "R" ++ n, b) :: declared_routes ds) in N.
      rewrite map_app in N. cbn [map fst] in N.
      apply NoDup_remove_2 in N. intros Hin. apply N.
      apply in_or_app. now left.
    + change (declared_routes (RouteDecl n b :: ds))
        with ((u "R" ++ n, b) :: declared_routes ds) in N.
      rewrite set_fresh; [now rewrite <- app_assoc|discriminate|reflexivity|].
      rewrite map_app in N. cbn [map fst] in N.
      apply NoDup_remove_2 in N. intros Hin. apply N.
      apply in_or_app. now left.
Qed.

(** X27.  [parseNova] reads a program written in the documented layout: comment
    lines and empty lines change nothing, and every other line does to the
    program what its declaration says, in the order of the lines and
    whatever the indentation.  When no route number is used twice, the
    routes of the program are the declared ones in the order of their
    lines, and so the runner compiles them in that order. *)
Theorem parseNova_reads_declarations (lines : list (jstring * decl)) :
  Forall well_formed_line lines ->
  Compiler.parseNova (program_text lines)
  = fold_left declare (map snd lines) Compiler.empty
  /\ (NoDup (map fst (declared_routes (map snd lines))) ->
      Compiler.p_routes (Compiler.parseNova (program_text lines))
      = declared_routes (map snd lines)
      /\ forall dict,
          compile dict (Compiler.ast_of
                          (Compiler.parseNova (program_text lines)))
          = compile_specs dict (declared_routes (map snd lines))).
Proof.
  intros F.
  assert (P : Compiler.parseNova (program_text lines)
              = fold_left declare (map snd lines) Compiler.empty).
  { unfold Compiler.parseNova, program_text.
    destruct lines as [|l0 rest]; [reflexivity|].
    rewrite split_lines_join.
    - now apply parse_lines.
    - discriminate.
    - apply Forall_map. apply Forall_impl with (2 := F).
      intros [ws d] (_ & Hws & Hd). unfold source_line.
      apply no_break_app; [exact Hws|now apply render_no_break]. }
  split; [exact P|]. intros N.
  assert (R : Compiler.p_routes (Compiler.parseNova (program_text lines))
              = declared_routes (map snd lines)).
  { rewrite P. now rewrite routes_of_declarations. }
  split; [exact R|]. intros dict. unfold compile, Compiler.ast_of.
  cbn [routes]. now rewrite R.
Qed.

Lemma parseNova_reads_declarations_witness :
  Compiler.p_routes
    (Compiler.parseNova
       (u "# jobs" ++ 10%N :: u "E1 = [0,1]" ++ 10%N
          :: uq "  R1: GET /j -> [M1] :: kv.scan(`j:`)" ++ 10%N :: []))
  = [(u "R1", uq "GET /j -> [M1] :: kv.scan(`j:`)")].
Proof.
  set (ls := [ ([], Comment (u " jobs"));
               ([], EnumDecl (u "1") [u "0"; u "1"]);
               (u "  ", RouteDecl (u "1")
                                  (uq "GET /j -> [M1] :: kv.scan(`j:`)"));
               ([], Blank) ]).
  assert (E : u "# jobs" ++ 10%N :: u "E1 = [0,1]" ++ 10%N
                :: uq "  R1: GET /j -> [M1] :: kv.scan(`j:`)" ++ 10%N :: []
              = program_text ls) by (vm_compute; reflexivity).
  rewrite E.
  destruct (@parseNova_reads_declarations ls) as [_ H].
  - unfold ls.
    repeat (apply Forall_cons || apply Forall_nil);
      unfold well_formed_line, well_formed_decl, numeral, plain_text, word;
      cbn [fst snd];
      repeat split; try discriminate; try reflexivity;
        repeat (apply Forall_cons || apply Forall_nil);
        unfold plain_text; repeat split; try discriminate; try reflexivity;
          apply Forall_neq_b; reflexivity.
  - destruct H as [R _].
    + vm_compute. repeat constructor. intros [].
    + rewrite R. vm_compute. reflexivity.
Defined.

End ParserFacts.

(* ================================================================== *)
(** * Scans, generated components and repeated declarations *)

Section MoreFacts.

Lemma startsWith_missing (q : jschar) (l s : jstring) :
  In q l -> Forall (fun c => c <> q) s -> startsWith s l = false.
Proof.
  revert s; induction l as [|y l IH]; intros s Hin Hs; [destruct Hin|].
  destruct Hs as [|c s Hc Hs]; [reflexivity|]. cbn [startsWith].
  destruct Hin as [->|Hin].
  - apply N.eqb_neq in Hc. now rewrite Hc.
  - rewrite (IH s Hin Hs). apply andb_false_r.
Qed.

Lemma search_missing (q : jschar) (l : jstring) (r : re) (s : jstring) :
  In q l -> Forall (fun c => c <> q) s ->
  search (Seq (Lit l) r) s = None.
Proof.
  intros Hin. induction 1 as [|c s Hc Hs IH].
  - cbn [search]. unfold match_here. cbn [backtrack].
    rewrite (@startsWith_missing q l []); [reflexivity|exact Hin|constructor].
  - cbn [search]. rewrite IH. unfold match_here. cbn [backtrack].
    rewrite (@startsWith_missing q l (c :: s));
      [reflexivity|exact Hin|now constructor].
Qed.

(** X28.  A stage [kv.scan("P")] replaces the current value by the items stored
    under the prefix [P], in the order of the store; a stage that opens
    with [kv.scan] and holds no double quote is refused. *)
Theorem kv_scan_segment (ctx : Ctx) (dt : data) (fx : list effect) :
  (forall P,
      forallb (cls_mem dot) P = true ->
      step ctx (dt, fx) (uq "kv.scan(`" ++ P ++ uq "`)")
      = Ok (DArray (Runtime.kvScan (runtime ctx) P), fx))
  /\ (forall rest,
         Forall (fun c => c <> 34%N) rest ->
         step ctx (dt, fx) (u "kv.scan" ++ rest)
         = Err (InvalidKvScan (u "kv.scan" ++ rest))).
Proof.
  split.
  - intros P HP. unfold step.
    change (startsWith (uq "kv.scan(`" ++ P ++ uq "`)") (u "kv.scan"))
      with true. cbv iota.
    pose proof (@match_kv_scan P [] HP (Forall_nil _)) as M.
    rewrite app_nil_r in M. rewrite M. reflexivity.
  - intros rest Hr. unfold step.
    rewrite (startsWith_app (u "kv.scan") rest).
    unfold match_, re_kv_scan. cbn [anchored body].
    rewrite (@search_missing 34%N); [reflexivity| |].
    + vm_compute. auto 10.
    + apply Forall_app. split; [apply Forall_neq_b; reflexivity|exact Hr].
Qed.

Lemma kv_scan_segment_witness :
  step (go_ctx "job2") (DUndefined, []) (uq "kv.scan(`j:job1`)")
  = Ok (DArray (Runtime.kvScan (runtime (go_ctx "job2")) (u "j:job1")), [])
  /\ step (go_ctx "job2") (DUndefined, []) (u "kv.scan(j:)")
     = Err (InvalidKvScan (u "kv.scan(j:)")).
Proof.
  destruct (kv_scan_segment (go_ctx "job2") DUndefined []) as [H1 H2].
  split.
  - apply (H1 (u "j:job1")). reflexivity.
  - apply (H2 (u "(j:)")). apply Forall_neq_b. reflexivity.
Defined.

Lemma startsWith_app_l (a b pat : jstring) :
  startsWith a pat = true -> startsWith (a ++ b) pat = true.
Proof.
  intros H. apply startsWith_inv in H as [t ->].
  rewrite <- app_assoc. apply startsWith_app.
Qed.

Lemma includes_app_l (a b pat : jstring) :
  includes a pat = true -> includes (a ++ b) pat = true.
Proof.
  unfold includes. induction a as [|c a IH]; intros H.
  - rewrite find_sub_eq in H. rewrite find_sub_eq.
    destruct (startsWith [] pat) eqn:E; [|discriminate H].
    now rewrite (startsWith_app_l b E).
  - rewrite find_sub_eq in H. cbn [app]. rewrite find_sub_eq.
    destruct (startsWith (c :: a) pat) eqn:E.
    + change (c :: a ++ b) with ((c :: a) ++ b).
      now rewrite (startsWith_app_l b E).
    + destruct (startsWith (c :: a ++ b) pat); [reflexivity|].
      destruct (find_sub pat a) as [[x y]|]; [|discriminate H].
      specialize (IH eq_refl).
      now destruct (find_sub pat (a ++ b)) as [[x' y']|].
Qed.

Lemma includes_app_r (a b pat : jstring) :
  includes b pat = true -> includes (a ++ b) pat = true.
Proof.
  unfold includes. intros H. induction a as [|c a IH]; [exact H|].
  cbn [app]. rewrite find_sub_eq.
  destruct (startsWith (c :: a ++ b) pat); [reflexivity|].
  now destruct (find_sub pat (a ++ b)) as [[x y]|].
Qed.

(** X29.  Of the properties of a screen, the generated component depends only on
    [fields] and on whether [filterable] lists anything: [route], [layout],
    [actions], [pageSize] and the names and labels in [filterable] never
    reach it.  When [filterable] lists something, the text holds the
    placeholder [${filters}] as it stands, not the inputs made for it. *)
Theorem component_reads_fields_only (name : jstring)
        (props props' : list (jstring * jstring)) :
  (UiGenerator.listed props (u "fields")
   = UiGenerator.listed props' (u "fields") ->
   (UiGenerator.listed props (u "filterable") = []
    <-> UiGenerator.listed props' (u "filterable") = []) ->
   UiGenerator.generateReactComponent name props
   = UiGenerator.generateReactComponent name props')
  /\ (UiGenerator.listed props (u "filterable") <> [] ->
      includes (UiGenerator.generateReactComponent name props)
               (uq "<div className=`mb-4 flex`>${filters}</div>")
      = true).
Proof.
  split.
  - intros Hf Hn. unfold UiGenerator.generateReactComponent.
    rewrite Hf.
    destruct (UiGenerator.listed props (u "filterable")) as [|a l];
      destruct (UiGenerator.listed props' (u "filterable")) as [|a' l'];
      try reflexivity.
    + destruct Hn as [Hn _]. discriminate (Hn eq_refl).
    + destruct Hn as [_ Hn]. discriminate (Hn eq_refl).
  - intros Hn. unfold UiGenerator.generateReactComponent.
    destruct (UiGenerator.listed props (u "filterable")) as [|a l];
      [contradiction|].
    cbn [join].
    do 20 (apply includes_app_r; apply includes_app_r).
    apply includes_app_l. apply includes_app_r. apply includes_refl.
Qed.

Lemma component_reads_fields_only_witness :
  UiGenerator.generateReactComponent
    (u "Jobs") [(u "fields", u "U1,U2"); (u "filterable", u "U4(status)")]
  = UiGenerator.generateReactComponent
      (u "Jobs") [(u "fields", u "U1, U2"); (u "layout", u "table");
                  (u "filterable", u "U2(title),U1")]
  /\ includes
       (UiGenerator.generateReactComponent
          (u "Jobs")
          [(u "fields", u "U1,U2"); (u "filterable", u "U4(status)")])
       (uq "<div className=`mb-4 flex`>${filters}</div>")
     = true.
Proof.
  destruct (@component_reads_fields_only
              (u "Jobs")
              [(u "fields", u "U1,U2"); (u "filterable", u "U4(status)")]
              [(u "fields", u "U1, U2"); (u "layout", u "table");
               (u "filterable", u "U2(title),U1")]) as [H1 H2].
  split.
  - apply H1; [vm_compute; reflexivity|].
    split; intros H; vm_compute in H; discriminate H.
  - apply H2. vm_compute. discriminate.
Defined.

Lemma replace_member_present {A} (k : jstring) (v : A)
      (o : list (jstring * A)) :
  In k (map fst o) ->
  exists o',
    JsObject.replace_member k v o = Some o'
    /\ map fst o' = map fst o
    /\ assoc k o' = Some v
    /\ forall k', k' <> k -> assoc k' o' = assoc k' o.
Proof.
  induction o as [|[k0 v0] o IH]; [intros []|].
  cbn [map fst In JsObject.replace_member]. intros Hin.
  destruct (jstr_eqb k0 k) eqn:E.
  - apply jstr_eqb_eq in E. subst k0. eexists. split; [reflexivity|].
    cbn [map fst assoc]. rewrite jstr_eqb_refl. repeat split.
    intros k' Hk'. apply not_eq_sym in Hk'.
    apply jstr_eqb_neq in Hk'. now rewrite Hk'.
  - destruct Hin as [Hin|Hin];
      [subst k0; now rewrite jstr_eqb_refl in E|].
    destruct (IH Hin) as (o' & -> & Hk & Ha & Ho).
    eexists. split; [reflexivity|]. cbn [map fst assoc].
    rewrite Hk, E, Ha. repeat split.
    intros k' Hk'. now rewrite (Ho k' Hk').
Qed.

(** X30.  A route that is declared again keeps its place among the routes and
    takes the later text; the other routes are as they were.  So the route
    that the program declares first stays the first one. *)
Theorem redeclared_route_keeps_its_place (p : Compiler.Program)
        (n body : jstring) :
  numeral n -> plain_text body ->
  In (u "R" ++ n) (map fst (Compiler.p_routes p)) ->
  let p' := Compiler.parse_line p (u "R" ++ n ++ u ": " ++ body) in
  map fst (Compiler.p_routes p') = map fst (Compiler.p_routes p)
  /\ assoc (u "R" ++ n) (Compiler.p_routes p') = Some body
  /\ (forall k, k <> u "R" ++ n ->
                assoc k (Compiler.p_routes p') = assoc k (Compiler.p_routes p))
  /\ Compiler.p_properties p' = Compiler.p_properties p
  /\ Compiler.p_enums p' = Compiler.p_enums p.
Proof.
  intros Hn Hb Hin.
  destruct (@parse_line_decl p (RouteDecl n body) (conj Hn Hb) I)
    as (_ & _ & P).
  cbn [render] in P. cbv zeta. rewrite P.
  cbn [declare Compiler.p_routes Compiler.p_properties Compiler.p_enums].
  destruct (replace_member_present body Hin) as (o' & R & Hk & Ha & Ho).
  unfold JsObject.set.
  change (jstr_eqb (u "R" ++ n) (u "__proto__")) with false. cbv iota.
  rewrite R. now repeat split.
Qed.

Lemma redeclared_route_keeps_its_place_witness :
  map fst (Compiler.p_routes
             (Compiler.parseNova
                (u "R1: GET /a -> M1" ++ 10%N :: u "R2: GET /b -> M1" ++ 10%N
                   :: u "R1: GET /c -> M1")))
  = [u "R1"; u "R2"]
  /\ assoc (u "R1")
           (Compiler.p_routes
              (Compiler.parseNova
                 (u "R1: GET /a -> M1" ++ 10%N :: u "R2: GET /b -> M1"
                    ++ 10%N :: u "R1: GET /c -> M1")))
     = Some (u "GET /c -> M1").
Proof.
  set (p := Compiler.parseNova
              (u "R1: GET /a -> M1" ++ 10%N :: u "R2: GET /b -> M1")).
  destruct (@redeclared_route_keeps_its_place p (u "1") (u "GET /c -> M1"))
    as (Hk & Ha & _).
  - split; [discriminate|reflexivity].
  - split; [discriminate|split; reflexivity].
  - vm_compute. left. reflexivity.
  - split.
    + etransitivity; [|etransitivity; [exact Hk|]]; vm_compute; reflexivity.
    + etransitivity; [|exact Ha]. vm_compute. reflexivity.
Defined.

End MoreFacts.
